(** * WebRx expression compiler and object-literal tokenizer

    A shallow embedding of the [wx.compiler] module of WebRx
    (the object-literal tokenizer ported from Knockout and the expression
    compiler ported from Angular), together with the properties that its
    design document states about it.

    Conventions of the embedding:
    - JavaScript strings are sequences of code units; the embedding uses
      [string] (8-bit code units), which covers the Latin-1 range.
    - JavaScript numbers are modelled as exact rationals extended with
      [NaN] and the two infinities; binary64 rounding and the sign of
      zero are not modelled.
    - Objects live in a store ([heap]) and are referred to by location.
      A store object is an ordinary object with data properties: a
      plain object (prototype [Object.prototype]), a function or an
      array. What it does not own it inherits from the built-in
      prototypes, which are as the language defines them; where the
      answer depends on the edition of the language or on the engine,
      the embedding says so ([None], [Unmodelled]) instead of
      answering.
    - Functions supplied by the caller (filters, hooks, scope methods)
      are opaque: their behaviour is the parameter [host].
    - The code is strict-mode code. *)

From Stdlib Require Import ZArith QArith Qround Strings.String Strings.Ascii Lists.List Bool Lia DecimalString.
From stdpp Require Import base option list strings gmap fin_maps.

Set Default Proof Using "Type".
Open Scope string_scope.
Open Scope nat_scope.

(** ** Characters and strings as JavaScript sees them *)

Module JsString.

Definition code (c : ascii) : nat := nat_of_ascii c.

(** The double-quote character (code 34). *)
Definition dquote : ascii := Eval cbv in ascii_of_nat 34.

Definition char_in (c : ascii) (chars : string) : bool :=
  existsb (Ascii.eqb c) (list_ascii_of_string chars).

(** [\s] (and the characters removed by [String.prototype.trim]) in
    the Latin-1 range: TAB, LF, VT, FF, CR, SPACE, NBSP. *)
Definition is_space (c : ascii) : bool :=
  let n := code c in
  ((9 <=? n) && (n <=? 13)) || (n =? 32) || (n =? 160).

(** Line terminators: the characters [.] does not match. *)
Definition is_line_terminator (c : ascii) : bool :=
  let n := code c in (n =? 10) || (n =? 13).

Fixpoint trim_left (s : string) : string :=
  match s with
  | String c s' => if is_space c then trim_left s' else s
  | EmptyString => EmptyString
  end.

(** Removes trailing white space; [None] stands for an all-blank string. *)
Fixpoint trim_right_aux (s : string) : option string :=
  match s with
  | EmptyString => None
  | String c s' =>
      match trim_right_aux s' with
      | Some t => Some (String c t)
      | None => if is_space c then None else Some (String c EmptyString)
      end
  end.

Definition trim_right (s : string) : string :=
  match trim_right_aux s with Some t => t | None => EmptyString end.

(** [s.trim()] *)
Definition trim (s : string) : string := trim_right (trim_left s).

(** [s.charCodeAt(0)]; [None] is [NaN]. *)
Definition charCodeAt0 (s : string) : option nat :=
  match s with
  | String c _ => Some (code c)
  | EmptyString => None
  end.

Definition is_code (c : option nat) (n : nat) : bool :=
  match c with Some m => m =? n | None => false end.

(** [s.substr(n)] *)
Fixpoint skip (n : nat) (s : string) : string :=
  match n, s with
  | O, _ => s
  | S n', String _ s' => skip n' s'
  | S _, EmptyString => EmptyString
  end.

(** [s.substr(0, n)] *)
Fixpoint keep (n : nat) (s : string) : string :=
  match n, s with
  | O, _ => EmptyString
  | S n', String c s' => String c (keep n' s')
  | S _, EmptyString => EmptyString
  end.

(** [s.substring(a, b)] for [a <= b] *)
Definition substring (a b : nat) (s : string) : string :=
  keep (b - a) (skip a s).

(** [s.slice(1, -1)] *)
Definition slice_1_m1 (s : string) : string :=
  substring 1 (String.length s - 1) s.

(** [s.indexOf(t)]; [None] is [-1]. *)
Fixpoint indexOf (t s : string) : option nat :=
  if String.prefix t s then Some 0
  else match s with
       | String _ s' => S <$> indexOf t s'
       | EmptyString => None
       end.

(** [parts.join('')] *)
Definition join (parts : list string) : string :=
  fold_right String.append EmptyString parts.

(** [s.split('.')]: always at least one segment. *)
Fixpoint split_dot (s : string) : list string :=
  match s with
  | EmptyString => [EmptyString]
  | String c s' =>
      if Ascii.eqb c "." then EmptyString :: split_dot s'
      else match split_dot s' with
           | seg :: segs => String c seg :: segs
           | [] => [String c EmptyString]
           end
  end.

Definition mem_string (s : string) (l : list string) : bool :=
  existsb (String.eqb s) l.

(** The decimal form of a natural number. *)
Definition decimal (n : nat) : string := NilZero.string_of_uint (Nat.to_uint n).

End JsString.

(** ** The object-literal tokenizer (ported from Knockout) *)

Module ObjectLiteral.
Import JsString.

(** The characters of [specials] as they act inside a character
    class: comma, both quotes, braces, parentheses, slash, colon and
    brackets. *)
Definition is_special (c : ascii) : bool :=
  char_in c ",'{}()/:[]" || Ascii.eqb c dquote.

(** The body of [stringDouble], [stringSingle] and [stringRegexp] after
    the opening delimiter [q]: [(?:[^q\\]|\\.)*q]. Returns the matched
    text (closing delimiter included) and the text after it. *)
Fixpoint delimited (q : ascii) (s : string) : option (string * string) :=
  match s with
  | EmptyString => None
  | String c s' =>
      if Ascii.eqb c q then Some (String c EmptyString, s')
      else if code c =? 92 then
        match s' with
        | String d s'' =>
            if is_line_terminator d then None
            else match delimited q s'' with
                 | Some (m, r) => Some (String c (String d m), r)
                 | None => None
                 end
        | EmptyString => None
        end
      else match delimited q s' with
           | Some (m, r) => Some (String c m, r)
           | None => None
           end
  end.

(** The trailing [\w*] of [stringRegexp]: the pattern is written in a
    string literal as ['...\w*'], where the escape [\w] denotes the
    letter [w], so the compiled pattern ends in [w*]. *)
Fixpoint letters_w (s : string) : string * string :=
  match s with
  | String c s' =>
      if Ascii.eqb c "w" then let '(m, r) := letters_w s' in (String c m, r)
      else (EmptyString, s)
  | EmptyString => (EmptyString, EmptyString)
  end.

(** The maximal run [[^specials]*]. *)
Fixpoint plain_run (s : string) : string * string :=
  match s with
  | String c s' =>
      if is_special c then (EmptyString, s)
      else let '(m, r) := plain_run s' in (String c m, r)
  | EmptyString => (EmptyString, EmptyString)
  end.

(** [everyThingElse = [^\s:,/][^specials]*[^\s specials]]: after the
    greedy run the engine backs off to the last character of the run
    that is not white space. *)
Definition everyThingElse (s : string) : option (string * string) :=
  match s with
  | String c s' =>
      if is_space c || char_in c ":,/" then None
      else
        let '(run, _) := plain_run s' in
        match trim_right_aux run with
        | Some body => Some (String c body, skip (String.length body) s')
        | None => None
        end
  | EmptyString => None
  end.

(** One attempt of [bindingToken] at the start of [s]; the alternatives
    are tried in the order of the pattern. *)
Definition bindingToken_at (s : string) : option (string * string) :=
  let quoted (q : ascii) :=
    match s with
    | String c s' =>
        if Ascii.eqb c q then
          match delimited q s' with
          | Some (m, r) => Some (String c m, r)
          | None => None
          end
        else None
    | EmptyString => None
    end in
  match quoted dquote with
  | Some t => Some t
  | None =>
  match quoted "'"%char with
  | Some t => Some t
  | None =>
  match quoted "/"%char with
  | Some (m, r) => let '(ws, r') := letters_w r in Some (String.append m ws, r')
  | None =>
  match everyThingElse s with
  | Some t => Some t
  | None =>
  match s with
  | String c s' => if is_space c then None else Some (String c EmptyString, s')
  | EmptyString => None
  end end end end end.

(** [str.match(bindingToken)] with the [g] flag: all matches from left
    to right; the empty list stands for [null]. Every step consumes a
    character, so [String.length s] steps always suffice. *)
Fixpoint match_all (fuel : nat) (s : string) : list string :=
  match fuel with
  | O => []
  | S fuel' =>
      match s with
      | EmptyString => []
      | String _ s' =>
          match bindingToken_at s with
          | Some (tok, rest) => tok :: match_all fuel' rest
          | None => match_all fuel' s'
          end
      end
  end.

Definition str_match (s : string) : list string := match_all (String.length s) s.

(** The character class of [divisionLookBehind]: closing bracket and
    parenthesis, both quotes, letters, digits, underscore and dollar. *)
Definition lookbehind_char (c : ascii) : bool :=
  let n := code c in
  char_in c "])'_$" || Ascii.eqb c dquote
  || ((65 <=? n) && (n <=? 90)) || ((97 <=? n) && (n <=? 122))
  || ((48 <=? n) && (n <=? 57)).

(** The match of [divisionLookBehind] in [s]: the longest suffix made
    of look-behind characters, if it is not empty. *)
Fixpoint divisionLookBehind (s : string) : option string :=
  match s with
  | EmptyString => None
  | String c s' =>
      if forallb lookbehind_char (list_ascii_of_string s) then Some s
      else divisionLookBehind s'
  end.

(** Own keys of [keywordRegexLookBehind]. *)
Definition keywordRegexLookBehind : list string := ["in"; "return"; "typeof"].

(** The table is an ordinary object literal, so a lookup also finds
    the members it inherits from [Object.prototype], all of which are
    truthy. *)
Definition Object_prototype_members : list string :=
  ["constructor"; "hasOwnProperty"; "isPrototypeOf"; "propertyIsEnumerable";
   "toLocaleString"; "toString"; "valueOf"; "__proto__";
   "__defineGetter__"; "__defineSetter__"; "__lookupGetter__"; "__lookupSetter__"].

(** Truthiness of [keywordRegexLookBehind[m]]. *)
Definition keyword_lookup (m : string) : bool :=
  mem_string m keywordRegexLookBehind || mem_string m Object_prototype_members.

(** [IObjectLiteralToken] *)
Inductive IObjectLiteralToken :=
| KeyValue (key value : string)     (* { key: key, value: values.join('') } *)
| Unknown (unknown : string).       (* { 'unknown': key, value: undefined } *)

(** The loop variables [key], [values], [depth] and [result]. A [key]
    or [values] of [None] stands for the falsy [0]/[undefined]. *)
Record scan_state := ScanState {
  key : option string;
  values : option (list string);
  depth : Z;
  result : list IObjectLiteralToken
}.

Definition truthy_key (k : option string) : option string :=
  match k with
  | Some (String c s) => Some (String c s)
  | _ => None
  end.

(** [if (values) values.push(tok); else values = [tok];] *)
Definition push_value (tok : string) (st : scan_state) : scan_state :=
  ScanState (key st)
    (Some (match values st with Some vs => (vs ++ [tok])%list | None => [tok] end))
    (depth st) (result st).

(** What one turn of the loop body decides for the token [tok];
    [prev] is [toks[i - 1]] and is [None] when [i] is [0]. *)
Inductive turn :=
| Continue (st : scan_state)        (* [continue], or the end of the body *)
| Reparse (st : scan_state).        (* the slash was a division: re-lex the remainder *)

Definition is_Some_b {A} (o : option A) : bool :=
  match o with Some _ => true | None => false end.

(** [match && !keywordRegexLookBehind[match[0]]] for the look-behind
    match in the previous token. *)
Definition is_division (prev : option string) : bool :=
  match prev with
  | Some p =>
      match divisionLookBehind p with
      | Some m => negb (keyword_lookup m)
      | None => false
      end
  | None => false
  end.

Definition loop_body (prev : option string) (tok : string) (st : scan_state) : turn :=
  let c := charCodeAt0 tok in
  if is_code c 44 then                                   (* "," *)
    if (depth st <=? 0)%Z then
      Continue (ScanState None None 0
        (match truthy_key (key st) with
         | Some k =>
             (result st ++
              [match values st with
               | Some vs => KeyValue k (join vs)
               | None => Unknown k
               end])%list
         | None => result st
         end))
    else Continue (push_value tok st)
  else if is_code c 58 then                              (* ":" *)
    match values st with
    | None => Continue st
    | Some _ => Continue (push_value tok st)
    end
  else if is_code c 47 && is_Some_b prev
          && (1 <? String.length tok) then                       (* "/" *)
    if is_division prev then Reparse (push_value "/" st)
    else Continue (push_value tok st)
  else if is_code c 40 || is_code c 123 || is_code c 91 then
    Continue (push_value tok (ScanState (key st) (values st) (depth st + 1) (result st)))
  else if is_code c 41 || is_code c 125 || is_code c 93 then
    Continue (push_value tok (ScanState (key st) (values st) (depth st - 1) (result st)))
  else
    match truthy_key (key st), values st with
    | None, None =>
        Continue (ScanState
          (Some (if is_code c 34 || is_code c 39
                 then slice_1_m1 tok else tok))
          (values st) (depth st) (result st))
    | _, _ => Continue (push_value tok st)
    end.

(** What the function returns, or how it fails. *)
Inductive tokens_result :=
| Tokens (r : list IObjectLiteralToken)
| NullTokens          (* the TypeError of [toks.push(',')] on [null] *)
| Exhausted.          (* the budget of re-parses is spent *)

(** The [for] loop. The inner recursion walks [toks]; a re-parse
    restarts it on the tokens of a strictly shorter text, which the
    outer recursion counts. *)
Fixpoint scan (fuel : nat) (str : string)
    : list string -> option string -> scan_state -> tokens_result :=
  fix walk (toks : list string) (prev : option string) (st : scan_state) : tokens_result :=
    match toks with
    | [] => Tokens (result st)
    | tok :: rest =>
        match loop_body prev tok st with
        | Continue st' => walk rest (Some tok) st'
        | Reparse st' =>
            match fuel with
            | O => Exhausted
            | S fuel' =>
                let str' :=
                  skip (match indexOf tok str with Some i => i + 1 | None => 0 end) str in
                match str_match str' with
                | [] => NullTokens
                | toks' => scan fuel' str' (toks' ++ [","])%list None st'
                end
            end
        end
    end.

Definition parseObjectLiteral (objectLiteralString : string) : tokens_result :=
  let str := trim objectLiteralString in
  let str := if is_code (charCodeAt0 str) 123 then slice_1_m1 str else str in
  match str_match str with
  | [] => Tokens []
  | toks => scan (String.length str) str (toks ++ [","])%list None (ScanState None None 0 [])
  end.

End ObjectLiteral.

(** ** JavaScript numbers *)

Module JsNumber.
Import JsString.

Inductive number :=
| NaN
| Infinity (negative : bool)
| Fin (q : Q).

Definition fin (q : Q) : number := Fin (Qred q).
Definition of_Z (z : Z) : number := Fin (inject_Z z).
Definition of_nat (n : nat) : number := of_Z (Z.of_nat n).

Definition is_zero (q : Q) : bool := Qeq_bool q 0.
Definition is_negative (q : Q) : bool := (Qnum q <? 0)%Z.

Definition neg (a : number) : number :=
  match a with
  | NaN => NaN
  | Infinity s => Infinity (negb s)
  | Fin q => fin (- q)
  end.

Definition add (a b : number) : number :=
  match a, b with
  | NaN, _ | _, NaN => NaN
  | Infinity s, Infinity t => if Bool.eqb s t then Infinity s else NaN
  | Infinity s, Fin _ | Fin _, Infinity s => Infinity s
  | Fin p, Fin q => fin (p + q)
  end.

Definition sub (a b : number) : number := add a (neg b).

Definition mul (a b : number) : number :=
  match a, b with
  | NaN, _ | _, NaN => NaN
  | Infinity s, Infinity t => Infinity (xorb s t)
  | Infinity s, Fin q | Fin q, Infinity s =>
      if is_zero q then NaN else Infinity (xorb s (is_negative q))
  | Fin p, Fin q => fin (p * q)
  end.

Definition div (a b : number) : number :=
  match a, b with
  | NaN, _ | _, NaN => NaN
  | Infinity _, Infinity _ => NaN
  | Infinity s, Fin q => Infinity (xorb s (is_negative q))
  | Fin _, Infinity _ => of_Z 0
  | Fin p, Fin q =>
      if is_zero q then
        if is_zero p then NaN else Infinity (is_negative p)
      else fin (p / q)
  end.

(** Rounding towards zero. *)
Definition truncate (q : Q) : Z := Z.quot (Qnum q) (Zpos (Qden q)).

(** The remainder operator: the result has the sign of the dividend. *)
Definition rem (a b : number) : number :=
  match a, b with
  | NaN, _ | _, NaN => NaN
  | Infinity _, _ => NaN
  | Fin p, Infinity _ => Fin p
  | Fin p, Fin q =>
      if is_zero q then NaN
      else fin (p - q * inject_Z (truncate (p / q)))
  end.

(** [ToInt32] *)
Definition to_int32 (a : number) : Z :=
  match a with
  | Fin q =>
      let m := (truncate q mod 2 ^ 32)%Z in
      if (m <? 2 ^ 31)%Z then m else (m - 2 ^ 32)%Z
  | _ => 0%Z
  end.

Definition bit_xor (a b : number) : number := of_Z (Z.lxor (to_int32 a) (to_int32 b)).
Definition bit_and (a b : number) : number := of_Z (Z.land (to_int32 a) (to_int32 b)).

(** [a === b] on numbers: [NaN] differs from everything. *)
Definition equal (a b : number) : bool :=
  match a, b with
  | Infinity s, Infinity t => Bool.eqb s t
  | Fin p, Fin q => Qeq_bool p q
  | _, _ => false
  end.

(** [a < b] on numbers: false as soon as an operand is [NaN]. *)
Definition lt (a b : number) : bool :=
  match a, b with
  | NaN, _ | _, NaN => false
  | Infinity s, Infinity t => s && negb t
  | Infinity s, Fin _ => s
  | Fin _, Infinity t => negb t
  | Fin p, Fin q => negb (Qle_bool q p)
  end.

Definition le (a b : number) : bool :=
  match a, b with
  | NaN, _ | _, NaN => false
  | _, _ => negb (lt b a)
  end.

(** [ToBoolean] on numbers. *)
Definition truthy (a : number) : bool :=
  match a with
  | NaN => false
  | Infinity _ => true
  | Fin q => negb (is_zero q)
  end.

(** [ToString] on numbers, for the values whose decimal form does not
    depend on binary64: [NaN], the infinities and the integers below
    [10^21]. [None] for the others. *)
Definition to_string (a : number) : option string :=
  match a with
  | NaN => Some "NaN"
  | Infinity false => Some "Infinity"
  | Infinity true => Some "-Infinity"
  | Fin q =>
      let r := Qred q in
      if Pos.eqb (Qden r) 1 && (Z.abs (Qnum r) <? 10 ^ 21)%Z
      then Some (NilZero.string_of_int (Z.to_int (Qnum r)))
      else None
  end.

Definition is_digit (c : ascii) : bool := (48 <=? code c) && (code c <=? 57).

(** A run of decimal digits: its value, its length and the rest. *)
Fixpoint read_digits (s : string) (acc : Z) (count : nat) : Z * nat * string :=
  match s with
  | String c s' =>
      if is_digit c
      then read_digits s' (acc * 10 + Z.of_nat (code c - 48))%Z (S count)
      else (acc, count, s)
  | EmptyString => (acc, count, EmptyString)
  end.

Definition pow10 (n : nat) : Q := inject_Z (10 ^ Z.of_nat n).

(** [StrUnsignedDecimalLiteral] without [Infinity]: digits, an
    optional fraction, an optional exponent; nothing may follow. *)
Definition unsigned_decimal (s : string) : option Q :=
  let '(ip, ni, r1) := read_digits s 0%Z 0 in
  let '(fp, nf, r2) :=
    match r1 with
    | String "."%char r => read_digits r 0%Z 0
    | _ => (0%Z, 0, r1)
    end in
  if ni + nf =? 0 then None
  else
    let mantissa := (inject_Z ip + inject_Z fp / pow10 nf)%Q in
    match r2 with
    | EmptyString => Some mantissa
    | String e r3 =>
        if char_in e "eE" then
          let '(negative, r4) :=
            match r3 with
            | String "-"%char r => (true, r)
            | String "+"%char r => (false, r)
            | _ => (false, r3)
            end in
          let '(ex, ne, r5) := read_digits r4 0%Z 0 in
          if (ne =? 0) || negb (String.eqb r5 EmptyString) then None
          else Some (if negative then mantissa / pow10 (Z.to_nat ex)
                     else mantissa * pow10 (Z.to_nat ex))%Q
        else None
    end.

(** [ToNumber] on strings, for decimal literals and [Infinity]; the
    outer [None] marks the literals this model leaves out (hexadecimal,
    octal and binary). *)
Definition of_string (s : string) : option number :=
  let t := trim s in
  let '(negative, body) :=
    match t with
    | String "-"%char r => (true, r)
    | String "+"%char r => (false, r)
    | _ => (false, t)
    end in
  match t with
  | EmptyString => Some (of_Z 0)
  | String "0"%char (String x _) =>
      if char_in x "xXoObB" then None
      else Some (match unsigned_decimal t with Some q => fin q | None => NaN end)
  | _ =>
      if String.eqb body "Infinity" then Some (Infinity negative)
      else Some (match unsigned_decimal body with
                 | Some q => if negative then fin (- q) else fin q
                 | None => NaN
                 end)
  end.

End JsNumber.

(** ** JavaScript values, the object store and the evaluation monad *)

Module Js.
Import JsString JsNumber.

Definition loc := positive.

(** *** The built-in objects *)

(** The kinds of value that have a prototype of their own. *)
Inductive builtin := OfObject | OfFunction | OfArray | OfString | OfNumber | OfBoolean.

(** The built-in objects that a property read can reach from a value:
    the constructor of its kind ([Object], [Function], ...), the
    prototype of its kind ([Object.prototype], ...) and the methods of
    a prototype ([Object.prototype.toString], ...). They are not in
    the store. *)
Inductive native :=
| Constructor (b : builtin)
| Prototype (b : builtin)
| Method (b : builtin) (name : string).

Definition builtin_code (b : builtin) : nat :=
  match b with
  | OfObject => 0 | OfFunction => 1 | OfArray => 2
  | OfString => 3 | OfNumber => 4 | OfBoolean => 5
  end.

Definition native_eqb (a b : native) : bool :=
  match a, b with
  | Constructor x, Constructor y | Prototype x, Prototype y =>
      builtin_code x =? builtin_code y
  | Method x m, Method y n => (builtin_code x =? builtin_code y) && String.eqb m n
  | _, _ => false
  end.

(** The methods of the prototype of each kind, as ECMAScript 5.1
    defines them (for [Object.prototype] with the four legacy methods
    that every engine has). *)
Definition methods (b : builtin) : list string :=
  match b with
  | OfObject =>
      ["hasOwnProperty"; "isPrototypeOf"; "propertyIsEnumerable"; "toLocaleString";
       "toString"; "valueOf"; "__defineGetter__"; "__defineSetter__";
       "__lookupGetter__"; "__lookupSetter__"]
  | OfFunction => ["apply"; "bind"; "call"; "toString"]
  | OfArray =>
      ["concat"; "every"; "filter"; "forEach"; "indexOf"; "join"; "lastIndexOf"; "map";
       "pop"; "push"; "reduce"; "reduceRight"; "reverse"; "shift"; "slice"; "some";
       "sort"; "splice"; "toLocaleString"; "toString"; "unshift"]
  | OfString =>
      ["charAt"; "charCodeAt"; "concat"; "indexOf"; "lastIndexOf"; "localeCompare";
       "match"; "replace"; "search"; "slice"; "split"; "substr"; "substring";
       "toLocaleLowerCase"; "toLocaleUpperCase"; "toLowerCase"; "toString";
       "toUpperCase"; "trim"; "valueOf"]
  | OfNumber =>
      ["toExponential"; "toFixed"; "toLocaleString"; "toPrecision"; "toString"; "valueOf"]
  | OfBoolean => ["toString"; "valueOf"]
  end.

(** The names whose value the embedding does not determine: the
    properties that every function or array has with a value of its
    own, and the members that later editions of the language add to
    a prototype (or that only some engines have). *)
Definition undetermined (b : builtin) : list string :=
  match b with
  | OfObject | OfNumber | OfBoolean => []
  | OfFunction => ["arguments"; "caller"; "length"; "name"; "prototype"]
  | OfArray =>
      ["length"; "at"; "copyWithin"; "entries"; "fill"; "find"; "findIndex"; "findLast";
       "findLastIndex"; "flat"; "flatMap"; "includes"; "keys"; "toReversed"; "toSorted";
       "toSpliced"; "values"; "with"]
  | OfString =>
      ["anchor"; "at"; "big"; "blink"; "bold"; "codePointAt"; "endsWith"; "fixed";
       "fontcolor"; "fontsize"; "includes"; "isWellFormed"; "italics"; "link";
       "matchAll"; "normalize"; "padEnd"; "padStart"; "repeat"; "replaceAll"; "small";
       "startsWith"; "strike"; "sub"; "sup"; "toWellFormed"; "trimEnd"; "trimLeft";
       "trimRight"; "trimStart"]
  end.

Inductive value :=
| VUndefined
| VNull
| VBoolean (b : bool)
| VNumber (n : number)
| VString (s : string)
| VObject (l : loc)
| VNative (n : native).

(** What a value of kind [b] that does not own [k] reads under [k]:
    the member found along its prototype chain, [undefined] when
    there is none, [None] when the embedding does not determine it. *)
Definition inherited (b : builtin) (k : string) : option value :=
  if String.eqb k "constructor" then Some (VNative (Constructor b))
  else if String.eqb k "__proto__" then Some (VNative (Prototype b))
  else if mem_string k (undetermined b) then None
  else if mem_string k (methods b) then Some (VNative (Method b k))
  else if mem_string k (methods OfObject) then Some (VNative (Method OfObject k))
  else Some VUndefined.

(** *** The store *)

(** A store object: its own properties and, for a function supplied
    by the caller, the name under which the host knows it. Arrays are
    marked because writing to them also maintains [length]. The own
    properties are writable data properties, all enumerable. *)
Record object := Object {
  own : gmap string value;
  callable : option nat;
  is_array : bool
}.

Definition kind (o : object) : builtin :=
  if is_array o then OfArray
  else match callable o with Some _ => OfFunction | None => OfObject end.

(** The store, and the log of the calls made to host functions: the
    function object, [this] and the arguments. *)
Record state := State {
  heap : gmap loc object;
  calls : list (loc * value * list value)
}.

(** What the code throws. [$parseMinErr(module, message, ...)] throws
    [SyntaxError] with the message obtained from the template and the
    arguments; the embedding keeps template and arguments apart. *)
Inductive error :=
| SyntaxError (template : string) (args : list value)
| TypeError (message : string)
| Thrown (v : value).

(** The result of running code on a state of type [S]. [Unmodelled]
    marks behaviour of the host language that the embedding leaves
    out; [OutOfFuel] marks an exhausted recursion budget. *)
Inductive outcome (S A : Type) :=
| Ret (a : A) (st : S)
| Throw (e : error) (st : S)
| Unmodelled (why : string)
| OutOfFuel.
Arguments Ret {S A} a st.
Arguments Throw {S A} e st.
Arguments Unmodelled {S A} why.
Arguments OutOfFuel {S A}.

Definition ST (S A : Type) : Type := S -> outcome S A.

Definition ret {S A} (a : A) : ST S A := fun st => Ret a st.
Definition throw {S A} (e : error) : ST S A := fun st => Throw e st.
Definition unmodelled {S A} (why : string) : ST S A := fun _ => Unmodelled why.
Definition bind {S A B} (m : ST S A) (k : A -> ST S B) : ST S B :=
  fun st =>
    match m st with
    | Ret a st' => k a st'
    | Throw e st' => Throw e st'
    | Unmodelled why => Unmodelled why
    | OutOfFuel => OutOfFuel
    end.

(** Evaluation runs on the object store. *)
Definition M (A : Type) : Type := ST state A.

(** [typeof v] *)
Definition typeof (h : gmap loc object) (v : value) : string :=
  match v with
  | VUndefined => "undefined"
  | VNull => "object"
  | VBoolean _ => "boolean"
  | VNumber _ => "number"
  | VString _ => "string"
  | VObject l =>
      match h !! l with
      | Some (Object _ (Some _) _) => "function"
      | _ => "object"
      end
  | VNative (Prototype OfFunction) | VNative (Constructor _) | VNative (Method _ _) =>
      "function"
  | VNative (Prototype _) => "object"
  end.

(** [typeof v !== 'undefined'] *)
Definition isDefined (v : value) : bool :=
  match v with
  | VUndefined => false
  | _ => true
  end.

(** [ToBoolean] *)
Definition truthy (v : value) : bool :=
  match v with
  | VUndefined | VNull => false
  | VBoolean b => b
  | VNumber n => JsNumber.truthy n
  | VString s => negb (String.eqb s EmptyString)
  | VObject _ | VNative _ => true
  end.

(** [v == null] *)
Definition is_nullish (v : value) : bool :=
  match v with
  | VUndefined | VNull => true
  | _ => false
  end.

(** [a === b] *)
Definition strict_equal (a b : value) : bool :=
  match a, b with
  | VUndefined, VUndefined | VNull, VNull => true
  | VBoolean x, VBoolean y => Bool.eqb x y
  | VNumber x, VNumber y => JsNumber.equal x y
  | VString x, VString y => String.eqb x y
  | VObject x, VObject y => Pos.eqb x y
  | VNative x, VNative y => native_eqb x y
  | _, _ => false
  end.

(** The index that the key [k] denotes in a string of [n] characters. *)
Definition index_of_key (k : string) (n : nat) : option nat :=
  List.find (fun i => String.eqb (decimal i) k) (seq 0 n).

(** [v[k]] for a [v] that is neither [undefined] nor [null]: an own
    property, or what the value inherits. [None] when the embedding
    does not determine the answer: an [undetermined] name, a reference
    that is not in the store, a property of a built-in object. *)
Definition get (h : gmap loc object) (v : value) (k : string) : option value :=
  match v with
  | VObject l =>
      match h !! l with
      | Some o =>
          match own o !! k with
          | Some x => Some x
          | None => inherited (kind o) k
          end
      | None => None
      end
  | VString s =>
      if String.eqb k "length" then Some (VNumber (of_nat (String.length s)))
      else match index_of_key k (String.length s) with
           | Some i => Some (VString (substring i (i + 1) s))
           | None => inherited OfString k
           end
  | VNumber _ => inherited OfNumber k
  | VBoolean _ => inherited OfBoolean k
  | VUndefined | VNull | VNative _ => None
  end.

(** [v[k]] *)
Definition get_member (v : value) (k : string) : M value :=
  fun st =>
    if is_nullish v
    then Throw (TypeError (String.append "Cannot read property " k)) st
    else match get (heap st) v k with
         | Some x => Ret x st
         | None => Unmodelled "property that the embedding does not determine"
         end.

(** Whether the store object [v] has [k] among its own properties. *)
Definition hasOwnProperty (h : gmap loc object) (v : value) (k : string) : bool :=
  match v with
  | VObject l =>
      match h !! l with
      | Some o => bool_decide (is_Some (own o !! k))
      | None => false
      end
  | _ => false
  end.

(** [Object.prototype.hasOwnProperty.call(v, k)] for a [v] that is
    neither [undefined] nor [null]; [None] when the embedding does
    not determine the answer. *)
Definition own_property (h : gmap loc object) (v : value) (k : string) : option bool :=
  match v with
  | VObject l =>
      match h !! l with
      | Some o =>
          if bool_decide (is_Some (own o !! k)) then Some true
          else if mem_string k (undetermined (kind o)) then None
          else Some false
      | None => None
      end
  | VString s =>
      Some (String.eqb k "length"
            || match index_of_key k (String.length s) with Some _ => true | None => false end)
  | VNumber _ | VBoolean _ => Some false
  | VUndefined | VNull | VNative _ => None
  end.

(** [v[k] = x] in strict code. A value that is not an object cannot
    take a property. On an object the property is stored, unless the
    object inherits an accessor or a read-only property under [k]:
    the accessor [__proto__] of [Object.prototype] replaces the
    prototype when [x] is an object or [null] (which the embedding
    leaves out) and ignores any other [x]. *)
Definition set_member (v : value) (k : string) (x : value) : M unit :=
  fun st =>
    match v with
    | VObject l =>
        match heap st !! l with
        | Some o =>
            if is_array o then Unmodelled "write to an array"
            else if mem_string k (undetermined (kind o))
            then Unmodelled "write to a property that every function has"
            else if String.eqb k "__proto__" && negb (bool_decide (is_Some (own o !! k))) then
              match x with
              | VObject _ | VNull | VNative _ => Unmodelled "change of a prototype"
              | _ => Ret tt st
              end
            else Ret tt (State (<[l := Object (<[k := x]> (own o)) (callable o) (is_array o)]> (heap st))
                               (calls st))
        | None => Unmodelled "dangling reference"
        end
    | VNative _ => Unmodelled "write to a built-in object"
    | VUndefined | VNull => Throw (TypeError (String.append "Cannot set property " k)) st
    | VBoolean _ | VNumber _ | VString _ =>
        if String.eqb k "__proto__" then Unmodelled "change of a prototype"
        else Throw (TypeError (String.append "Cannot create property " k)) st
    end.

(** A new object with the given own properties. *)
Definition alloc (props : gmap string value) (array : bool) : M value :=
  fun st =>
    let l := fresh (dom (heap st)) in
    Ret (VObject l) (State (<[l := Object props None array]> (heap st)) (calls st)).

(** [Object.keys(v)] *)
Definition own_keys (v : value) : M (list string) :=
  fun st =>
    match v with
    | VUndefined | VNull => Throw (TypeError "Cannot convert undefined or null to object") st
    | VObject l =>
        match heap st !! l with
        | Some o =>
            if is_array o then Unmodelled "Object.keys of an array"
            else Ret (map_to_list (own o)).*1 st
        | None => Unmodelled "dangling reference"
        end
    | VNative _ => Unmodelled "Object.keys of a built-in object"
    | _ => Unmodelled "Object.keys of a primitive value"
    end.

(** [ToString] of a primitive value (property keys, concatenation). *)
Definition to_string (v : value) : option string :=
  match v with
  | VUndefined => Some "undefined"
  | VNull => Some "null"
  | VBoolean true => Some "true"
  | VBoolean false => Some "false"
  | VNumber n => JsNumber.to_string n
  | VString s => Some s
  | VObject _ | VNative _ => None
  end.

(** [ToNumber] of a primitive value. *)
Definition to_number (v : value) : option number :=
  match v with
  | VUndefined => Some NaN
  | VNull => Some (of_Z 0)
  | VBoolean true => Some (of_Z 1)
  | VBoolean false => Some (of_Z 0)
  | VNumber n => Some n
  | VString s => JsNumber.of_string s
  | VObject _ | VNative _ => None
  end.

(** [a + b] *)
Definition js_add (a b : value) : M value :=
  match a, b with
  | VObject _, _ | _, VObject _ | VNative _, _ | _, VNative _ =>
      unmodelled "addition of an object"
  | VString _, _ | _, VString _ =>
      match to_string a, to_string b with
      | Some x, Some y => ret (VString (String.append x y))
      | _, _ => unmodelled "decimal form of a number"
      end
  | _, _ =>
      match to_number a, to_number b with
      | Some x, Some y => ret (VNumber (JsNumber.add x y))
      | _, _ => unmodelled "numeric value of an operand"
      end
  end.

(** [a - b], [a * b], [a / b], [a % b], [a ^ b], [a & b] *)
Definition js_arith (f : number -> number -> number) (a b : value) : M value :=
  match to_number a, to_number b with
  | Some x, Some y => ret (VNumber (f x y))
  | _, _ => unmodelled "numeric value of an operand"
  end.

(** [a < b]: strings are compared by code units, everything else as
    numbers. *)
Definition js_less (a b : value) : M bool :=
  match a, b with
  | VString x, VString y => ret (String.ltb x y)
  | _, _ =>
      match to_number a, to_number b with
      | Some x, Some y => ret (JsNumber.lt x y)
      | _, _ => unmodelled "numeric value of an operand"
      end
  end.

(** [a <= b] *)
Definition js_less_equal (a b : value) : M bool :=
  match a, b with
  | VString x, VString y => ret (negb (String.ltb y x))
  | _, _ =>
      match to_number a, to_number b with
      | Some x, Some y => ret (JsNumber.le x y)
      | _, _ => unmodelled "numeric value of an operand"
      end
  end.

End Js.

Notation "'let*' x ':=' m 'in' k" := (Js.bind m (fun x => k))
(at level 10, x name, m at level 100, k at level 200).
Notation "'let*' ' p ':=' m 'in' k" := (Js.bind m (fun x => match x with p => k end))
(at level 10, p strict pattern, m at level 100, k at level 200).
Notation "'run' m 'in' k" := (Js.bind m (fun _ => k))
(at level 10, m at level 100, k at level 200).

(** ** The expression compiler (ported from Angular) *)

Module Compiler.
Import JsString JsNumber Js.

Definition hookField : string := "___runtimeHooks".

(** The functions stored in the [OPERATORS] table. *)
Inductive operator :=
| OpNull | OpTrue | OpFalse | OpUndefined
| OpAdd | OpSub | OpMul | OpDiv | OpMod | OpXor | OpAssign
| OpStrictEq | OpStrictNe | OpEq | OpNe
| OpLt | OpGt | OpLe | OpGe
| OpAnd | OpOr | OpBitAnd | OpPipe | OpNot.

(** The own keys of [OPERATORS]. *)
Definition OPERATORS_table : list (string * operator) :=
  [("null", OpNull); ("true", OpTrue); ("false", OpFalse); ("undefined", OpUndefined);
   ("+", OpAdd); ("-", OpSub); ("*", OpMul); ("/", OpDiv); ("%", OpMod); ("^", OpXor);
   ("=", OpAssign); ("===", OpStrictEq); ("!==", OpStrictNe); ("==", OpEq); ("!=", OpNe);
   ("<", OpLt); (">", OpGt); ("<=", OpLe); (">=", OpGe);
   ("&&", OpAnd); ("||", OpOr); ("&", OpBitAnd); ("|", OpPipe); ("!", OpNot)].

Fixpoint assoc {A} (k : string) (l : list (string * A)) : option A :=
  match l with
  | [] => None
  | (k', a) :: l' => if String.eqb k k' then Some a else assoc k l'
  end.

Definition OPERATORS (text : string) : option operator := assoc text OPERATORS_table.

(** The closures the compiler builds, one constructor for every place
    of the source that creates a function, carrying the variables the
    function closes over. *)
#[local] Unset Elimination Schemes.
Inductive closure :=
| Operator (op : operator)                                   (* an entry of OPERATORS *)
| NumberLiteral (n : number)                                 (* readNumber: fn() { return n; } *)
| StringLiteral (value : string)                             (* readString: fn() { return value; } *)
| Zero                                                       (* ZERO *)
| SimpleGetter1 (key0 : string)                              (* simpleGetterFn1 *)
| SimpleGetter2 (key0 key1 : string)                         (* simpleGetterFn2 *)
| CspSafeGetter (key0 key1 key2 key3 key4 : option string)   (* cspSafeGetterFn *)
| ChunkedGetter (pathKeys : list string) (fullExp : string)  (* getterFn, six keys or more *)
| Identifier (getter : closure) (ident text : string)        (* readIdent: getter with assign *)
| UnaryFn (fn : option closure) (right : closure)
| TernaryFn (left middle right : closure)
| BinaryFn (left : closure) (fn : option closure) (right : closure)
| Statements (statements : list closure)
| Filter (fn : value) (argsFn : list closure)                (* filter: () => fnInvoke *)
| Assignment (left right : closure)
| FieldAccess (object : closure) (field : value) (getter : closure) (text : string)
| ObjectIndex (obj indexFn : closure) (text : string)
| FunctionCall (fn : closure) (contextGetter : option closure)
               (argsFn : list closure) (text : string)
| ArrayDeclaration (elementFns : list closure)
| ObjectDeclaration (keyValues : list (value * closure)).
#[local] Set Elimination Schemes.

(** *** Sandbox guard *)

(** [$parseMinErr]: the [module] code does not reach the error that
    is thrown. *)
Definition parseMinErr (module template : string) (args : list value) : error :=
  SyntaxError template args.

Definition quoted (s : string) : string :=
  String dquote (String.append s (String dquote EmptyString)).

Definition isecfld_message : string :=
  String.append "Referencing "
    (String.append (quoted "constructor")
       " field in WebRx expressions is disallowed! Expression: {0}").
Definition isecfn_message : string :=
  "Referencing Function in WebRx expressions is disallowed! Expression: {0}".
Definition isecwindow_message : string :=
  "Referencing the Window in WebRx expressions is disallowed! Expression: {0}".
Definition isecdom_message : string :=
  "Referencing DOM nodes in WebRx expressions is disallowed! Expression: {0}".

(** [ensureSafeMemberName]: [Some e] when it throws [e]. A [name] of
    [None] is [undefined]. *)
Definition ensureSafeMemberName (name : option string) (fullExp : string) : option error :=
  match name with
  | Some n =>
      if String.eqb n "constructor"
      then Some (parseMinErr "isecfld" isecfld_message [VString fullExp])
      else None
  | None => None
  end.

(** [obj.k1 && obj.k2 && ...] as a condition, for a truthy [obj]. *)
Fixpoint all_fields (obj : value) (keys : list string) : M bool :=
  match keys with
  | [] => ret true
  | k :: rest =>
      let* v := get_member obj k in
      if truthy v then all_fields obj rest else ret false
  end.

Definition ensureSafeObject (obj : value) (fullExp : string) : M value :=
  if truthy obj then
    let* c := get_member obj "constructor" in
    if strict_equal c obj then
      throw (parseMinErr "isecfn" isecfn_message [VString fullExp])
    else
      let* window := all_fields obj ["document"; "location"; "alert"; "setInterval"] in
      if window then
        throw (parseMinErr "isecwindow" isecwindow_message [VString fullExp])
      else
        let* children := all_fields obj ["children"] in
        let* element :=
          if children then
            let* nodeName := all_fields obj ["nodeName"] in
            if nodeName then ret true else all_fields obj ["prop"; "attr"; "find"]
          else ret false in
        if element then
          throw (parseMinErr "isecdom" isecdom_message [VString fullExp])
        else ret obj
  else ret obj.

(** *** Path getters *)

(** A key that may be [undefined] ([pathKeys[i]] past the end). *)
Definition key_name (k : option string) : string := default "undefined" k.
Definition key_value (k : option string) : value :=
  match k with Some s => VString s | None => VUndefined end.
Definition key_truthy (k : option string) : bool :=
  match k with Some (String _ _) => true | _ => false end.

(** [cspSafeGetterFn]: the checks made before the closure is built. *)
Definition cspSafeGetterFn (key0 key1 key2 key3 key4 : option string) (fullExp : string)
    : error + closure :=
  match ensureSafeMemberName key0 fullExp with Some e => inl e | None =>
  match ensureSafeMemberName key1 fullExp with Some e => inl e | None =>
  match ensureSafeMemberName key2 fullExp with Some e => inl e | None =>
  match ensureSafeMemberName key3 fullExp with Some e => inl e | None =>
  match ensureSafeMemberName key4 fullExp with Some e => inl e | None =>
  inr (CspSafeGetter key0 key1 key2 key3 key4)
  end end end end end.

Definition simpleGetterFn1 (key0 fullExp : string) : error + closure :=
  match ensureSafeMemberName (Some key0) fullExp with Some e => inl e | None =>
  inr (SimpleGetter1 key0)
  end.

Definition simpleGetterFn2 (key0 key1 fullExp : string) : error + closure :=
  match ensureSafeMemberName (Some key0) fullExp with Some e => inl e | None =>
  match ensureSafeMemberName (Some key1) fullExp with Some e => inl e | None =>
  inr (SimpleGetter2 key0 key1)
  end end.

(** The closure [getterFn] builds for [path] when the cache has none. *)
Definition compile_getter (path fullExp : string) : error + closure :=
  let pathKeys := split_dot path in
  match pathKeys with
  | [key0] => simpleGetterFn1 key0 fullExp
  | [key0; key1] => simpleGetterFn2 key0 key1 fullExp
  | _ =>
      if length pathKeys <? 6 then
        cspSafeGetterFn (pathKeys !! 0) (pathKeys !! 1) (pathKeys !! 2)
                        (pathKeys !! 3) (pathKeys !! 4) fullExp
      else inr (ChunkedGetter pathKeys fullExp)
  end.

(** The process-wide [getterFnCache], an object literal [{}]: its own
    entries, and the function that has become its prototype in the
    place of [Object.prototype], if any. *)
Record getter_cache := GetterCache {
  entries : gmap string closure;
  prototype : option closure
}.

#[global] Instance getter_cache_empty : Empty getter_cache := GetterCache ∅ None.

(** [getterFnCache[path] = fn] for a [path] that the cache does not
    own. Under [__proto__] the assignment reaches the accessor of
    [Object.prototype]: [fn] becomes the prototype of the cache and
    no entry is made. Once a function is the prototype, the cache
    inherits the properties that every function has: [length] is
    read-only, so that the assignment throws; the others are left
    out. *)
Definition store_getter (path : string) (fn : closure) : ST getter_cache unit :=
  fun getterFnCache =>
    if String.eqb path "__proto__" then
      Ret tt (GetterCache (entries getterFnCache) (Some fn))
    else
      match prototype getterFnCache with
      | Some _ =>
          if String.eqb path "length" then
            Throw (TypeError "Cannot assign to read only property 'length'") getterFnCache
          else if mem_string path (undetermined OfFunction) then
            Unmodelled "write to a property that every function has"
          else Ret tt (GetterCache (<[path := fn]> (entries getterFnCache))
                                   (prototype getterFnCache))
      | None =>
          Ret tt (GetterCache (<[path := fn]> (entries getterFnCache))
                              (prototype getterFnCache))
      end.

(** [getterFn(path, options, fullExp)] on the process-wide
    [getterFnCache]; [options] is not used. The [path] is whatever
    the [text] of a token is: a string, a number or [undefined].
    [getterFnCache.hasOwnProperty] is the built-in method as long as
    the cache has no entry of this name. *)
Definition getterFn (path : value) (fullExp : string) : ST getter_cache closure :=
  fun getterFnCache =>
    match to_string path with
    | None => Unmodelled "decimal form of a number"
    | Some key =>
        match entries getterFnCache !! "hasOwnProperty" with
        | Some _ => Unmodelled "hasOwnProperty supplied by the cache"
        | None =>
            match entries getterFnCache !! key with
            | Some fn => Ret fn getterFnCache
            | None =>
                match path with
                | VString p =>
                    match compile_getter p fullExp with
                    | inl e => Throw e getterFnCache
                    | inr fn =>
                        if String.eqb p "hasOwnProperty" then Ret fn getterFnCache
                        else (run store_getter p fn in ret fn) getterFnCache
                    end
                | _ => Throw (TypeError "path.split is not a function") getterFnCache
                end
            end
        end
    end.

(** *** Evaluation *)

Section Evaluation.

  (** The behaviour of the functions supplied by the caller: the
      function known to the host as [name], called with [this] and
      the arguments. *)
Variable host : nat -> value -> list value -> M value.

(** [f.call(this, ...args)]; the call is logged. *)
Definition call_function (f this : value) (args : list value) : M value :=
  fun st =>
    match f with
    | VObject l =>
        match heap st !! l with
        | Some (Object _ (Some name) _) =>
            host name this args (State (heap st) (calls st ++ [(l, this, args)]))
        | Some _ => Throw (TypeError "is not a function") st
        | None => Unmodelled "dangling reference"
        end
    | VNative _ => Unmodelled "call of a built-in function"
    | _ => Throw (TypeError "is not a function") st
    end.

(** [obj.name(...args)] *)
Definition call_method (obj : value) (name : string) (args : list value) : M value :=
  let* f := get_member obj name in
  call_function f obj args.

(** [getRuntimeHooks] *)
Definition getRuntimeHooks (locals : value) : M value :=
  match locals with
  | VUndefined => ret VUndefined
  | _ => get_member locals hookField
  end.

(** [setRuntimeHooks] *)
Definition setRuntimeHooks (locals hooks : value) : M unit :=
  set_member locals hookField hooks.

(** [hooks && hooks.name] as a condition. *)
Definition has_hook (hooks : value) (name : string) : M bool :=
  if truthy hooks then
    let* f := get_member hooks name in
    ret (truthy f)
  else ret false.

(** [v.hasOwnProperty(k)] as a condition, for a truthy [v]: a
    method call, which reaches the built-in method unless [v]
    supplies a [hasOwnProperty] of its own. *)
Definition owns (v : value) (k : string) : M bool :=
  let* f := get_member v "hasOwnProperty" in
  if strict_equal f (VNative (Method OfObject "hasOwnProperty")) then
    fun st =>
      match own_property (heap st) v k with
      | Some b => Ret b st
      | None => Unmodelled "property that the embedding does not determine"
      end
  else
    let* r := call_function f v [VString k] in
    ret (truthy r).

(** [(locals && locals.hasOwnProperty(key0)) ? locals : scope] *)
Definition path_root (key0 : string) (scope locals : value) : M value :=
  if truthy locals then
    let* shadowed := owns locals key0 in
    ret (if shadowed then locals else scope)
  else ret scope.

(** [hooks.readFieldHook(obj, key)] or [obj[key]]. *)
Definition read_field (hooked : bool) (hooks obj : value) (key : option string) : M value :=
  if hooked then call_method hooks "readFieldHook" [obj; key_value key]
  else get_member obj (key_name key).

(** The closure of [simpleGetterFn1]. *)
Definition simple_getter1 (key0 : string) (scope locals : value) : M value :=
  let* scope := path_root key0 scope locals in
  if is_nullish scope then ret VUndefined
  else
    let* hooks := getRuntimeHooks locals in
    let* hooked := has_hook hooks "readFieldHook" in
    read_field hooked hooks scope (Some key0).

(** The closure of [simpleGetterFn2]. *)
Definition simple_getter2 (key0 key1 : string) (scope locals : value) : M value :=
  let* hooks := getRuntimeHooks locals in
  let* hooked := has_hook hooks "readFieldHook" in
  let* scope := path_root key0 scope locals in
  if hooked then
    if is_nullish scope then ret VUndefined
    else
      let* scope := read_field true hooks scope (Some key0) in
      if is_nullish scope then ret VUndefined
      else read_field true hooks scope (Some key1)
  else
    let* scope := get_member scope key0 in
    if is_nullish scope then ret VUndefined
    else get_member scope key1.

(** The steps of [cspSafeGetterFn]'s closure after the first key:
    [if (!key) return pathVal; if (pathVal == null) return undefined;
    pathVal = read(pathVal, key);] for each of the remaining keys. *)
Fixpoint csp_steps (hooked : bool) (hooks : value) (keys : list (option string))
    (pathVal : value) : M value :=
  match keys with
  | [] => ret pathVal
  | key :: rest =>
      if negb (key_truthy key) then ret pathVal
      else if is_nullish pathVal then ret VUndefined
      else
        let* v := read_field hooked hooks pathVal key in
        csp_steps hooked hooks rest v
  end.

(** The closure of [cspSafeGetterFn]. *)
Definition csp_getter (key0 key1 key2 key3 key4 : option string) (scope locals : value)
    : M value :=
  let* pathVal := path_root (key_name key0) scope locals in
  let* hooks := getRuntimeHooks locals in
  let* hooked := has_hook hooks "readFieldHook" in
  if is_nullish pathVal then ret pathVal
  else
    let* v := read_field hooked hooks pathVal key0 in
    csp_steps hooked hooks [key1; key2; key3; key4] v.

(** The properties that [keys.forEach(x => o[x] = src[x])] gives to
    a new object [o]; [None] when a key is [__proto__], which the
    assignment does not store, or when a read is not determined. *)
Fixpoint copied (h : gmap loc object) (src : value) (keys : list string)
    (o : gmap string value) : option (gmap string value) :=
  match keys with
  | [] => Some o
  | x :: rest =>
      if String.eqb x "__proto__" then None
      else match get h src x with
           | Some v => copied h src rest (<[x := v]> o)
           | None => None
           end
  end.

(** [var o = {}; Object.keys(src).forEach(x => o[x] = src[x]);] *)
Definition snapshot (src : value) : M value :=
  let* keys := own_keys src in
  fun st =>
    match copied (heap st) src keys ∅ with
    | Some props => alloc props false st
    | None => Unmodelled "copy of a property that the embedding does not determine"
    end.

(** The [do ... while (i < pathKeysLength)] loop of the getter for
    six keys or more; [i] grows by five in every turn. *)
Fixpoint chunk_loop (fuel : nat) (pathKeys : list string) (fullExp : string)
    (_locals : value) (i : nat) (scope locals : value) : M value :=
  match fuel with
  | O => fun _ => OutOfFuel
  | S fuel' =>
      match cspSafeGetterFn (pathKeys !! i) (pathKeys !! (i + 1)) (pathKeys !! (i + 2))
                            (pathKeys !! (i + 3)) (pathKeys !! (i + 4)) fullExp with
      | inl e => throw e
      | inr _ =>
          let* val := csp_getter (pathKeys !! i) (pathKeys !! (i + 1)) (pathKeys !! (i + 2))
                                 (pathKeys !! (i + 3)) (pathKeys !! (i + 4)) scope locals in
          let* locals' := snapshot _locals in
          if i + 5 <? length pathKeys
          then chunk_loop fuel' pathKeys fullExp _locals (i + 5) val locals'
          else ret val
      end
  end.

(** The closure [getterFn] builds for six keys or more. *)
Definition chunked_getter (pathKeys : list string) (fullExp : string)
    (scope locals : value) : M value :=
  let* _locals := snapshot locals in
  chunk_loop (length pathKeys) pathKeys fullExp _locals 0 scope locals.

(** *** The setter *)

(** The loop of [setter] over all keys but the last; returns the
    object reached and the last key. *)
Fixpoint setter_walk (hooks : value) (element : list string) (obj : value)
    (fullExp : string) : M (value * option string) :=
  match element with
  | [] => ret (obj, None)
  | [key] => ret (obj, Some key)
  | key :: rest =>
      match ensureSafeMemberName (Some key) fullExp with
      | Some e => throw e
      | None =>
          let* reads := has_hook hooks "readFieldHook" in
          let* propertyObj := read_field reads hooks obj (Some key) in
          let* propertyObj :=
            if truthy propertyObj then ret propertyObj
            else
              let* fresh_obj := alloc ∅ false in
              let* writes := has_hook hooks "writeFieldHook" in
              run (if writes
                   then run call_method hooks "writeFieldHook" [obj; VString key; fresh_obj]
                        in ret tt
                   else set_member obj key fresh_obj)
              in ret fresh_obj in
          setter_walk hooks rest propertyObj fullExp
      end
  end.

(** [setter(obj, path, setValue, fullExp, options, locals)];
    [options] is not used. *)
Definition setter (obj path setValue : value) (fullExp : string) (locals : value) : M value :=
  match path with
  | VString p =>
      let* hooks := getRuntimeHooks locals in
      let* '(obj, key) := setter_walk hooks (split_dot p) obj fullExp in
      match ensureSafeMemberName key fullExp with
      | Some e => throw e
      | None =>
          let* writes := has_hook hooks "writeFieldHook" in
          run (if writes
               then run call_method hooks "writeFieldHook" [obj; key_value key; setValue]
                    in ret tt
               else set_member obj (key_name key) setValue)
          in ret setValue
      end
  | _ => throw (TypeError "path.split is not a function")
  end.

(** *** Operators and compiled expressions *)

(** An argument passed to a compiled function beyond [self] and
    [locals]: a value, or another compiled function, given by what
    calling it with [(self, locals)] does. *)
Inductive earg :=
| EValue (v : value)
| EFunction (f : value -> value -> M value).

(** [a(self, locals)] for an argument [a] that may be missing. *)
Definition invoke (a : option earg) (self locals : value) : M value :=
  match a with
  | Some (EFunction f) => f self locals
  | Some (EValue v) => call_function v VUndefined [self; locals]
  | None => throw (TypeError "undefined is not a function")
  end.

Definition boolean (m : M bool) : M value :=
  let* b := m in ret (VBoolean b).

(** The functions of the [OPERATORS] table, called as
    [fn(self, locals, a, b)]. *)
Definition operator_fn (op : operator) (self locals : value) (args : list earg) : M value :=
  let a := args !! 0 in
  let b := args !! 1 in
  let both (k : value -> value -> M value) : M value :=
    let* x := invoke a self locals in
    let* y := invoke b self locals in
    k x y in
  match op with
  | OpNull => ret VNull
  | OpTrue => ret (VBoolean true)
  | OpFalse => ret (VBoolean false)
  | OpUndefined | OpAssign => ret VUndefined
  | OpAdd =>
      both (fun a b =>
        if isDefined a then
          if isDefined b then js_add a b else ret a
        else ret (if isDefined b then b else VUndefined))
  | OpSub =>
      both (fun a b =>
        js_arith JsNumber.sub (if isDefined a then a else VNumber (of_Z 0))
                              (if isDefined b then b else VNumber (of_Z 0)))
  | OpMul => both (js_arith JsNumber.mul)
  | OpDiv => both (js_arith JsNumber.div)
  | OpMod => both (js_arith JsNumber.rem)
  | OpXor => both (js_arith JsNumber.bit_xor)
  | OpStrictEq => both (fun a b => ret (VBoolean (strict_equal a b)))
  | OpStrictNe => both (fun a b => ret (VBoolean (negb (strict_equal a b))))
  | OpEq => both (fun a b => ret (VBoolean (strict_equal a b)))
  | OpNe => both (fun a b => ret (VBoolean (negb (strict_equal a b))))
  | OpLt => both (fun a b => boolean (js_less a b))
  | OpGt => both (fun a b => boolean (js_less b a))
  | OpLe => both (fun a b => boolean (js_less_equal a b))
  | OpGe => both (fun a b => boolean (js_less_equal b a))
  | OpAnd =>
      let* x := invoke a self locals in
      if truthy x then invoke b self locals else ret x
  | OpOr =>
      let* x := invoke a self locals in
      if truthy x then ret x else invoke b self locals
  | OpBitAnd => both (js_arith JsNumber.bit_and)
  | OpPipe =>
      let* f := invoke b self locals in
      let* x := invoke a self locals in
      call_function f VUndefined [self; locals; x]
  | OpNot =>
      let* x := invoke a self locals in
      ret (VBoolean (negb (truthy x)))
  end.

(** [fnPtr.apply ? fnPtr.apply(context, args)
                 : fnPtr(args[0], args[1], args[2], args[3], args[4])];
    a function object is called through [Function.prototype.apply]. *)
Definition apply_function (fnPtr context : value) (args : list value) : M value :=
  let* apply := get_member fnPtr "apply" in
  if strict_equal apply (VNative (Method OfFunction "apply")) then
    call_function fnPtr context args
  else if truthy apply then unmodelled "apply supplied by the object"
  else call_function fnPtr VUndefined (take 5 (args ++ replicate 5 VUndefined)).

(** The own properties of the array [[v0, v1, ...]]. *)
Definition array_props (vs : list value) : gmap string value :=
  <["length" := VNumber (of_nat (length vs))]>
    (list_to_map (imap (fun i v => (decimal i, v)) vs)).

(** [c(self, locals, ...extra)] for a compiled function [c], and
    [c.assign(self, value, locals)]. *)
Fixpoint call (c : closure) (self locals : value) (extra : list earg) {struct c} : M value :=
  let all :=
    fix all (cs : list closure) : M (list value) :=
      match cs with
      | [] => ret []
      | c :: cs' =>
          let* v := call c self locals [] in
          let* vs := all cs' in
          ret (v :: vs)
      end in
  match c with
  | Operator op => operator_fn op self locals extra
  | NumberLiteral n => ret (VNumber n)
  | StringLiteral s => ret (VString s)
  | Zero => ret (VNumber (of_Z 0))
  | SimpleGetter1 key0 => simple_getter1 key0 self locals
  | SimpleGetter2 key0 key1 => simple_getter2 key0 key1 self locals
  | CspSafeGetter key0 key1 key2 key3 key4 => csp_getter key0 key1 key2 key3 key4 self locals
  | ChunkedGetter pathKeys fullExp => chunked_getter pathKeys fullExp self locals
  | Identifier getter _ _ => call getter self locals []
  | UnaryFn (Some fn) rhs =>
      call fn self locals [EFunction (fun s l => call rhs s l [])]
  | UnaryFn None _ | BinaryFn _ None _ =>
      throw (TypeError "undefined is not a function")
  | TernaryFn lhs middle rhs =>
      let* test := call lhs self locals [] in
      if truthy test then call middle self locals [] else call rhs self locals []
  | BinaryFn lhs (Some fn) rhs =>
      match fn, rhs with
      | Operator OpPipe, Filter f argsFn =>
          (* b(self, locals) is fnInvoke; fnInvoke(self, locals, a(self, locals)) *)
          let* input := call lhs self locals [] in
          let* args := all argsFn in
          call_function f self (input :: args)
      | _, _ =>
          call fn self locals [EFunction (fun s l => call lhs s l []);
                               EFunction (fun s l => call rhs s l [])]
      end
  | Statements statements =>
      (fix each (cs : list closure) (last : value) : M value :=
         match cs with
         | [] => ret last
         | c :: cs' =>
             let* v := call c self locals [] in
             each cs' v
         end) statements VUndefined
  | Filter _ _ => unmodelled "a filter evaluates to a function"
  | Assignment lhs rhs =>
      let* v := call rhs self locals [] in
      assign lhs self v locals
  | FieldAccess object _ getter _ =>
      let* target :=
        match extra with
        | EValue v :: _ => if truthy v then ret v else call object self locals []
        | EFunction _ :: _ => unmodelled "a function as the receiver"
        | [] => call object self locals []
        end in
      call getter target VUndefined []
  | ObjectIndex obj indexFn text =>
      let* o := call obj self locals [] in
      let* i := call indexFn self locals [] in
      if negb (truthy o) then ret VUndefined
      else
        let* hooks := getRuntimeHooks locals in
        let* hooked := has_hook hooks "readIndexHook" in
        let* v :=
          if hooked then call_method hooks "readIndexHook" [o; i]
          else match to_string i with
               | Some k => get_member o k
               | None => unmodelled "property key"
               end in
        ensureSafeObject v text
  | FunctionCall fn contextGetter argsFn text =>
      let* context :=
        match contextGetter with
        | Some g => call g self locals []
        | None => ret self
        end in
      let* args := all argsFn in
      let* fnPtr := call fn self locals [EValue context] in
      run ensureSafeObject context text in
      if truthy fnPtr then
        run ensureSafeObject fnPtr text in
        let* v := apply_function fnPtr context args in
        ensureSafeObject v text
      else ret VUndefined
  | ArrayDeclaration elementFns =>
      let* vs := all elementFns in
      alloc (array_props vs) true
  | ObjectDeclaration keyValues =>
      let* object := alloc ∅ false in
      (fix each (kvs : list (value * closure)) : M value :=
         match kvs with
         | [] => ret object
         | (key, c) :: kvs' =>
             let* v := call c self locals [] in
             match to_string key with
             | Some k => run set_member object k v in each kvs'
             | None => unmodelled "property key"
             end
         end) keyValues
  end
with assign (c : closure) (self setValue locals : value) {struct c} : M value :=
  match c with
  | Identifier _ ident text => setter self (VString ident) setValue text locals
  | FieldAccess object field _ text =>
      let* o := call object self locals [] in
      setter o field setValue text locals
  | ObjectIndex obj indexFn text =>
      let* key := call indexFn self locals [] in
      let* o := call obj self locals [] in
      let* safe := ensureSafeObject o text in
      let* hooks := getRuntimeHooks locals in
      let* hooked := has_hook hooks "writeIndexHook" in
      if hooked then call_method hooks "writeIndexHook" [safe; key; setValue]
      else match to_string key with
           | Some k => run set_member safe k setValue in ret setValue
           | None => unmodelled "property key"
           end
  | _ => throw (TypeError "assign is not a function")
  end.

(** Whether the compiled function has the [assign] property. *)
Definition has_assign (c : closure) : bool :=
  match c with
  | Identifier _ _ _ | FieldAccess _ _ _ _ | ObjectIndex _ _ _ => true
  | _ => false
  end.

End Evaluation.

(** *** Lexer *)

(** A token. [text] is a string, or the number itself for a number
    token; [json] records whether [token.json] is truthy; [string_]
    is [token.string]. *)
Record token := Token {
  index : nat;
  text : value;
  fn : option closure;
  json : bool;
  string_ : option string
}.

(** Lexing runs on the process-wide getter cache. *)
Definition L (A : Type) : Type := ST getter_cache A.

Module Lexer.

Definition charAt (text : string) (i : nat) : option ascii := String.get i text.

(** [this.peek(i)]: [None] is the [false] returned at the end. *)
Definition peek (text : string) (index i : nat) : option ascii :=
  let num := if i =? 0 then 1 else i in
  if index + num <? String.length text then charAt text (index + num) else None.

(** The text a [peek] contributes to a concatenation. *)
Definition peek_text (c : option ascii) : string :=
  match c with
  | Some c => String c EmptyString
  | None => "false"
  end.

(** [isNumber]: the comparison ['0' <= ch && ch <= '9'] also holds
    for the [false] of a [peek] at the end of the text, which
    compares as the number [0]. *)
Definition isNumber (ch : option ascii) : bool :=
  match ch with
  | Some c => is_digit c
  | None => true
  end.

Definition isWhitespace (ch : ascii) : bool :=
  char_in ch " " || (code ch =? 13) || (code ch =? 9) || (code ch =? 10)
  || (code ch =? 11) || (code ch =? 160).

Definition isIdent (ch : ascii) : bool :=
  let n := code ch in
  ((97 <=? n) && (n <=? 122)) || ((65 <=? n) && (n <=? 90)) || char_in ch "_$@".

Definition isExpOperator (ch : option ascii) : bool :=
  match ch with
  | Some c => char_in c "-+" || is_digit c
  | None => isNumber None
  end.

(** [lowercase] on a character (the letters [A] to [Z]). *)
Definition lowercase (c : ascii) : ascii :=
  if (65 <=? code c) && (code c <=? 90) then ascii_of_nat (code c + 32) else c.

(** [Lexer.throwError]; [start] and [stop] are optional. *)
Definition lexer_error (text : string) (index : nat) (error : string)
    (start stop : option nat) : Js.error :=
  let stop := match stop with Some (S e) => S e | _ => index end in
  let colStr :=
    match start with
    | Some start =>
        String.append "s "
          (String.append (decimal start)
             (String.append "-"
                (String.append (decimal index)
                   (String.append " ["
                      (String.append (substring start stop text) "]")))))
    | None => String.append " " (decimal stop)
    end in
  parseMinErr "lexerr" "Lexer Error: {0} at column{1} in expression [{2}]."
    [VString error; VString colStr; VString text].

(** The [ESCAPE] table. *)
Definition ESCAPE (c : ascii) : option ascii :=
  if Ascii.eqb c "n" then Some (ascii_of_nat 10)
  else if Ascii.eqb c "f" then Some (ascii_of_nat 12)
  else if Ascii.eqb c "r" then Some (ascii_of_nat 13)
  else if Ascii.eqb c "t" then Some (ascii_of_nat 9)
  else if Ascii.eqb c "v" then Some (ascii_of_nat 11)
  else if Ascii.eqb c "'" then Some c
  else if Ascii.eqb c dquote then Some c
  else None.

Definition hex_digit (c : ascii) : option nat :=
  let n := code c in
  if (48 <=? n) && (n <=? 57) then Some (n - 48)
  else if (97 <=? n) && (n <=? 102) then Some (n - 87)
  else if (65 <=? n) && (n <=? 70) then Some (n - 55)
  else None.

(** [parseInt(hex, 16)] for a [hex] that matches [[0-9a-f]{4}]. *)
Definition parse_hex4 (hex : string) : option nat :=
  match hex with
  | String a (String b (String c (String d EmptyString))) =>
      match hex_digit a, hex_digit b, hex_digit c, hex_digit d with
      | Some a, Some b, Some c, Some d => Some (((a * 16 + b) * 16 + c) * 16 + d)
      | _, _, _, _ => None
      end
  | _ => None
  end.

Definition snoc (s : string) (c : ascii) : string := String.append s (String c EmptyString).

(** The loop of [readString]; returns the index after the string and
    the token. *)
Fixpoint readString_loop (fuel : nat) (text : string) (quote : ascii) (start index : nat)
    (value rawString : string) (escape : bool) : L (nat * token) :=
  match fuel with
  | O => fun _ => OutOfFuel
  | S fuel' =>
      match (if index <? String.length text then charAt text index else None) with
      | None => throw (lexer_error text index "Unterminated quote" (Some start) None)
      | Some ch =>
          let rawString := snoc rawString ch in
          if escape then
            if Ascii.eqb ch "u" then
              let hex := substring (index + 1) (index + 5) text in
              match parse_hex4 hex with
              | None =>
                  throw (lexer_error text index
                           (String.append "Invalid unicode escape [\u" (String.append hex "]"))
                           None None)
              | Some n =>
                  if n <? 256 then
                    readString_loop fuel' text quote start (index + 4 + 1)
                      (snoc value (ascii_of_nat n)) rawString false
                  else unmodelled "code unit above 255"
              end
            else
              readString_loop fuel' text quote start (index + 1)
                (snoc value (default ch (ESCAPE ch))) rawString false
          else if code ch =? 92 then
            readString_loop fuel' text quote start (index + 1) value rawString true
          else if Ascii.eqb ch quote then
            ret (index + 1,
                 Token start (VString rawString) (Some (StringLiteral value)) true (Some value))
          else
            readString_loop fuel' text quote start (index + 1) (snoc value ch) rawString false
      end
  end.

Definition readString (text : string) (index : nat) (quote : ascii) : L (nat * token) :=
  readString_loop (S (String.length text)) text quote index (index + 1)
    EmptyString (String quote EmptyString) false.

Definition last_char (s : string) : option ascii :=
  match String.length s with
  | O => None
  | S n => charAt s n
  end.

(** The loop of [readNumber]; returns the index after the number and
    the text collected in [n]. *)
Fixpoint readNumber_loop (fuel : nat) (text : string) (index : nat) (n : string)
    : L (nat * string) :=
  match fuel with
  | O => fun _ => OutOfFuel
  | S fuel' =>
      match (if index <? String.length text then charAt text index else None) with
      | None => ret (index, n)
      | Some c =>
          let ch := lowercase c in
          let ends_in_e :=
            match last_char n with Some e => Ascii.eqb e "e" | None => false end in
          if Ascii.eqb ch "." || is_digit ch then
            readNumber_loop fuel' text (index + 1) (snoc n ch)
          else
            let peekCh := peek text index 0 in
            if Ascii.eqb ch "e" && isExpOperator peekCh then
              readNumber_loop fuel' text (index + 1) (snoc n ch)
            else if isExpOperator (Some ch)
                    && match peekCh with Some p => is_digit p | None => false end
                    && ends_in_e then
              readNumber_loop fuel' text (index + 1) (snoc n ch)
            else if isExpOperator (Some ch)
                    && negb (match peekCh with Some p => is_digit p | None => false end)
                    && ends_in_e then
              throw (lexer_error text index "Invalid exponent" None None)
            else ret (index, n)
      end
  end.

Definition readNumber (text : string) (index : nat) : L (nat * token) :=
  let* '(index', n) := readNumber_loop (S (String.length text)) text index EmptyString in
  match JsNumber.of_string n with
  | Some n => ret (index', Token index (VNumber n) (Some (NumberLiteral n)) true None)
  | None => unmodelled "numeric literal"
  end.

(** The first loop of [readIdent]: the run of identifier characters,
    digits and dots; returns the index after it, the text and the
    index of the last dot. *)
Fixpoint readIdent_run (fuel : nat) (text : string) (index : nat) (ident : string)
    (lastDot : option nat) : nat * string * option nat :=
  match fuel with
  | O => (index, ident, lastDot)
  | S fuel' =>
      match (if index <? String.length text then charAt text index else None) with
      | Some ch =>
          if Ascii.eqb ch "." || isIdent ch || is_digit ch then
            readIdent_run fuel' text (index + 1) (snoc ident ch)
              (if Ascii.eqb ch "." then Some index else lastDot)
          else (index, ident, lastDot)
      | None => (index, ident, lastDot)
      end
  end.

(** The second loop of [readIdent]: looks past white space for an
    opening parenthesis; returns its index. *)
Fixpoint readIdent_peek (fuel : nat) (text : string) (peekIndex : nat) : option nat :=
  match fuel with
  | O => None
  | S fuel' =>
      match (if peekIndex <? String.length text then charAt text peekIndex else None) with
      | Some ch =>
          if Ascii.eqb ch "(" then Some peekIndex
          else if isWhitespace ch then readIdent_peek fuel' text (peekIndex + 1)
          else None
      | None => None
      end
  end.

(** [readIdent]; returns the index after the identifier and the
    tokens to push. *)
Definition readIdent (text : string) (index : nat) : L (nat * list token) :=
  let start := index in
  let '(index, ident, lastDot) :=
    readIdent_run (S (String.length text)) text index EmptyString None in
  let lastDot := match lastDot with Some (S d) => Some (S d) | _ => None end in
  let '(index, ident, methodName) :=
    match lastDot with
    | Some dot =>
        match readIdent_peek (S (String.length text)) text index with
        | Some peekIndex =>
            (peekIndex, keep (dot - start) ident, Some (skip (dot - start + 1) ident))
        | None => (index, ident, None)
        end
    | None => (index, ident, None)
    end in
  let* token :=
    match OPERATORS ident with
    | Some op => ret (Token start (VString ident) (Some (Operator op)) true None)
    | None =>
        let* getter := getterFn (VString ident) text in
        ret (Token start (VString ident) (Some (Identifier getter ident text)) false None)
    end in
  ret (index,
       token ::
       match methodName, lastDot with
       | Some (String c m), Some dot =>
           [Token dot (VString ".") None false None;
            Token (dot + 1) (VString (String c m)) None false None]
       | _, _ => []
       end).

(** [token.json = token.text.indexOf('.') === -1] on the last token. *)
Fixpoint mark_last_json (tokens : list token) : list token :=
  match tokens with
  | [] => []
  | [t] =>
      [Token (index t) (text t) (fn t)
         (match text t with
          | VString s => negb (char_in "." s)
          | _ => json t
          end)
         (string_ t)]
  | t :: rest => t :: mark_last_json rest
  end.

(** The loop of [lex]. [lastCh] is the first character of the last
    token read; [json] is the stack of the brackets still open. *)
Fixpoint lex_loop (fuel : nat) (text : string) (index : nat) (tokens : list token)
    (lastCh : ascii) (json : list ascii) : L (list token) :=
  match fuel with
  | O => fun _ => OutOfFuel
  | S fuel' =>
      match (if index <? String.length text then charAt text index else None) with
      | None => ret tokens
      | Some ch =>
          let is_ chars := char_in ch chars in
          let was_ chars := char_in lastCh chars in
          if is_ "'" || Ascii.eqb ch dquote then
            let* '(index, token) := readString text index ch in
            lex_loop fuel' text index (tokens ++ [token]) ch json
          else if is_digit ch || (is_ "." && isNumber (peek text index 0)) then
            let* '(index, token) := readNumber text index in
            lex_loop fuel' text index (tokens ++ [token]) ch json
          else if isIdent ch then
            let* '(index, read) := readIdent text index in
            let tokens := (tokens ++ read)%list in
            let tokens :=
              if was_ "{," && match json with j :: _ => Ascii.eqb j "{" | [] => false end
              then mark_last_json tokens else tokens in
            lex_loop fuel' text index tokens ch json
          else if is_ "(){}[].,;:?" then
            let token :=
              Token index (VString (String ch EmptyString)) None
                ((was_ ":[," && is_ "{[") || is_ "}]:,") None in
            let json := if is_ "{[" then ch :: json else json in
            let json := if is_ "}]" then tail json else json in
            lex_loop fuel' text (index + 1) (tokens ++ [token]) ch json
          else if isWhitespace ch then
            lex_loop fuel' text (index + 1) tokens lastCh json
          else
            let ch1 := String ch EmptyString in
            let ch2 := String.append ch1 (peek_text (peek text index 0)) in
            let ch3 := String.append ch2 (peek_text (peek text index 2)) in
            match OPERATORS ch3, OPERATORS ch2, OPERATORS ch1 with
            | Some fn3, _, _ =>
                lex_loop fuel' text (index + 3)
                  (tokens ++ [Token index (VString ch3) (Some (Operator fn3)) false None]) ch json
            | None, Some fn2, _ =>
                lex_loop fuel' text (index + 2)
                  (tokens ++ [Token index (VString ch2) (Some (Operator fn2)) false None]) ch json
            | None, None, Some fn1 =>
                lex_loop fuel' text (index + 1)
                  (tokens ++ [Token index (VString ch1) (Some (Operator fn1))
                                (was_ "[,:" && is_ " +-") None]) ch json
            | None, None, None =>
                throw (lexer_error text index "Unexpected next character "
                         (Some index) (Some (index + 1)))
            end
      end
  end.

(** [Lexer.lex]: every turn of the loop consumes a character. *)
Definition lex (text : string) : L (list token) :=
  lex_loop (S (String.length text)) text 0 [] ":" [].

End Lexer.

(** *** Parser *)

(** [IExpressionCompilerOptions] *)
Record options := Options {
  filters : gmap string value;
  disallowFunctionCalls : bool
}.

(** A compiled expression: the function and its [constant] and
    [literal] properties (their truthiness). The [assign] property is
    determined by the function, see [has_assign]. *)
Record compiled := Compiled {
  closure_of : closure;
  constant : bool;
  literal : bool
}.

Module Parser.

(** The parser consumes [this.tokens]; building getters updates the
    process-wide getter cache. *)
Record parser_state := ParserState {
  tokens : list token;
  getterFnCache : getter_cache
}.

Definition P (A : Type) : Type := ST parser_state A.

Definition lift {A} (m : L A) : P A :=
  fun st =>
    match m (getterFnCache st) with
    | Ret a c => Ret a (ParserState (tokens st) c)
    | Throw e c => Throw e (ParserState (tokens st) c)
    | Unmodelled why => Unmodelled why
    | OutOfFuel => OutOfFuel
    end.

Definition out_of_fuel {A} : P A := fun _ => OutOfFuel.

Section Grammar.

Variable text : string.
Variable options : Compiler.options.

(** [Parser.throwError(msg, token)]; a [token] of [None] is the
    [false] that [peek] and [expect] return. *)
Definition syntax_error (msg : string) (token : option token) : error :=
  parseMinErr "syntax"
    "WebRx Syntax Error: Token '{0}' {1} at column {2} of the expression [{3}] starting at [{4}]."
    [match token with Some t => Compiler.text t | None => VUndefined end;
     VString msg;
     VNumber (match token with Some t => of_nat (index t + 1) | None => NaN end);
     VString text;
     VString (match token with Some t => skip (index t) text | None => text end)].

Definition peekToken : P token :=
  fun st =>
    match tokens st with
    | [] => Throw (parseMinErr "ueoe" "Unexpected end of expression: {0}" [VString text]) st
    | t :: _ => Ret t st
    end.

(** [this.peek(e1, e2, e3, e4)]; no expected text accepts any token. *)
Definition peek (expected : list string) : P (option token) :=
  fun st =>
    match tokens st with
    | [] => Ret None st
    | t :: _ =>
        if existsb (fun e => strict_equal (Compiler.text t) (VString e)) expected
           || match expected with [] => true | _ => false end
        then Ret (Some t) st else Ret None st
    end.

Definition expect (expected : list string) : P (option token) :=
  let* token := peek expected in
  match token with
  | Some t => fun st => Ret (Some t) (ParserState (tail (tokens st)) (getterFnCache st))
  | None => ret None
  end.

Definition consume (e1 : string) : P unit :=
  let* token := expect [e1] in
  match token with
  | Some _ => ret tt
  | None =>
      let* next := peek [] in
      throw (syntax_error
               (String.append "is unexpected, expecting [" (String.append e1 "]")) next)
  end.

Definition unaryFn (fn : option closure) (right : compiled) : compiled :=
  Compiled (UnaryFn fn (closure_of right)) (constant right) false.

Definition ternaryFn (left middle right : compiled) : compiled :=
  Compiled (TernaryFn (closure_of left) (closure_of middle) (closure_of right))
    (constant left && constant middle && constant right) false.

Definition binaryFn (left : compiled) (fn : option closure) (right : compiled) : compiled :=
  Compiled (BinaryFn (closure_of left) fn (closure_of right))
    (constant left && constant right) false.

Definition plain (c : closure) : compiled := Compiled c false false.

(** [this.options.filters[key]]: the table is an object of the
    caller, taken to be an object literal, so the lookup also finds
    what it inherits from [Object.prototype]. *)
Definition lookup_filter (key : value) : P value :=
  match to_string key with
  | Some k =>
      match filters options !! k with
      | Some f => ret f
      | None =>
          match inherited OfObject k with
          | Some f => ret f
          | None => unmodelled "property that the embedding does not determine"
          end
      end
  | None => unmodelled "property key"
  end.

Definition fieldAccess (object : closure) : P compiled :=
  let* token := expect [] in
  let field := match token with Some t => Compiler.text t | None => VUndefined end in
  let* getter := lift (getterFn field text) in
  ret (plain (FieldAccess object field getter text)).

(** The methods of the parser that call one another. The parser
    object [this] is a record of them, and a production is written
    against the record it calls into. *)
Record methods := Methods {
  filterChain_ : P compiled;
  filterChain_loop_ : compiled -> P compiled;
  filter_ : P compiled;
  filter_loop_ : value -> list closure -> P compiled;
  expression_ : P compiled;
  assignment_ : P compiled;
  ternary_ : P compiled;
  logicalOR_ : P compiled;
  logicalOR_loop_ : compiled -> P compiled;
  logicalAND_ : P compiled;
  equality_ : P compiled;
  relational_ : P compiled;
  additive_ : P compiled;
  additive_loop_ : compiled -> P compiled;
  multiplicative_ : P compiled;
  multiplicative_loop_ : compiled -> P compiled;
  unary_ : P compiled;
  primary_ : P compiled;
  primary_loop_ : compiled -> option closure -> P compiled;
  objectIndex_ : closure -> P compiled;
  functionCall_ : closure -> option closure -> P compiled;
  functionCall_loop_ : list closure -> P (list closure);
  arrayDeclaration_ : P compiled;
  arrayDeclaration_loop_ : list closure -> bool -> P (list closure * bool);
  object_ : P compiled;
  object_loop_ : list (value * closure) -> bool -> P (list (value * closure) * bool);
  statements_loop_ : list compiled -> P compiled
}.

Section Productions.

Variable this : methods.

Definition filterChain : P compiled :=
  let* left := expression_ this in
  filterChain_loop_ this left.

Definition filterChain_loop (left : compiled) : P compiled :=
  let* token := expect ["|"] in
  match token with
  | Some t =>
      let* f := filter_ this in
      filterChain_loop_ this (binaryFn left (fn t) f)
  | None => ret left
  end.

Definition filter : P compiled :=
  let* token := expect [] in
  let* fn :=
    lookup_filter (match token with Some t => Compiler.text t | None => VUndefined end) in
  filter_loop_ this fn [].

Definition filter_loop (fn : value) (argsFn : list closure) : P compiled :=
  let* token := expect [":"] in
  match token with
  | Some _ =>
      let* e := expression_ this in
      filter_loop_ this fn (argsFn ++ [closure_of e])
  | None => ret (plain (Filter fn argsFn))
  end.

Definition expression : P compiled := assignment_ this.

Definition assignment : P compiled :=
  let* left := ternary_ this in
  let* token := expect ["="] in
  match token with
  | Some t =>
      if has_assign (closure_of left) then
        let* right := ternary_ this in
        ret (plain (Assignment (closure_of left) (closure_of right)))
      else
        throw (syntax_error
                 (String.append "implies assignment but ["
                    (String.append (keep (index t) text) "] can not be assigned to"))
                 (Some t))
  | None => ret left
  end.

Definition ternary : P compiled :=
  let* left := logicalOR_ this in
  let* token := expect ["?"] in
  match token with
  | Some _ =>
      let* middle := ternary_ this in
      let* token := expect [":"] in
      match token with
      | Some _ =>
          let* right := ternary_ this in
          ret (ternaryFn left middle right)
      | None => throw (syntax_error "expected :" None)
      end
  | None => ret left
  end.

Definition logicalOR : P compiled :=
  let* left := logicalAND_ this in
  logicalOR_loop_ this left.

Definition logicalOR_loop (left : compiled) : P compiled :=
  let* token := expect ["||"] in
  match token with
  | Some t =>
      let* right := logicalAND_ this in
      logicalOR_loop_ this (binaryFn left (fn t) right)
  | None => ret left
  end.

Definition logicalAND : P compiled :=
  let* left := equality_ this in
  let* token := expect ["&&"] in
  match token with
  | Some t =>
      let* right := logicalAND_ this in
      ret (binaryFn left (fn t) right)
  | None => ret left
  end.

Definition equality : P compiled :=
  let* left := relational_ this in
  let* token := expect ["=="; "!="; "==="; "!=="] in
  match token with
  | Some t =>
      let* right := equality_ this in
      ret (binaryFn left (fn t) right)
  | None => ret left
  end.

Definition relational : P compiled :=
  let* left := additive_ this in
  let* token := expect ["<"; ">"; "<="; ">="] in
  match token with
  | Some t =>
      let* right := relational_ this in
      ret (binaryFn left (fn t) right)
  | None => ret left
  end.

Definition additive : P compiled :=
  let* left := multiplicative_ this in
  additive_loop_ this left.

Definition additive_loop (left : compiled) : P compiled :=
  let* token := expect ["+"; "-"] in
  match token with
  | Some t =>
      let* right := multiplicative_ this in
      additive_loop_ this (binaryFn left (fn t) right)
  | None => ret left
  end.

Definition multiplicative : P compiled :=
  let* left := unary_ this in
  multiplicative_loop_ this left.

Definition multiplicative_loop (left : compiled) : P compiled :=
  let* token := expect ["*"; "/"; "%"] in
  match token with
  | Some t =>
      let* right := unary_ this in
      multiplicative_loop_ this (binaryFn left (fn t) right)
  | None => ret left
  end.

Definition unary : P compiled :=
  let* plus := expect ["+"] in
  match plus with
  | Some _ => primary_ this
  | None =>
      let* minus := expect ["-"] in
      match minus with
      | Some t =>
          let* right := unary_ this in
          ret (binaryFn (plain Zero) (fn t) right)
      | None =>
          let* bang := expect ["!"] in
          match bang with
          | Some t =>
              let* right := unary_ this in
              ret (unaryFn (fn t) right)
          | None => primary_ this
          end
      end
  end.

Definition primary : P compiled :=
  let* paren := expect ["("] in
  let* primary :=
    match paren with
    | Some _ =>
        let* e := filterChain_ this in
        run consume ")" in
        ret e
    | None =>
        let* bracket := expect ["["] in
        match bracket with
        | Some _ => arrayDeclaration_ this
        | None =>
            let* brace := expect ["{"] in
            match brace with
            | Some _ => object_ this
            | None =>
                let* token := expect [] in
                match token with
                | Some (Token _ _ (Some f) is_json _) =>
                    ret (Compiled f is_json is_json)
                | _ => throw (syntax_error "not a primary expression" token)
                end
            end
        end
    end in
  primary_loop_ this primary None.

Definition primary_loop (primary : compiled) (context : option closure) : P compiled :=
  let* next := expect ["("; "["; "."] in
  match next with
  | None => ret primary
  | Some t =>
      if strict_equal (Compiler.text t) (VString "(") then
        let* p := functionCall_ this (closure_of primary) context in
        primary_loop_ this p None
      else if strict_equal (Compiler.text t) (VString "[") then
        let* p := objectIndex_ this (closure_of primary) in
        primary_loop_ this p (Some (closure_of primary))
      else
        let* p := fieldAccess (closure_of primary) in
        primary_loop_ this p (Some (closure_of primary))
  end.

Definition objectIndex (obj : closure) : P compiled :=
  let* indexFn := expression_ this in
  run consume "]" in
  ret (plain (ObjectIndex obj (closure_of indexFn) text)).

(** [this.throwError('Function calls are not allowed')] passes no
    token and fails reading [token.text]. *)
Definition functionCall (fn : closure) (contextGetter : option closure) : P compiled :=
  if disallowFunctionCalls options
  then throw (TypeError "Cannot read property 'text' of undefined")
  else
    let* next := peekToken in
    let* argsFn :=
      if strict_equal (Compiler.text next) (VString ")") then ret []
      else functionCall_loop_ this [] in
    run consume ")" in
    ret (plain (FunctionCall fn contextGetter argsFn text)).

Definition functionCall_loop (argsFn : list closure) : P (list closure) :=
  let* e := expression_ this in
  let argsFn := (argsFn ++ [closure_of e])%list in
  let* comma := expect [","] in
  match comma with
  | Some _ => functionCall_loop_ this argsFn
  | None => ret argsFn
  end.

Definition arrayDeclaration : P compiled :=
  let* next := peekToken in
  let* '(elementFns, allConstant) :=
    if strict_equal (Compiler.text next) (VString "]") then ret ([], true)
    else arrayDeclaration_loop_ this [] true in
  run consume "]" in
  ret (Compiled (ArrayDeclaration elementFns) allConstant true).

Definition arrayDeclaration_loop (elementFns : list closure) (allConstant : bool)
    : P (list closure * bool) :=
  let* closing := peek ["]"] in
  match closing with
  | Some _ => ret (elementFns, allConstant)
  | None =>
      let* elementFn := expression_ this in
      let elementFns := (elementFns ++ [closure_of elementFn])%list in
      let allConstant := allConstant && constant elementFn in
      let* comma := expect [","] in
      match comma with
      | Some _ => arrayDeclaration_loop_ this elementFns allConstant
      | None => ret (elementFns, allConstant)
      end
  end.

Definition object : P compiled :=
  let* next := peekToken in
  let* '(keyValues, allConstant) :=
    if strict_equal (Compiler.text next) (VString "}") then ret ([], true)
    else object_loop_ this [] true in
  run consume "}" in
  ret (Compiled (ObjectDeclaration keyValues) allConstant true).

Definition object_loop (keyValues : list (value * closure)) (allConstant : bool)
    : P (list (value * closure) * bool) :=
  let* closing := peek ["}"] in
  match closing with
  | Some _ => ret (keyValues, allConstant)
  | None =>
      let* token := expect [] in
      let key :=
        match token with
        | Some (Token _ _ _ _ (Some (String c s))) => VString (String c s)
        | Some t => Compiler.text t
        | None => VUndefined
        end in
      run consume ":" in
      let* value := expression_ this in
      let keyValues := (keyValues ++ [(key, closure_of value)])%list in
      let allConstant := allConstant && constant value in
      let* comma := expect [","] in
      match comma with
      | Some _ => object_loop_ this keyValues allConstant
      | None => ret (keyValues, allConstant)
      end
  end.

(** The [while (true)] loop of [statements]. *)
Definition statements_loop (statements : list compiled) : P compiled :=
  let* stop := peek ["}"; ")"; ";"; "]"] in
  let* statements :=
    fun st =>
      match tokens st, stop with
      | _ :: _, None =>
          (let* e := filterChain_ this in ret (statements ++ [e])%list) st
      | _, _ => Ret statements st
      end in
  let* semicolon := expect [";"] in
  match semicolon with
  | Some _ => statements_loop_ this statements
  | None =>
      ret (match statements with
           | [e] => e
           | _ => plain (Statements (map closure_of statements))
           end)
  end.

(** The methods, each calling into [this]. *)
Definition productions : methods :=
  Methods filterChain filterChain_loop filter filter_loop expression assignment
    ternary logicalOR logicalOR_loop logicalAND equality relational
    additive additive_loop multiplicative multiplicative_loop unary
    primary primary_loop objectIndex functionCall functionCall_loop
    arrayDeclaration arrayDeclaration_loop object object_loop statements_loop.

End Productions.

(** A parser whose every method fails: the recursion budget is spent. *)
Definition exhausted : methods :=
  Methods out_of_fuel (fun _ => out_of_fuel) out_of_fuel (fun _ _ => out_of_fuel)
    out_of_fuel out_of_fuel out_of_fuel out_of_fuel (fun _ => out_of_fuel)
    out_of_fuel out_of_fuel out_of_fuel out_of_fuel (fun _ => out_of_fuel)
    out_of_fuel (fun _ => out_of_fuel) out_of_fuel out_of_fuel
    (fun _ _ => out_of_fuel) (fun _ => out_of_fuel) (fun _ _ => out_of_fuel)
    (fun _ => out_of_fuel) out_of_fuel (fun _ _ => out_of_fuel) out_of_fuel
    (fun _ _ => out_of_fuel) (fun _ => out_of_fuel).

(** The parser that can nest method calls [fuel] deep. *)
Fixpoint parser (fuel : nat) : methods :=
  match fuel with
  | O => exhausted
  | S fuel' => productions (parser fuel')
  end.

(** [statements] *)
Definition statements (fuel : nat) : P compiled := statements_loop (parser fuel) [].

(** [Parser.parse] *)
Definition parse (fuel : nat) : L compiled :=
  let* tokens := Lexer.lex text in
  fun cache =>
    match
      (let* value := statements fuel in
       fun st =>
         match Parser.tokens st with
         | [] => Ret value st
         | t :: _ => Throw (syntax_error "is an unexpected token" (Some t)) st
         end) (ParserState tokens cache)
    with
    | Ret value st => Ret value (getterFnCache st)
    | Throw e st => Throw e (getterFnCache st)
    | Unmodelled why => Unmodelled why
    | OutOfFuel => OutOfFuel
    end.

End Grammar.

End Parser.

(** *** The entry point *)

(** What [compileExpression] returns: a compiled expression or, from
    the lookup in the cache, a member that the cache inherits. *)
Inductive compilation :=
| Expression (e : compiled)
| Inherited (member : value).

(** [compileExpression(src, options, cache)]. The expression cache
    belongs to the caller and is taken to be an object literal: its
    own entries are the [cache] given here, and it inherits from
    [Object.prototype]. The function returns the cache as it leaves
    it. The store is only consulted for [typeof src]. *)
Definition compileExpression (fuel : nat) (h : gmap loc object) (src : value)
    (options : option Compiler.options) (cache : option (gmap string compiled))
    : L (compilation * option (gmap string compiled)) :=
  match src with
  | VString src =>
      let parse :=
        Parser.parse src (default (Options ∅ false) options) fuel in
      match cache with
      | None =>
          let* value := parse in
          ret (Expression value, None)
      | Some cache =>
          match cache !! src with
          | Some cached => ret (Expression cached, Some cache)
          | None =>
              match inherited OfObject src with
              | Some cached =>
                  if truthy cached then ret (Inherited cached, Some cache)
                  else
                    let* cached := parse in
                    ret (Expression cached, Some (<[src := cached]> cache))
              | None => unmodelled "property that the embedding does not determine"
              end
          end
      end
  | _ =>
      throw (TypeError (String.append "src must be a string, instead saw '"
                          (String.append (typeof h src) "'")))
  end.

End Compiler.

(** ** Vocabulary of the properties *)

Module Spec.
Import JsString JsNumber ObjectLiteral Js Compiler.

(** *** Object-literal tokenizer *)

(** A character that is neither white space nor special. *)
Definition plain_char (c : ascii) : bool := negb (is_space c) && negb (is_special c).

Fixpoint all_chars (p : ascii -> bool) (s : string) : bool :=
  match s with
  | EmptyString => true
  | String c s' => p c && all_chars p s'
  end.

Definition is_key_code (c : option nat) : bool :=
  negb (is_code c 44 || is_code c 58 || is_code c 47 || is_code c 40 || is_code c 123
        || is_code c 91 || is_code c 41 || is_code c 125 || is_code c 93
        || is_code c 34 || is_code c 39).

(** The key a token becomes: a quoted token loses its quotes. *)
Definition key_of (tok : string) : string :=
  if is_code (charCodeAt0 tok) 34 || is_code (charCodeAt0 tok) 39
  then slice_1_m1 tok else tok.

(** A token that the loop takes as a key when none is pending:
    neither a comma, a colon, a slash run nor a bracket. *)
Definition key_token (prev : option string) (tok : string) : bool :=
  let c := charCodeAt0 tok in
  negb (is_code c 44 || is_code c 58
        || (is_code c 47 && is_Some_b prev && (1 <? String.length tok))
        || is_code c 40 || is_code c 123 || is_code c 91
        || is_code c 41 || is_code c 125 || is_code c 93).





(** The claim about a key without a value, in the words of the
    design text: the result carries an [unknown] token in the place
    of the key. *)
Definition carries_unknown (r : tokens_result) (key : string) : bool :=
  match r with
  | Tokens l =>
      existsb (fun t => match t with
                        | Unknown k => String.eqb k key
                        | KeyValue _ _ => false
                        end) l
  | _ => false
  end.

(** *** Evaluation *)

(** The recursion budget used for the expressions below. *)
Definition deep_enough : nat := 40.

Definition no_options : Compiler.options := Options ∅ false.

(** Compiles [src] in a fresh process (empty getter cache) and
    evaluates the result on [scope] and [locals]. *)
Definition evaluate (host : nat -> value -> list value -> M value) (src : string)
    (scope locals : value) (st : state) : outcome state value :=
  match Parser.parse src no_options deep_enough ∅ with
  | Ret e _ => call host (closure_of e) scope locals [] st
  | Throw e _ => Throw e st
  | Unmodelled why => Unmodelled why
  | OutOfFuel => OutOfFuel
  end.

(** A [locals] that carries no runtime hooks. *)
Definition hookless (h : gmap loc object) (locals : value) : Prop :=
  locals = VUndefined \/
  exists l o, locals = VObject l /\ h !! l = Some o /\ own o !! hookField = None.

(** A [locals] that is the empty object. *)
Definition empty_object (h : gmap loc object) (v : value) : Prop :=
  exists l, v = VObject l /\ h !! l = Some (Object ∅ None false).

(** Both operands evaluated in order, then [k]. *)
Definition both (host : nat -> value -> list value -> M value) (a b : closure)
    (self locals : value) (k : value -> value -> M value) : M value :=
  let* x := call host a self locals [] in
  let* y := call host b self locals [] in
  k x y.

(** [binaryFn(a, OPERATORS[op], b)] *)
Definition binary (op : operator) (a b : closure) : closure :=
  BinaryFn a (Some (Operator op)) b.

(** The steps of [csp_steps] when they read directly from the store;
    [None] when a read is not determined. *)
Fixpoint steps_direct (h : gmap loc object) (keys : list (option string)) (pathVal : value)
    : option value :=
  match keys with
  | [] => Some pathVal
  | key :: rest =>
      if negb (key_truthy key) then Some pathVal
      else if is_nullish pathVal then Some VUndefined
      else match get h pathVal (key_name key) with
           | Some v => steps_direct h rest v
           | None => None
           end
  end.

(** A missing intermediate value: walking [keys] from [v], a property
    that further keys follow reads as [undefined] or [null], every
    read before it being determined and yielding a value that is
    neither. *)
Fixpoint gap (h : gmap loc object) (v : value) (keys : list string) : bool :=
  match keys with
  | [] => false
  | k :: ks =>
      match ks with
      | [] => false
      | _ :: _ =>
          match get h v k with
          | Some v' => if is_nullish v' then true else gap h v' ks
          | None => false
          end
      end
  end.

(** Whether [locals] shadows [key], for a [locals] that is falsy or
    whose [hasOwnProperty] is the built-in method; [None] for any
    other [locals], or when the answer is not determined. *)
Definition shadows (h : gmap loc object) (locals : value) (key : string) : option bool :=
  if truthy locals then
    match get h locals "hasOwnProperty" with
    | Some f =>
        if strict_equal f (VNative (Method OfObject "hasOwnProperty"))
        then own_property h locals key
        else None
    | None => None
    end
  else Some false.

(** A path segment that is not empty and not the reserved name. *)
Definition segment_ok (k : string) : bool :=
  negb (String.eqb k EmptyString) && negb (String.eqb k "constructor").

Definition first_key (keys : list string) : string := default EmptyString (head keys).

Definition is_string (v : value) : bool :=
  match v with VString _ => true | _ => false end.

(** *** Sample stores *)

Definition record (props : list (string * value)) : object :=
  Object (list_to_map props) None false.

(** A host whose functions do nothing and return [undefined]. *)
Definition quiet_host : nat -> value -> list value -> M value :=
  fun _ _ _ => ret VUndefined.

(** The scope [{ x: F }] where [F] is a function with
    [F.constructor === F], and the locals [{}]. *)
Definition function_heap : gmap loc object :=
  list_to_map
    [(1%positive, record [("x", VObject 2%positive)]);
     (2%positive, Object (list_to_map [("constructor", VObject 2%positive)]) (Some 0) false);
     (3%positive, record [])].

(** The scope [{ a: { b: { c: { d: { e: { f: 1 } } } } } }] (objects 1
    to 6), the locals [{ f: 2 }] (object 7) and the locals [{}]
    (object 8). *)
Definition nested_heap : gmap loc object :=
  list_to_map
    [(1%positive, record [("a", VObject 2%positive)]);
     (2%positive, record [("b", VObject 3%positive)]);
     (3%positive, record [("c", VObject 4%positive)]);
     (4%positive, record [("d", VObject 5%positive)]);
     (5%positive, record [("e", VObject 6%positive)]);
     (6%positive, record [("f", VNumber (of_Z 1))]);
     (7%positive, record [("f", VNumber (of_Z 2))]);
     (8%positive, record [])].

(** The scopes [{ a: { b: { c: 5 } } }] (object 1), [{ a: {} }]
    (object 4) and [{ a: undefined, b: 5 }] (object 6), and the
    locals [{}] (object 7), [{ f: 2 }] (object 8) and
    [{ hasOwnProperty: 1 }] (object 9). *)
Definition sample_heap : gmap loc object :=
  list_to_map
    [(1%positive, record [("a", VObject 2%positive)]);
     (2%positive, record [("b", VObject 3%positive)]);
     (3%positive, record [("c", VNumber (of_Z 5))]);
     (4%positive, record [("a", VObject 5%positive)]);
     (5%positive, record []);
     (6%positive, record [("a", VUndefined); ("b", VNumber (of_Z 5))]);
     (7%positive, record []);
     (8%positive, record [("f", VNumber (of_Z 2))]);
     (9%positive, record [("hasOwnProperty", VNumber (of_Z 1))])].

(** The scope [{ a: { b: 1 } }] (objects 1 and 2), locals that carry
    the hooks [{ writeFieldHook: w }] (objects 3, 4 and the function
    5, known to the host as 0). *)
Definition hooked_heap : gmap loc object :=
  list_to_map
    [(1%positive, record [("a", VObject 2%positive)]);
     (2%positive, record [("b", VNumber (of_Z 1))]);
     (3%positive, record [(hookField, VObject 4%positive)]);
     (4%positive, record [("writeFieldHook", VObject 5%positive)]);
     (5%positive, Object ∅ (Some 0) false)].

Definition result_of {S A} (o : outcome S A) : option A :=
  match o with Ret a _ => Some a | _ => None end.

Definition error_of {S A} (o : outcome S A) : option error :=
  match o with Throw e _ => Some e | _ => None end.

End Spec.

(** ** The proxy of a node's child nodes ([wx.internal.VirtualChildNodes]) *)

Module VirtualChildNodes.
Import Js.

(** A DOM node, known by its identity; an entry of an array of nodes
    may be [undefined] (here [None]). *)
Definition node := nat.
Definition entry := option node.

(** *** Arrays as the class uses them; indices are integers *)

(** The position an index argument of [slice] and [splice] denotes:
    a negative index counts from the end, and everything is clamped
    to the array. *)
Definition relative (i : Z) (len : nat) : nat :=
  if (i <? 0)%Z then Z.to_nat (Z.max (Z.of_nat len + i) 0)
  else Nat.min (Z.to_nat i) len.

(** [l.slice(start, end)] *)
Definition slice {A} (start end_ : Z) (l : list A) : list A :=
  let k := relative start (length l) in
  let final := relative end_ (length l) in
  take (final - k) (drop k l).

(** [l.splice(start, deleteCount, ...items)]: the array afterwards. *)
Definition splice {A} (start deleteCount : Z) (items : list A) (l : list A) : list A :=
  let k := relative start (length l) in
  let count := Nat.min (Z.to_nat (Z.max deleteCount 0)) (length l - k) in
  (take k l ++ items ++ drop (k + count) l)%list.

(** [l[i]] *)
Definition at_index (l : list entry) (i : Z) : entry :=
  if (i <? 0)%Z then None else mjoin (l !! Z.to_nat i).

(** *** The environment *)

(** What the class asks of its environment: the three methods of the
    target node and the two callbacks given to the constructor. *)
Inductive request :=
| appendChild (n : entry)                       (* targetNode.appendChild(n) *)
| insertBefore (n ref : entry)                  (* targetNode.insertBefore(n, ref) *)
| removeChild (n : entry)                       (* targetNode.removeChild(n) *)
| insertCB (n : entry) (callbackData : value)   (* this.insertCB(n, callbackData) *)
| removeCB (n : entry).                         (* this.removeCB(n) *)

(** How the environment answers: it returns, or it throws. *)
Inductive reply (world : Type) :=
| Returned (w : world)
| Threw (w : world).
Arguments Returned {world} w.
Arguments Threw {world} w.

(** The fields of an instance; of the two callbacks only their
    presence matters to the class. *)
Record instance := Instance {
  childNodes : list entry;
  has_insertCB : bool;
  has_removeCB : bool
}.

(** How a method ends: it returns [a], or an exception of the
    environment leaves it; the instance and the environment are as
    the method left them. *)
Inductive result (world A : Type) :=
| Done (a : A) (this : instance) (w : world)
| Raised (this : instance) (w : world).
Arguments Done {world A} a this w.
Arguments Raised {world A} this w.

Section Class.

  (** The state of the environment, what a request does to it, and
      [targetNode.childNodes]. The callbacks do not call back into
      the instance. *)
Variable world : Type.
Variable perform : request -> world -> reply world.
Variable childNodes_of : world -> list node.

(** Requests made one after the other, up to the first that throws. *)
Fixpoint requests (rs : list request) (w : world) : reply world :=
  match rs with
  | [] => Returned w
  | r :: rs' =>
      match perform r w with
      | Returned w' => requests rs' w'
      | Threw w' => Threw w'
      end
  end.

Definition finish {A} (a : A) (this : instance) (r : reply world) : result world A :=
  match r with
  | Returned w => Done a this w
  | Threw w => Raised this w
  end.

(** [new VirtualChildNodes(targetNode, initialSyncToTarget, insertCB, removeCB)] *)
Definition constructor (initialSyncToTarget insertCB_given removeCB_given : bool)
    (w : world) : instance :=
Instance (if initialSyncToTarget then map Some (childNodes_of w) else [])
         insertCB_given removeCB_given.

Definition appendChilds (nodes : list entry) (callbackData : value)
    (this : instance) (w : world) : result world unit :=
  let this' :=
Instance
  (if 1 <? length nodes
   then (childNodes this ++ nodes)%list
   else (childNodes this ++ [mjoin (head nodes)])%list)
  (has_insertCB this) (has_removeCB this) in
finish tt this'
(requests
   (map appendChild nodes ++
    (if has_insertCB this then map (fun n => insertCB n callbackData) nodes else []))%list
   w).

Definition insertChilds (index : Z) (nodes : list entry) (callbackData : value)
    (this : instance) (w : world) : result world unit :=
  if (index =? Z.of_nat (length (childNodes this)))%Z then
    appendChilds nodes callbackData this w
  else
    let refNode := at_index (childNodes this) index in
    let this' :=
Instance (splice index 0 nodes (childNodes this))
         (has_insertCB this) (has_removeCB this) in
finish tt this'
(requests
   (map (fun n => insertBefore n refNode) nodes ++
    (if has_insertCB this then map (fun n => insertCB n callbackData) nodes else []))%list
   w).

Definition removeChilds (index count : Z) (keepDom : bool)
    (this : instance) (w : world) : result world (list entry) :=
  if (count =? 0)%Z then Done [] this w
  else
    let nodes := slice index (index + count) (childNodes this) in
    let this' :=
Instance (splice index count [] (childNodes this))
         (has_insertCB this) (has_removeCB this) in
if keepDom then Done nodes this' w
else
finish nodes this'
  (requests
     (flat_map (fun n => (if has_removeCB this then [removeCB n] else []) ++
                         [removeChild n])%list nodes)
     w).

Definition clear (this : instance) (w : world) : result world unit :=
  match
    requests
      (flat_map (fun n => (if has_removeCB this then [removeCB n] else []) ++
                          [removeChild n])%list (childNodes this))
      w
  with
  | Returned w' => Done tt (Instance [] (has_insertCB this) (has_removeCB this)) w'
  | Threw w' => Raised this w'
  end.

End Class.

(** *** The child nodes of the target as the DOM keeps them *)

Module Dom.

Definition without (n : node) (kids : list node) : list node :=
  List.filter (fun m => negb (m =? n)) kids.

Definition is_child (n : node) (kids : list node) : bool :=
  existsb (fun m => m =? n) kids.

(** [kids] with [n] put before the child [ref]. *)
Fixpoint put_before (n ref : node) (kids : list node) : list node :=
  match kids with
  | [] => []
  | m :: kids' => if m =? ref then n :: m :: kids' else m :: put_before n ref kids'
  end.

(** The children of the target node after a request. A node is a
    child at most once: appending or inserting a child moves it.
    Removing, or inserting before, a node that is not a child
    throws, and so does passing [undefined] for a node. The
    callbacks leave the children alone. *)
Definition perform (r : request) (kids : list node) : reply (list node) :=
  match r with
  | appendChild (Some n) | insertBefore (Some n) None =>
      Returned (without n kids ++ [n])%list
  | insertBefore (Some n) (Some ref) =>
      if is_child ref kids then
        if n =? ref then Returned kids
        else Returned (put_before n ref (without n kids))
      else Threw kids
  | removeChild (Some n) =>
      if is_child n kids then Returned (without n kids) else Threw kids
  | appendChild None | insertBefore None _ | removeChild None => Threw kids
  | insertCB _ _ | removeCB _ => Returned kids
  end.

End Dom.

End VirtualChildNodes.

(** ** Vocabulary of the further properties *)


Module NodeProps.
Import Js VirtualChildNodes.

(** The proxy array holds the children of the target, in order. *)
Definition in_sync (this : instance) (kids : list node) : Prop :=
  childNodes this = map Some kids.


End NodeProps.

Module PathProps.
Import JsString JsNumber Js Compiler.

(** Null-safe navigation: from [v] along [keys], [undefined] as soon
    as the value to read from is [undefined] or [null]; [None] when a
    read is not determined. *)
Fixpoint walk (h : gmap loc object) (v : value) (keys : list string) : option value :=
  match keys with
  | [] => Some v
  | k :: ks =>
      if is_nullish v then Some VUndefined
      else match get h v k with
           | Some v' => walk h v' ks
           | None => None
           end
  end.



(** A name that an object inherits something under. *)
Definition inherited_name (k : string) : bool :=
  mem_string k ObjectLiteral.Object_prototype_members.

End PathProps.

Module ParseProps.
Import JsString JsNumber Js Compiler.

(** The texts that the parser looks for before it takes a token as
    a primary expression. *)
Definition leading_texts : list string :=
  ["}"; ")"; ";"; "]"; "+"; "-"; "!"; "("; "["; "{"].

(** The recursion budget that an expression of one token needs. *)
Definition one_token_deep : nat := 13.

End ParseProps.

Module LexProps.
Import JsString JsNumber Js Compiler.

(** A character of the body of a string literal that is neither
    the quote nor a backslash. *)
Definition unescaped (quote c : ascii) : bool :=
  negb (Ascii.eqb c quote) && negb (code c =? 92).

Definition is_quote (c : ascii) : bool := Ascii.eqb c "'" || Ascii.eqb c dquote.

(** [text] in quotes. *)
Definition in_quotes (quote : ascii) (body : string) : string :=
  String quote (String.append body (String quote EmptyString)).

(** A character that [readIdent] takes into a path. *)
Definition path_char (c : ascii) : bool :=
  Ascii.eqb c "." || Lexer.isIdent c || JsNumber.is_digit c.

End LexProps.

Module LiteralProps.
Import JsString ObjectLiteral Spec.

(** A word: not empty, without white space and special characters. *)
Definition word (w : string) : bool :=
  negb (String.eqb w EmptyString) && all_chars plain_char w.

(** The object literal [k1: v1, k2: v2, ...]. *)
Fixpoint render (pairs : list (string * string)) : string :=
  match pairs with
  | [] => EmptyString
  | (k, v) :: rest =>
      String.append k (String.append ": " (String.append v
        match rest with
        | [] => EmptyString
        | _ :: _ => String.append ", " (render rest)
        end))
  end.

Definition pair_token (p : string * string) : IObjectLiteralToken :=
  KeyValue (fst p) (snd p).

Definition words (p : string * string) : bool := word (fst p) && word (snd p).

(** Where a run of plain characters stops: at the end of the text or
    at a special character. *)
Definition stops (rest : string) : Prop :=
  rest = EmptyString \/ exists c r, rest = String c r /\ is_special c = true.

End LiteralProps.

Module SafetyProps.
Import JsString JsNumber Js Compiler.

(** An object that [ensureSafeObject] refuses: a function that is
    its own constructor, or something that looks like the window
    or like a DOM element. *)
Fixpoint fields (h : gmap loc object) (obj : value) (keys : list string) : option bool :=
  match keys with
  | [] => Some true
  | k :: rest =>
      match get h obj k with
      | Some v => if truthy v then fields h obj rest else Some false
      | None => None
      end
  end.

Definition unsafe (h : gmap loc object) (obj : value) : option bool :=
  if truthy obj then
    match get h obj "constructor" with
    | None => None
    | Some c =>
        if strict_equal c obj then Some true
        else
          match fields h obj ["document"; "location"; "alert"; "setInterval"] with
          | None => None
          | Some true => Some true
          | Some false =>
              match fields h obj ["children"] with
              | None => None
              | Some false => Some false
              | Some true =>
                  match fields h obj ["nodeName"] with
                  | None => None
                  | Some true => Some true
                  | Some false => fields h obj ["prop"; "attr"; "find"]
                  end
              end
          end
    end
  else Some false.

End SafetyProps.

Module CacheProps.
Import JsString JsNumber Js Compiler.

(** A getter cache whose entries are what [getterFn] builds: under
    a path of up to five segments the closure compiled for the
    path, under a longer path the chunked getter of its segments. *)
Definition faithful (cache : getter_cache) : Prop :=
  forall path getter,
    entries cache !! path = Some getter ->
    if length (split_dot path) <? 6
    then forall fullExp, compile_getter path fullExp = inr getter
    else exists fullExp, getter = ChunkedGetter (split_dot path) fullExp.

End CacheProps.

Module CallProps.
Import JsString JsNumber Js Compiler.
Import Parser.

(** A compiled function that contains no function call. *)
Fixpoint call_free (c : closure) : bool :=
  match c with
  | FunctionCall _ _ _ _ => false
  | Identifier getter _ _ => call_free getter
  | UnaryFn fn rhs =>
      match fn with Some f => call_free f | None => true end && call_free rhs
  | TernaryFn lhs middle rhs => call_free lhs && call_free middle && call_free rhs
  | BinaryFn lhs fn rhs =>
      call_free lhs && match fn with Some f => call_free f | None => true end
      && call_free rhs
  | Statements statements => forallb call_free statements
  | Filter _ argsFn => forallb call_free argsFn
  | Assignment lhs rhs => call_free lhs && call_free rhs
  | FieldAccess object _ getter _ => call_free object && call_free getter
  | ObjectIndex obj indexFn _ => call_free obj && call_free indexFn
  | ArrayDeclaration elementFns => forallb call_free elementFns
  | ObjectDeclaration keyValues => forallb (fun kv => call_free (snd kv)) keyValues
  | Operator _ | NumberLiteral _ | StringLiteral _ | Zero
  | SimpleGetter1 _ | SimpleGetter2 _ _ | CspSafeGetter _ _ _ _ _ | ChunkedGetter _ _ => true
  end.

Definition token_free (t : token) : bool :=
  match fn t with Some f => call_free f | None => true end.

Definition cache_free (cache : getter_cache) : Prop :=
  forall path getter, entries cache !! path = Some getter -> call_free getter = true.

Definition tokens_free (toks : list token) : Prop := forallb token_free toks = true.

Definition maybe_free (o : option token) : Prop :=
  match o with Some t => token_free t = true | None => True end.

(** What the parser works on holds no function call. *)
Definition state_free (st : parser_state) : Prop :=
  forallb token_free (tokens st) = true /\ cache_free (getterFnCache st).

(** Whenever [m] returns from a state that satisfies [I], the result
    satisfies [Q] and the state still satisfies [I]. *)
Definition keeps {S A : Type} (I : S -> Prop) (Q : A -> Prop) (m : ST S A) : Prop :=
  forall st, I st ->
    match m st with
    | Ret a st' => Q a /\ I st'
    | _ => True
    end.

Definition compiled_free (c : compiled) : Prop := call_free (closure_of c) = true.
Definition closures_free (cs : list closure) : Prop := forallb call_free cs = true.
Definition pairs_free (kvs : list (value * closure)) : Prop :=
  forallb (fun kv => call_free (snd kv)) kvs = true.

(** The methods of a parser that only build functions without
    function calls (from parts without function calls). *)
Record call_free_parser (this : methods) : Prop := CallFreeParser {
  cf_filterChain : keeps state_free compiled_free (filterChain_ this);
  cf_filterChain_loop :
    forall left, compiled_free left ->
      keeps state_free compiled_free (filterChain_loop_ this left);
  cf_filter : keeps state_free compiled_free (filter_ this);
  cf_filter_loop :
    forall fn argsFn, closures_free argsFn ->
      keeps state_free compiled_free (filter_loop_ this fn argsFn);
  cf_expression : keeps state_free compiled_free (expression_ this);
  cf_assignment : keeps state_free compiled_free (assignment_ this);
  cf_ternary : keeps state_free compiled_free (ternary_ this);
  cf_logicalOR : keeps state_free compiled_free (logicalOR_ this);
  cf_logicalOR_loop :
    forall left, compiled_free left ->
      keeps state_free compiled_free (logicalOR_loop_ this left);
  cf_logicalAND : keeps state_free compiled_free (logicalAND_ this);
  cf_equality : keeps state_free compiled_free (equality_ this);
  cf_relational : keeps state_free compiled_free (relational_ this);
  cf_additive : keeps state_free compiled_free (additive_ this);
  cf_additive_loop :
    forall left, compiled_free left ->
      keeps state_free compiled_free (additive_loop_ this left);
  cf_multiplicative : keeps state_free compiled_free (multiplicative_ this);
  cf_multiplicative_loop :
    forall left, compiled_free left ->
      keeps state_free compiled_free (multiplicative_loop_ this left);
  cf_unary : keeps state_free compiled_free (unary_ this);
  cf_primary : keeps state_free compiled_free (primary_ this);
  cf_primary_loop :
    forall primary context, compiled_free primary ->
      keeps state_free compiled_free (primary_loop_ this primary context);
  cf_objectIndex :
    forall obj, call_free obj = true ->
      keeps state_free compiled_free (objectIndex_ this obj);
  cf_functionCall :
    forall fn contextGetter,
      keeps state_free compiled_free (functionCall_ this fn contextGetter);
  cf_functionCall_loop :
    forall argsFn, closures_free argsFn ->
      keeps state_free closures_free (functionCall_loop_ this argsFn);
  cf_arrayDeclaration : keeps state_free compiled_free (arrayDeclaration_ this);
  cf_arrayDeclaration_loop :
    forall elementFns allConstant, closures_free elementFns ->
      keeps state_free (fun r => closures_free (fst r))
        (arrayDeclaration_loop_ this elementFns allConstant);
  cf_object : keeps state_free compiled_free (object_ this);
  cf_object_loop :
    forall keyValues allConstant, pairs_free keyValues ->
      keeps state_free (fun r => pairs_free (fst r))
        (object_loop_ this keyValues allConstant);
  cf_statements_loop :
    forall statements, Forall compiled_free statements ->
      keeps state_free compiled_free (statements_loop_ this statements)
}.

End CallProps.

(** ** Strings *)

Module StringFacts.
Import JsString Compiler.

Lemma append_cons c s t : String.append (String c s) t = String c (String.append s t).
Proof. reflexivity. Qed.

Lemma append_empty s : String.append s EmptyString = s.
Proof.
  induction s as [|c s IH]; [reflexivity|]. rewrite append_cons. f_equal. exact IH.
Qed.

Lemma append_assoc s t u :
  String.append (String.append s t) u = String.append s (String.append t u).
Proof.
  induction s as [|c s IH]; [reflexivity|]. rewrite !append_cons. f_equal. exact IH.
Qed.

Lemma length_append s t :
  String.length (String.append s t) = String.length s + String.length t.
Proof.
  induction s as [|c s IH]; [reflexivity|].
  rewrite append_cons. cbn [String.length Nat.add]. f_equal. exact IH.
Qed.

Lemma get_append pre c suf :
  String.get (String.length pre) (String.append pre (String c suf)) = Some c.
Proof.
  induction pre as [|d pre IH]; [reflexivity|].
  rewrite append_cons. cbn [String.length String.get]. exact IH.
Qed.

Lemma keep_append s t : keep (String.length s) (String.append s t) = s.
Proof.
  induction s as [|c s IH]; [destruct t; reflexivity|].
  rewrite append_cons. cbn [String.length keep]. f_equal. exact IH.
Qed.

Lemma skip_append s t : skip (String.length s) (String.append s t) = t.
Proof.
  induction s as [|c s IH]; [destruct t; reflexivity|].
  rewrite append_cons. cbn [String.length skip]. exact IH.
Qed.

Lemma append_snoc pre c suf :
  String.append pre (String c suf) = String.append (Lexer.snoc pre c) suf.
Proof.
  unfold Lexer.snoc. induction pre as [|d pre IH]; [reflexivity|].
  rewrite !append_cons. f_equal. exact IH.
Qed.

Lemma length_snoc pre c : String.length (Lexer.snoc pre c) = String.length pre + 1.
Proof. unfold Lexer.snoc. rewrite length_append. reflexivity. Qed.

End StringFacts.

(** ** What objects inherit *)

Module InheritFacts.
Import JsString JsNumber ObjectLiteral Js Compiler Spec PathProps.

Ltac name_cases k :=
  repeat match goal with
         | |- context [String.eqb k ?s] =>
             destruct (String.eqb_spec k s); [subst k|]
         | H : context [String.eqb k ?s] |- _ =>
             destruct (String.eqb_spec k s); [subst k|]
         end.

(** An object literal reads a built-in object under the names of
    the members of [Object.prototype], and [undefined] under every
    other name that it does not own. *)
Lemma inherited_by_objects k :
  (inherited_name k = true ->
   exists n, inherited OfObject k = Some (VNative n))
  /\ (inherited_name k = false -> inherited OfObject k = Some VUndefined).
Proof.
  unfold inherited_name, inherited, Object_prototype_members, mem_string, methods,
    undetermined. cbn [existsb].
  split; intros H; name_cases k; cbn in H |- *;
    try discriminate; try (eexists; reflexivity); try reflexivity.
Qed.

Lemma inherited_truthy k n : inherited OfObject k = Some (VNative n) -> inherited_name k = true.
Proof.
  intros H. destruct (inherited_name k) eqn:E; [reflexivity|].
  apply inherited_by_objects in E. congruence.
Qed.

(** A name under which no kind of value has an undetermined
    property reads [undefined] on every object that does not own it
    and inherits nothing under it. *)
Lemma hookField_inherited b : inherited b hookField = Some VUndefined.
Proof. destruct b; reflexivity. Qed.

Lemma hasOwnProperty_inherited b :
  inherited b "hasOwnProperty" = Some (VNative (Method OfObject "hasOwnProperty")).
Proof. destruct b; reflexivity. Qed.





End InheritFacts.

(** ** Properties of the object-literal tokenizer *)

Module TokenizerFacts.
Import JsString JsNumber ObjectLiteral Js Compiler Compiler.Lexer Spec StringFacts.

Lemma plain_char_facts c :
  plain_char c = true ->
  is_space c = false /\ is_special c = false /\ char_in c ":,/" = false
  /\ Ascii.eqb c dquote = false /\ Ascii.eqb c "'" = false /\ Ascii.eqb c "/" = false
  /\ is_key_code (Some (code c)) = true.
Proof.
  destruct c as [[] [] [] [] [] [] [] []]; vm_compute; intros H;
    try discriminate H; repeat split.
Qed.

Lemma plain_run_plain s :
  all_chars plain_char s = true -> plain_run s = (s, EmptyString).
Proof.
  induction s as [|c s IH]; simpl; [reflexivity|].
  intros H. apply andb_prop in H as [Hc Hs].
  destruct (plain_char_facts c Hc) as (_ & -> & _).
  rewrite (IH Hs). reflexivity.
Qed.

Lemma trim_right_aux_plain c s :
  all_chars plain_char (String c s) = true ->
  trim_right_aux (String c s) = Some (String c s).
Proof.
  revert c. induction s as [|d s IH]; intros c H.
  - simpl in *. apply andb_prop in H as [Hc _].
    destruct (plain_char_facts c Hc) as (-> & _). reflexivity.
  - change (trim_right_aux (String c (String d s)))
      with (match trim_right_aux (String d s) with
            | Some t => Some (String c t)
            | None => if is_space c then None else Some (String c EmptyString)
            end).
    simpl in H. apply andb_prop in H as [_ H].
    rewrite (IH d H). reflexivity.
Qed.

Lemma skip_all s : skip (String.length s) s = EmptyString.
Proof. induction s; simpl; auto. Qed.

Lemma trim_plain c s :
  all_chars plain_char (String c s) = true -> trim (String c s) = String c s.
Proof.
  intros H. unfold trim.
  assert (trim_left (String c s) = String c s) as ->.
  { simpl in *. apply andb_prop in H as [Hc _].
    destruct (plain_char_facts c Hc) as (-> & _). reflexivity. }
  unfold trim_right. rewrite (trim_right_aux_plain c s H). reflexivity.
Qed.

Lemma bindingToken_at_plain c s :
  all_chars plain_char (String c s) = true ->
  bindingToken_at (String c s) = Some (String c s, EmptyString).
Proof.
  intros H. pose proof H as H0. simpl in H0. apply andb_prop in H0 as [Hc Hs].
  destruct (plain_char_facts c Hc) as (Hsp & _ & Hcolon & Hq & Ha & Hsl & _).
  unfold bindingToken_at. rewrite Hq, Ha, Hsl.
  unfold everyThingElse. rewrite Hsp, Hcolon. simpl.
  rewrite (plain_run_plain s Hs).
  destruct s as [|d s].
  - simpl. reflexivity.
  - rewrite (trim_right_aux_plain d s Hs). rewrite skip_all. reflexivity.
Qed.

Lemma str_match_plain c s :
  all_chars plain_char (String c s) = true ->
  str_match (String c s) = [String c s].
Proof.
  intros H. unfold str_match. simpl String.length.
  cbn [match_all]. rewrite (bindingToken_at_plain c s H).
  destruct (String.length s); reflexivity.
Qed.

(** One turn of the [for] loop. *)
Lemma scan_cons fuel str tok rest prev st :
  scan fuel str (tok :: rest) prev st =
  match loop_body prev tok st with
  | Continue st' => scan fuel str rest (Some tok) st'
  | Reparse st' =>
      match fuel with
      | O => Exhausted
      | S fuel' =>
          let str' :=
            skip (match indexOf tok str with Some i => i + 1 | None => 0 end) str in
          match str_match str' with
          | [] => NullTokens
          | toks' => scan fuel' str' (toks' ++ [","])%list None st'
          end
      end
  end.
Proof. destruct fuel; reflexivity. Qed.

Lemma scan_nil fuel str prev st : scan fuel str [] prev st = Tokens (result st).
Proof. destruct fuel; reflexivity. Qed.

Lemma loop_body_key prev tok d r :
  key_token prev tok = true ->
  loop_body prev tok (ScanState None None d r)
  = Continue (ScanState (Some (key_of tok)) None d r).
Proof.
  unfold key_token, loop_body, key_of. intros H.
  apply negb_true_iff in H.
  repeat (apply orb_false_iff in H as [H ?]).
  repeat match goal with H : _ = false |- _ => rewrite H; clear H end.
  simpl. reflexivity.
Qed.

Lemma loop_body_comma_unknown prev k d r :
  (d <= 0)%Z -> k <> EmptyString ->
  loop_body prev "," (ScanState (Some k) None d r)
  = Continue (ScanState None None 0 (r ++ [Unknown k])).
Proof.
  intros Hd Hk. unfold loop_body. simpl.
  destruct (Z.leb_spec d 0); [|lia].
  destruct k; [congruence|]. reflexivity.
Qed.

Lemma loop_body_comma_empty prev d r :
  (d <= 0)%Z ->
  loop_body prev "," (ScanState (Some EmptyString) None d r)
  = Continue (ScanState None None 0 r).
Proof.
  intros Hd. unfold loop_body. simpl.
  destruct (Z.leb_spec d 0); [reflexivity|lia].
Qed.

Lemma loop_body_colon_skip prev k d r :
  loop_body prev ":" (ScanState k None d r) = Continue (ScanState k None d r).
Proof. reflexivity. Qed.

(** A key alone, or a key followed by a bare colon, ends as an
    [unknown] token, unless it is empty: then it leaves no token. *)
Lemma scan_key_without_value fuel str prev tok rest d r :
  key_token prev tok = true ->
  (d <= 0)%Z ->
  let r' := if String.eqb (key_of tok) EmptyString then r
            else (r ++ [Unknown (key_of tok)])%list in
  scan fuel str (tok :: "," :: rest) prev (ScanState None None d r)
  = scan fuel str rest (Some ",") (ScanState None None 0 r')
  /\ scan fuel str (tok :: ":" :: "," :: rest) prev (ScanState None None d r)
     = scan fuel str rest (Some ",") (ScanState None None 0 r').
Proof.
  intros Hk Hd r'. subst r'.
  destruct (String.eqb_spec (key_of tok) EmptyString) as [He|Hne]; split.
  - rewrite scan_cons, loop_body_key by assumption. rewrite He.
    rewrite scan_cons, loop_body_comma_empty by assumption. reflexivity.
  - rewrite scan_cons, loop_body_key by assumption. rewrite He.
    rewrite scan_cons, loop_body_colon_skip.
    rewrite scan_cons, loop_body_comma_empty by assumption. reflexivity.
  - rewrite scan_cons, loop_body_key by assumption.
    rewrite scan_cons, loop_body_comma_unknown by assumption. reflexivity.
  - rewrite scan_cons, loop_body_key by assumption.
    rewrite scan_cons, loop_body_colon_skip.
    rewrite scan_cons, loop_body_comma_unknown by assumption. reflexivity.
Qed.

Lemma unknown_for_plain_key c s :
  all_chars plain_char (String c s) = true ->
  parseObjectLiteral (String c s) = Tokens [Unknown (String c s)].
Proof.
  intros H. unfold parseObjectLiteral.
  rewrite (trim_plain c s H).
  pose proof H as H0. simpl in H0. apply andb_prop in H0 as [Hc Hs].
  destruct (plain_char_facts c Hc) as (_ & _ & _ & _ & _ & _ & Hk).
  unfold is_key_code in Hk. apply negb_true_iff in Hk.
  repeat (apply orb_false_iff in Hk as [Hk ?]).
  assert (is_code (charCodeAt0 (String c s)) 123 = false) as -> by (simpl; assumption).
  rewrite (str_match_plain c s H). cbn [app].
  rewrite scan_cons, loop_body_key.
  2:{ unfold key_token. simpl charCodeAt0.
      repeat match goal with H : _ = false |- _ => rewrite H; clear H end. reflexivity. }
  rewrite scan_cons.
  unfold key_of. simpl charCodeAt0.
  repeat match goal with H : _ = false |- _ => rewrite H; clear H end. simpl orb. cbv iota.
  rewrite loop_body_comma_unknown by (lia || congruence).
  rewrite scan_nil. reflexivity.
Qed.

(** C9, as stated, fails. The quoted key [''] has no following
    [:value], yet the result carries no [unknown] token for it: once
    the quotes are stripped the key is empty, and the loop drops a
    pair whose key is empty. *)
Lemma C9_empty_key_yields_no_token :
  key_token None "''" = true
  /\ key_of "''" = EmptyString
  /\ parseObjectLiteral "'', b: 2" = Tokens [KeyValue "b" "2"]
  /\ carries_unknown (parseObjectLiteral "'', b: 2") (key_of "''") = false.
Proof. repeat split; vm_compute; reflexivity. Qed.

(** C9, amended. [parseObjectLiteral("foo: 1, 'bar-baz': 2")] returns
    the two pairs [foo]/[1] and [bar-baz]/[2], in this order, the
    quotes of the quoted key being stripped. A pair whose key has no
    following [:value] (the key alone, or the key and a bare colon)
    yields an [unknown] token in place of the key, with value
    [undefined], when the key, its quotes stripped, is not empty; and
    no token at all when it is empty (the quoted keys [''] and [""]).
    This holds at the level of the scanning loop for every key
    token, and at the level of the text for every key made of
    characters that are neither white space nor special. *)
Theorem C9_parseObjectLiteral_pairs :
  parseObjectLiteral "foo: 1, 'bar-baz': 2"
  = Tokens [KeyValue "foo" "1"; KeyValue "bar-baz" "2"]
  /\ (forall fuel str prev tok rest d r,
        key_token prev tok = true ->
        (d <= 0)%Z ->
        let r' := if String.eqb (key_of tok) EmptyString then r
                  else (r ++ [Unknown (key_of tok)])%list in
        scan fuel str (tok :: "," :: rest) prev (ScanState None None d r)
        = scan fuel str rest (Some ",") (ScanState None None 0 r')
        /\ scan fuel str (tok :: ":" :: "," :: rest) prev (ScanState None None d r)
           = scan fuel str rest (Some ",") (ScanState None None 0 r'))
  /\ (forall c s,
        all_chars plain_char (String c s) = true ->
        parseObjectLiteral (String c s) = Tokens [Unknown (String c s)])
  /\ parseObjectLiteral "a, 'b c': , d: 1"
     = Tokens [Unknown "a"; Unknown "b c"; KeyValue "d" "1"]
  /\ parseObjectLiteral "a, '': , d: 1" = Tokens [Unknown "a"; KeyValue "d" "1"].
Proof.
  split; [vm_compute; reflexivity|].
  split; [intros; apply scan_key_without_value; assumption|].
  split; [apply unknown_for_plain_key|].
  split; vm_compute; reflexivity.
Qed.

Lemma C9_parseObjectLiteral_pairs_witness :
  (key_token None "'k'" = true /\ (0 <= 0)%Z
   /\ scan 1 "'k'" ["'k'"; ","] None (ScanState None None 0 [])
      = scan 1 "'k'" [] (Some ",") (ScanState None None 0 [Unknown "k"]))
  /\ (key_token None "''" = true /\ (0 <= 0)%Z
      /\ scan 1 "''" ["''"; ","] None (ScanState None None 0 [])
         = scan 1 "''" [] (Some ",") (ScanState None None 0 []))
  /\ (all_chars plain_char "visible" = true
      /\ parseObjectLiteral "visible" = Tokens [Unknown "visible"]).
Proof.
  destruct C9_parseObjectLiteral_pairs as (_ & Hscan & Htext & _).
  split; [|split].
  - split; [reflexivity|]. split; [lia|].
    apply (Hscan 1 "'k'" None "'k'" [] 0%Z []); [reflexivity | lia].
  - split; [reflexivity|]. split; [lia|].
    apply (Hscan 1 "''" None "''" [] 0%Z []); [reflexivity | lia].
  - split; [reflexivity|]. apply (Htext "v"%char "isible"). reflexivity.
Defined.

(** *** The slash rule *)












End TokenizerFacts.

(** ** Properties of the caches *)

Module CacheFacts.
Import JsString JsNumber Js Compiler Spec PathProps InheritFacts.

Lemma store_getter_plain path fn cache :
  path <> "__proto__" ->
  prototype cache = None ->
  store_getter path fn cache = Ret tt (GetterCache (<[path := fn]> (entries cache)) None).
Proof.
  intros Hp Hproto. unfold store_getter.
  destruct (String.eqb_spec path "__proto__"); [contradiction|].
  rewrite Hproto. reflexivity.
Qed.

Lemma store_getter_entry path fn cache cache' :
  store_getter path fn cache = Ret tt cache' ->
  path <> "hasOwnProperty" ->
  entries cache !! "hasOwnProperty" = None ->
  entries cache' !! "hasOwnProperty" = None.
Proof.
  unfold store_getter. intros H Hp Hinv.
  destruct (String.eqb path "__proto__"); [injection H as <-; exact Hinv|].
  destruct (prototype cache).
  - destruct (String.eqb path "length"); [discriminate|].
    destruct (mem_string path (undetermined OfFunction)); [discriminate|].
    injection H as <-. cbn [entries]. rewrite lookup_insert_ne by congruence. exact Hinv.
  - injection H as <-. cbn [entries]. rewrite lookup_insert_ne by congruence. exact Hinv.
Qed.

(** C10. The getter cache never holds an entry under the key
    [hasOwnProperty], and every call of [getterFn] keeps it so; the
    path [hasOwnProperty] is compiled afresh at every call and
    leaves the cache as it is; when a call throws, the cache is
    unchanged. A getter compiled for a path other than
    [hasOwnProperty] and [__proto__] is stored under the path and
    returned, without recompiling, by the later calls for this path
    (as long as the prototype of the cache is [Object.prototype]).
    But the getter compiled for the path [__proto__] is never
    stored: the assignment makes it the prototype of the cache, the
    cache gets no entry, and every call for this path compiles the
    getter again; from then on a call for the path [length] throws a
    [TypeError]. *)
Theorem C10_getter_cache_invariant (path fullExp : string) (cache : getter_cache) :
  entries cache !! "hasOwnProperty" = None ->
  (forall fn cache',
      getterFn (VString path) fullExp cache = Ret fn cache' ->
      entries cache' !! "hasOwnProperty" = None)
  /\ (forall e cache',
        getterFn (VString path) fullExp cache = Throw e cache' -> cache' = cache)
  /\ getterFn (VString "hasOwnProperty") fullExp cache
     = Ret (SimpleGetter1 "hasOwnProperty") cache
  /\ (path <> "hasOwnProperty" -> path <> "__proto__" -> prototype cache = None ->
      ((exists fn cache', getterFn (VString path) fullExp cache = Ret fn cache')
       \/ (exists e, getterFn (VString path) fullExp cache = Throw e cache))
      /\ forall fn cache',
           getterFn (VString path) fullExp cache = Ret fn cache' ->
           entries cache' !! path = Some fn
           /\ prototype cache' = None
           /\ forall fullExp', getterFn (VString path) fullExp' cache' = Ret fn cache')
  /\ (entries cache !! "__proto__" = None ->
      let fn := SimpleGetter1 "__proto__" in
      let cache' := GetterCache (entries cache) (Some fn) in
      getterFn (VString "__proto__") fullExp cache = Ret fn cache'
      /\ entries cache' !! "__proto__" = None
      /\ getterFn (VString "__proto__") fullExp cache' = Ret fn cache'
      /\ (entries cache !! "length" = None ->
          exists message,
            getterFn (VString "length") fullExp cache' = Throw (TypeError message) cache')).
Proof.
  intros Hinv. unfold getterFn. cbn [to_string]. rewrite Hinv.
  split; [|split; [|split; [|split]]].
  - intros fn cache' H.
    destruct (entries cache !! path) as [fn0|] eqn:Hhit.
    + injection H as <- <-. exact Hinv.
    + destruct (compile_getter path fullExp) as [e|fn1]; [discriminate|].
      destruct (String.eqb_spec path "hasOwnProperty") as [->|Hne].
      * injection H as <- <-. exact Hinv.
      * unfold bind in H.
        destruct (store_getter path fn1 cache) as [[] c| | |] eqn:Es; try discriminate.
        injection H as <- <-. eapply store_getter_entry; eassumption.
  - intros e cache' H.
    destruct (entries cache !! path) as [fn0|] eqn:Hhit; [discriminate|].
    destruct (compile_getter path fullExp) as [e1|fn1]; [congruence|].
    destruct (String.eqb path "hasOwnProperty"); [discriminate|].
    unfold bind in H. unfold store_getter in H.
    destruct (String.eqb path "__proto__"); [discriminate|].
    destruct (prototype cache); [|discriminate].
    destruct (String.eqb path "length"); [congruence|].
    destruct (mem_string path (undetermined OfFunction)); discriminate.
  - reflexivity.
  - intros Hne Hnp Hproto. split.
    + destruct (entries cache !! path); [left; eauto|].
      destruct (compile_getter path fullExp); [right; eauto|].
      destruct (String.eqb_spec path "hasOwnProperty"); [contradiction|].
      unfold bind. rewrite store_getter_plain by assumption. left; eauto.
    + intros fn cache' H.
      destruct (entries cache !! path) as [fn0|] eqn:Hhit.
      * injection H as <- <-. split; [assumption|]. split; [assumption|].
        intros fullExp'. rewrite Hinv, Hhit. reflexivity.
      * destruct (compile_getter path fullExp) as [e|fn1]; [discriminate|].
        destruct (String.eqb_spec path "hasOwnProperty"); [contradiction|].
        unfold bind in H. rewrite store_getter_plain in H by assumption.
        injection H as <- <-. cbn [entries prototype].
        split; [apply lookup_insert_eq|]. split; [reflexivity|].
        intros fullExp'. rewrite lookup_insert_ne by congruence.
        rewrite Hinv, lookup_insert_eq. reflexivity.
  - intros Hmiss. cbv zeta. cbn [entries prototype].
    rewrite Hinv, Hmiss. split; [reflexivity|]. split; [reflexivity|].
    split; [reflexivity|].
    intros Hlen. rewrite Hlen. eexists. reflexivity.
Qed.

Lemma C10_getter_cache_invariant_witness :
  entries (∅ : getter_cache) !! "hasOwnProperty" = None
  /\ getterFn (VString "a.b") "a.b + 1" ∅
     = Ret (SimpleGetter2 "a" "b") (GetterCache (<["a.b" := SimpleGetter2 "a" "b"]> ∅) None)
  /\ entries (GetterCache (<["a.b" := SimpleGetter2 "a" "b"]> ∅) None) !! "hasOwnProperty"
     = None
  /\ getterFn (VString "a.b") "a.b - 1" (GetterCache (<["a.b" := SimpleGetter2 "a" "b"]> ∅) None)
     = Ret (SimpleGetter2 "a" "b") (GetterCache (<["a.b" := SimpleGetter2 "a" "b"]> ∅) None)
  /\ getterFn (VString "hasOwnProperty") "hasOwnProperty" ∅
     = Ret (SimpleGetter1 "hasOwnProperty") ∅
  /\ getterFn (VString "__proto__") "__proto__" ∅
     = Ret (SimpleGetter1 "__proto__") (GetterCache ∅ (Some (SimpleGetter1 "__proto__")))
  /\ getterFn (VString "__proto__") "__proto__"
       (GetterCache ∅ (Some (SimpleGetter1 "__proto__")))
     = Ret (SimpleGetter1 "__proto__") (GetterCache ∅ (Some (SimpleGetter1 "__proto__")))
  /\ exists message,
       getterFn (VString "length") "length" (GetterCache ∅ (Some (SimpleGetter1 "__proto__")))
       = Throw (TypeError message) (GetterCache ∅ (Some (SimpleGetter1 "__proto__"))).
Proof.
  assert (entries (∅ : getter_cache) !! "hasOwnProperty" = None) as Hempty
    by apply lookup_empty.
  assert (getterFn (VString "a.b") "a.b + 1" ∅
          = Ret (SimpleGetter2 "a" "b")
              (GetterCache (<["a.b" := SimpleGetter2 "a" "b"]> ∅) None)) as Hrun
    by reflexivity.
  destruct (C10_getter_cache_invariant "a.b" "a.b + 1" ∅ Hempty)
    as (Hkeep & _ & _ & Hstored & _).
  destruct Hstored as (_ & Hstored); [discriminate | discriminate | reflexivity |].
  destruct (Hstored _ _ Hrun) as (_ & _ & Hagain).
  destruct (C10_getter_cache_invariant "__proto__" "__proto__" ∅ Hempty)
    as (_ & _ & Hown & _ & Hproto).
  destruct Hproto as (Hfirst & _ & Hsecond & Hlength); [apply lookup_empty|].
  split; [exact Hempty|]. split; [exact Hrun|].
  split; [exact (Hkeep _ _ Hrun)|]. split; [apply Hagain|].
  split; [exact Hown|]. split; [exact Hfirst|]. split; [exact Hsecond|].
  apply Hlength. apply lookup_empty.
Defined.

(** C8. [compileExpression] throws a [TypeError] whenever [src] is
    not a string. Without a cache every call parses the source. With
    a cache, an entry that the cache owns under the source text is
    returned without parsing; and for a source text that is not the
    name of a member of [Object.prototype], the source is parsed and,
    when parsing succeeds, the result is stored under the source text
    and returned. But when the source text is such a name
    ([toString], [valueOf], [constructor], ...) and the cache owns no
    entry for it, the lookup finds the member that the cache
    inherits: this member is returned in the place of a compiled
    expression, the source is not parsed and nothing is stored. *)
Theorem C8_compileExpression_memo (fuel : nat) (h : gmap loc object)
    (options : option Compiler.options) (getters : getter_cache) :
  (forall src cache,
      is_string src = false ->
      exists message,
        compileExpression fuel h src options cache getters
        = Throw (TypeError message) getters)
  /\ (forall src cache cached,
        cache !! src = Some cached ->
        compileExpression fuel h (VString src) options (Some cache) getters
        = Ret (Expression cached, Some cache) getters)
  /\ (forall src cache,
        cache !! src = None ->
        inherited_name src = false ->
        compileExpression fuel h (VString src) options (Some cache) getters
        = match Parser.parse src (default (Options ∅ false) options) fuel getters with
          | Ret value getters' => Ret (Expression value, Some (<[src := value]> cache)) getters'
          | Throw e getters' => Throw e getters'
          | Unmodelled why => Unmodelled why
          | OutOfFuel => OutOfFuel
          end)
  /\ (forall src,
        compileExpression fuel h (VString src) options None getters
        = match Parser.parse src (default (Options ∅ false) options) fuel getters with
          | Ret value getters' => Ret (Expression value, None) getters'
          | Throw e getters' => Throw e getters'
          | Unmodelled why => Unmodelled why
          | OutOfFuel => OutOfFuel
          end)
  /\ (forall src cache,
        cache !! src = None ->
        inherited_name src = true ->
        exists member,
          compileExpression fuel h (VString src) options (Some cache) getters
          = Ret (Inherited (VNative member), Some cache) getters)
  /\ compileExpression fuel h (VString "toString") options (Some ∅) getters
     = Ret (Inherited (VNative (Method OfObject "toString")), Some ∅) getters.
Proof.
  split; [|split; [|split; [|split; [|split]]]].
  - intros src cache Hsrc. destruct src; try discriminate; eexists; reflexivity.
  - intros src cache cached Hhit. unfold compileExpression. rewrite Hhit. reflexivity.
  - intros src cache Hmiss Hname. unfold compileExpression. rewrite Hmiss.
    destruct (inherited_by_objects src) as [_ Hu]. rewrite (Hu Hname). cbn [truthy].
    unfold bind. destruct (Parser.parse _ _ _ _); reflexivity.
  - intros src. unfold compileExpression, bind.
    destruct (Parser.parse _ _ _ _); reflexivity.
  - intros src cache Hmiss Hname. unfold compileExpression. rewrite Hmiss.
    destruct (inherited_by_objects src) as [Hn _]. destruct (Hn Hname) as [n En].
    rewrite En. exists n. reflexivity.
  - reflexivity.
Qed.

Lemma C8_compileExpression_memo_witness :
  (is_string (VNumber (of_Z 1)) = false
   /\ exists message,
        compileExpression deep_enough ∅ (VNumber (of_Z 1)) None None ∅
        = Throw (TypeError message) ∅)
  /\ ((<["1" := Compiled Zero true true]> (∅ : gmap string compiled)) !! "1"
      = Some (Compiled Zero true true)
      /\ compileExpression deep_enough ∅ (VString "1") None
           (Some (<["1" := Compiled Zero true true]> ∅)) ∅
         = Ret (Expression (Compiled Zero true true),
                Some (<["1" := Compiled Zero true true]> ∅)) ∅)
  /\ ((∅ : gmap string compiled) !! "1" = None
      /\ inherited_name "1" = false
      /\ compileExpression deep_enough ∅ (VString "1") None (Some ∅) ∅
         = Ret (Expression (Compiled (NumberLiteral (of_Z 1)) true true),
                Some (<["1" := Compiled (NumberLiteral (of_Z 1)) true true]> ∅)) ∅)
  /\ compileExpression deep_enough ∅ (VString "1") None None ∅
     = Ret (Expression (Compiled (NumberLiteral (of_Z 1)) true true), None) ∅
  /\ ((∅ : gmap string compiled) !! "valueOf" = None
      /\ inherited_name "valueOf" = true
      /\ exists member,
           compileExpression deep_enough ∅ (VString "valueOf") None (Some ∅) ∅
           = Ret (Inherited (VNative member), Some ∅) ∅).
Proof.
  destruct (C8_compileExpression_memo deep_enough ∅ None ∅)
    as (Htype & Hhit & Hmiss & Hnone & Hinherit & _).
  split; [|split; [|split; [|split]]].
  - split; [reflexivity|]. apply Htype. reflexivity.
  - split; [apply lookup_insert_eq|]. apply Hhit. apply lookup_insert_eq.
  - split; [apply lookup_empty|]. split; [reflexivity|].
    rewrite (Hmiss "1" ∅ (lookup_empty _) eq_refl).
    vm_compute. reflexivity.
  - rewrite (Hnone "1"). vm_compute. reflexivity.
  - split; [apply lookup_empty|]. split; [reflexivity|].
    apply Hinherit; [apply lookup_empty | reflexivity].
Defined.

End CacheFacts.

(** ** Properties of compiled expressions *)

Module EvalFacts.
Import JsString JsNumber Js Compiler Spec InheritFacts.

Lemma sub_zero_l n : JsNumber.sub (of_Z 0) n = JsNumber.neg n.
Proof.
  destruct n as [|s|q]; try reflexivity.
  unfold JsNumber.sub, JsNumber.neg, JsNumber.add, of_Z, fin.
  f_equal. apply Qred_complete. rewrite Qred_correct. ring.
Qed.

Lemma key_truthy_ok k : segment_ok k = true -> key_truthy (Some k) = true.
Proof. destruct k; [discriminate | reflexivity]. Qed.

Lemma ensureSafe_ok k fullExp :
  segment_ok k = true -> ensureSafeMemberName (Some k) fullExp = None.
Proof.
  unfold segment_ok, ensureSafeMemberName. intros H.
  apply andb_prop in H as [_ H]. apply negb_true_iff in H. rewrite H. reflexivity.
Qed.

Lemma ensureSafe_lookup (keys : list string) i fullExp :
  forallb segment_ok keys = true -> ensureSafeMemberName (keys !! i) fullExp = None.
Proof.
  intros H. destruct (keys !! i) as [k|] eqn:E; [|reflexivity].
  apply ensureSafe_ok. rewrite forallb_forall in H. apply H.
  apply list_elem_of_In. eapply list_elem_of_lookup_2. exact E.
Qed.

Lemma cspSafeGetterFn_ok (keys : list string) i fullExp :
  forallb segment_ok keys = true ->
  cspSafeGetterFn (keys !! i) (keys !! (i + 1)) (keys !! (i + 2))
                  (keys !! (i + 3)) (keys !! (i + 4)) fullExp
  = inr (CspSafeGetter (keys !! i) (keys !! (i + 1)) (keys !! (i + 2))
                       (keys !! (i + 3)) (keys !! (i + 4))).
Proof.
  intros H. unfold cspSafeGetterFn. rewrite !ensureSafe_lookup by assumption. reflexivity.
Qed.

Lemma steps_gap h (ks : list string) pad v k0 :
  forallb segment_ok ks = true ->
  gap h v (k0 :: ks) = true ->
  exists x, get h v k0 = Some x /\ steps_direct h (map Some ks ++ pad) x = Some VUndefined.
Proof.
  revert v k0. induction ks as [|k1 ks IH]; intros v k0 Hok Hgap.
  - discriminate.
  - simpl in Hok. apply andb_prop in Hok as [Hk1 Hok].
    cbn [gap] in Hgap.
    destruct (get h v k0) as [x|] eqn:E; [|discriminate].
    exists x. split; [reflexivity|].
    cbn [map app steps_direct]. rewrite (key_truthy_ok _ Hk1). cbn [negb].
    destruct (is_nullish x) eqn:En; [reflexivity|].
    destruct (IH x k1 Hok Hgap) as (x' & E' & Hsteps).
    cbn [key_name default]. unfold id. rewrite E'. exact Hsteps.
Qed.

Lemma truthy_not_nullish v : truthy v = true -> is_nullish v = false.
Proof. destruct v; try discriminate; reflexivity. Qed.

Lemma get_member_some v k x st :
  is_nullish v = false -> get (heap st) v k = Some x -> get_member v k st = Ret x st.
Proof. intros Hv Hg. unfold get_member. rewrite Hv, Hg. reflexivity. Qed.

Lemma hookless_empty h v : empty_object h v -> hookless h v.
Proof. intros (l & -> & Hl). right. exists l, (Object ∅ None false). auto. Qed.

Lemma own_missing h l o k :
  h !! l = Some o -> hasOwnProperty h (VObject l) k = false -> own o !! k = None.
Proof.
  intros Hl H. unfold hasOwnProperty in H. rewrite Hl in H.
  destruct (own o !! k) eqn:E; [|reflexivity].
  apply bool_decide_eq_false in H. exfalso. apply H. eauto.
Qed.

(** A [locals] without hooks that owns neither [hasOwnProperty] nor
    the key does not shadow the key. *)
Lemma shadows_plain h locals k :
  hookless h locals ->
  hasOwnProperty h locals "hasOwnProperty" = false ->
  hasOwnProperty h locals k = false ->
  (forall b, mem_string k (undetermined b) = false) ->
  shadows h locals k = Some false.
Proof.
  intros [->|(l & o & -> & Hl & _)] Hm Hk Hu; [reflexivity|].
  unfold shadows. cbn [truthy]. unfold get. rewrite Hl.
  rewrite (own_missing h l o _ Hl Hm), hasOwnProperty_inherited. cbn [strict_equal].
  change (native_eqb (Method OfObject "hasOwnProperty") (Method OfObject "hasOwnProperty"))
    with true. cbv iota.
  unfold own_property. rewrite Hl.
  rewrite (own_missing h l o _ Hl Hk).
  rewrite bool_decide_eq_false_2 by (intros [? ?]; discriminate).
  rewrite Hu. reflexivity.
Qed.

Lemma shadows_empty h v k : empty_object h v -> shadows h v k = Some false.
Proof.
  intros (l & -> & Hl). unfold shadows. cbn [truthy]. unfold get. rewrite Hl.
  cbn [own]. rewrite lookup_empty. cbn [kind is_array callable].
  rewrite hasOwnProperty_inherited. cbn [strict_equal].
  change (native_eqb (Method OfObject "hasOwnProperty") (Method OfObject "hasOwnProperty"))
    with true. cbv iota.
  unfold own_property. rewrite Hl. cbn [own kind is_array callable undetermined].
  rewrite lookup_empty. reflexivity.
Qed.

(** The expressions of the examples, as the parser compiles them in
    a fresh process. *)
Lemma compiled_sum :
  exists cache,
    Parser.parse "a+b" no_options deep_enough ∅
    = Ret (Compiled (binary OpAdd (Identifier (SimpleGetter1 "a") "a" "a+b")
                                  (Identifier (SimpleGetter1 "b") "b" "a+b"))
                    false false) cache.
Proof. eexists. vm_compute. reflexivity. Qed.

Lemma compiled_difference :
  exists cache,
    Parser.parse "a-b" no_options deep_enough ∅
    = Ret (Compiled (binary OpSub (Identifier (SimpleGetter1 "a") "a" "a-b")
                                  (Identifier (SimpleGetter1 "b") "b" "a-b"))
                    false false) cache.
Proof. eexists. vm_compute. reflexivity. Qed.

Lemma compiled_path :
  exists cache,
    Parser.parse "a.b.c" no_options deep_enough ∅
    = Ret (Compiled (Identifier (CspSafeGetter (Some "a") (Some "b") (Some "c") None None)
                                "a.b.c" "a.b.c")
                    false false) cache.
Proof. eexists. vm_compute. reflexivity. Qed.

Lemma compiled_assignment :
  exists cache,
    Parser.parse "a.b = 5" no_options deep_enough ∅
    = Ret (Compiled (Assignment (Identifier (SimpleGetter2 "a" "b") "a.b" "a.b = 5")
                                (NumberLiteral (of_Z 5)))
                    false false) cache.
Proof. eexists. vm_compute. reflexivity. Qed.

Lemma compiled_comparison :
  exists cache,
    Parser.parse "1 == '1'" no_options deep_enough ∅
    = Ret (Compiled (binary OpEq (NumberLiteral (of_Z 1)) (StringLiteral "1"))
                    true false) cache.
Proof. eexists. vm_compute. reflexivity. Qed.

Section WithHost.

Variable host : nat -> value -> list value -> M value.

Lemma evaluate_compiled src e cache scope locals st :
  Parser.parse src no_options deep_enough ∅ = Ret e cache ->
  evaluate host src scope locals st = call host (closure_of e) scope locals [] st.
Proof. intros H. unfold evaluate. rewrite H. reflexivity. Qed.

Lemma getRuntimeHooks_hookless st locals :
  hookless (heap st) locals -> getRuntimeHooks locals st = Ret VUndefined st.
Proof.
  intros [->|(l & o & -> & Hl & Hh)]; [reflexivity|].
  unfold getRuntimeHooks, get_member, get. simpl. rewrite Hl, Hh.
  rewrite hookField_inherited. reflexivity.
Qed.

(** The object a getter starts from. *)
Lemma path_root_shadows k scope locals st (b : bool) :
  shadows (heap st) locals k = Some b ->
  path_root host k scope locals st = Ret (if b then locals else scope) st.
Proof.
  unfold shadows, path_root. destruct (truthy locals) eqn:Et.
  - intros H. unfold bind, owns, bind, get_member.
    rewrite (truthy_not_nullish _ Et).
    destruct (get (heap st) locals "hasOwnProperty") as [f|]; [|discriminate].
    destruct (strict_equal f (VNative (Method OfObject "hasOwnProperty")));
      [|discriminate].
    rewrite H. reflexivity.
  - intros [= <-]. reflexivity.
Qed.

Lemma simple_getter1_direct key0 scope locals st (b : bool) :
  let root := if b then locals else scope in
  is_nullish root = false ->
  hookless (heap st) locals ->
  shadows (heap st) locals key0 = Some b ->
  simple_getter1 host key0 scope locals st = get_member root key0 st.
Proof.
  intros root Hs Hh Ho. unfold simple_getter1, bind.
  rewrite (path_root_shadows _ _ _ _ _ Ho). fold root. rewrite Hs.
  rewrite (getRuntimeHooks_hookless _ _ Hh). reflexivity.
Qed.

Lemma simple_getter2_direct key0 key1 scope locals st (b : bool) :
  let root := if b then locals else scope in
  hookless (heap st) locals ->
  shadows (heap st) locals key0 = Some b ->
  simple_getter2 host key0 key1 scope locals st
  = (let* x := get_member root key0 in
     if is_nullish x then ret VUndefined else get_member x key1) st.
Proof.
  intros root Hh Ho. unfold simple_getter2, bind.
  rewrite (getRuntimeHooks_hookless _ _ Hh). cbn [has_hook truthy ret].
  rewrite (path_root_shadows _ _ _ _ _ Ho). reflexivity.
Qed.

Lemma csp_steps_direct hooks keys v st r :
  steps_direct (heap st) keys v = Some r ->
  csp_steps host false hooks keys v st = Ret r st.
Proof.
  revert v. induction keys as [|k keys IH]; intros v H.
  - injection H as <-. reflexivity.
  - cbn [csp_steps steps_direct] in *.
    destruct (negb (key_truthy k)); [injection H as <-; reflexivity|].
    destruct (is_nullish v) eqn:E; [injection H as <-; reflexivity|].
    destruct (get (heap st) v (key_name k)) as [x|] eqn:Eg; [|discriminate].
    unfold bind, read_field. rewrite (get_member_some _ _ _ _ E Eg). apply IH. exact H.
Qed.

Lemma csp_getter_direct k0 k1 k2 k3 k4 scope locals st (b : bool) :
  let root := if b then locals else scope in
  hookless (heap st) locals ->
  shadows (heap st) locals (key_name k0) = Some b ->
  csp_getter host k0 k1 k2 k3 k4 scope locals st
  = (if is_nullish root then ret root
     else let* v := get_member root (key_name k0) in
          csp_steps host false VUndefined [k1; k2; k3; k4] v) st.
Proof.
  intros root Hh Ho. unfold csp_getter, bind.
  rewrite (path_root_shadows _ _ _ _ _ Ho). fold root.
  rewrite (getRuntimeHooks_hookless _ _ Hh). cbn [has_hook truthy ret].
  destruct (is_nullish root); reflexivity.
Qed.

(** Reading a path of up to five segments with a missing
    intermediate value yields [undefined]. *)
Lemma path_read_gap path fullExp scope locals st (b : bool) :
  let keys := split_dot path in
  let root := if b then locals else scope in
  length keys < 6 ->
  forallb segment_ok keys = true ->
  hookless (heap st) locals ->
  shadows (heap st) locals (first_key keys) = Some b ->
  is_nullish root = false ->
  gap (heap st) root keys = true ->
  exists getter,
    compile_getter path fullExp = inr getter
    /\ call host getter scope locals [] st = Ret VUndefined st.
Proof.
  intros keys root Hlen Hok Hh Ho Hs Hgap. unfold compile_getter. fold keys.
  destruct keys as [|k0 [|k1 ks]] eqn:Ek; try discriminate.
  cbn [first_key head default] in Ho. unfold id in Ho.
  pose proof Hok as Hok'. simpl in Hok'.
  apply andb_prop in Hok' as [H0 Hoks].
  destruct (steps_gap (heap st) (k1 :: ks) (replicate (4 - length (k1 :: ks)) None)
              root k0 Hoks Hgap) as (x & Ex & Hsteps).
  destruct ks as [|k2 ks].
  - (* two segments *)
    simpl in Hoks. apply andb_prop in Hoks as [H1 _].
    unfold simpleGetterFn2. rewrite !ensureSafe_ok by assumption.
    eexists. split; [reflexivity|].
    cbn [call]. rewrite (simple_getter2_direct _ _ _ _ _ _ Hh Ho). fold root.
    unfold bind. rewrite (get_member_some _ _ _ _ Hs Ex).
    cbn [gap] in Hgap. rewrite Ex in Hgap.
    destruct (is_nullish x); [reflexivity|discriminate].
  - (* three to five segments *)
    assert ((length (k0 :: k1 :: k2 :: ks) <? 6) = true) as ->
      by (apply Nat.ltb_lt; exact Hlen).
    pose proof (cspSafeGetterFn_ok (k0 :: k1 :: k2 :: ks) 0 fullExp Hok) as Hcsp.
    cbn [Nat.add] in Hcsp. rewrite Hcsp. clear Hcsp.
    eexists. split; [reflexivity|].
    cbn [call].
    assert (key_name ((k0 :: k1 :: k2 :: ks) !! 0) = k0) as Ek0 by reflexivity.
    rewrite (csp_getter_direct _ _ _ _ _ _ _ _ b Hh)
      by (rewrite Ek0; exact Ho).
    fold root. rewrite Hs, Ek0. unfold bind.
    rewrite (get_member_some _ _ _ _ Hs Ex).
    apply csp_steps_direct.
    destruct ks as [|k3 [|k4 [|k5 ks]]]; cbn [length] in Hlen; try lia; exact Hsteps.
Qed.

(** C7. For every pair of operand expressions and every scope and
    locals, [==] evaluates both operands in order and yields their
    strict equality, [!=] its negation, exactly as [===] and [!==]
    do; the number [1] and the string ['1'] are not strictly equal,
    so [1 == '1'] evaluates to [false]. *)
Theorem C7_equality_is_strict (a b : closure) (self locals : value) (st : state) :
  OPERATORS "==" = Some OpEq /\ OPERATORS "!=" = Some OpNe
  /\ call host (binary OpEq a b) self locals [] st
     = both host a b self locals (fun x y => ret (VBoolean (strict_equal x y))) st
  /\ call host (binary OpNe a b) self locals [] st
     = both host a b self locals (fun x y => ret (VBoolean (negb (strict_equal x y)))) st
  /\ call host (binary OpEq a b) self locals [] st
     = call host (binary OpStrictEq a b) self locals [] st
  /\ call host (binary OpNe a b) self locals [] st
     = call host (binary OpStrictNe a b) self locals [] st
  /\ strict_equal (VNumber (of_Z 1)) (VString "1") = false
  /\ evaluate host "1 == '1'" self locals st = Ret (VBoolean false) st
  /\ evaluate host "1 === '1'" self locals st = Ret (VBoolean false) st
  /\ evaluate host "1 != '1'" self locals st = Ret (VBoolean true) st.
Proof.
  repeat match goal with |- _ /\ _ => split end; reflexivity.
Qed.

(** C5. For every scope and locals, binary [+] returns the other
    operand unchanged when an operand evaluates to [undefined], and
    binary [-] puts [0] in the place of an [undefined] operand, so
    that [undefined - n] is [-n] for a number [n]; in particular
    [a+b] evaluates to [5] and [a-b] to [-5] on the scope
    [{a: undefined, b: 5}] with locals that carry no hooks, have
    the built-in [hasOwnProperty] and own neither [a] nor [b]
    (such as [{}]). *)
Theorem C5_additive_identity_defaults (a b : closure) (self locals : value) (st : state) :
  (forall st1 st2 y,
      call host a self locals [] st = Ret VUndefined st1 ->
      call host b self locals [] st1 = Ret y st2 ->
      call host (binary OpAdd a b) self locals [] st = Ret y st2)
  /\ (forall st1 st2 x,
        call host a self locals [] st = Ret x st1 ->
        call host b self locals [] st1 = Ret VUndefined st2 ->
        call host (binary OpAdd a b) self locals [] st = Ret x st2)
  /\ (forall st1 st2 x y,
        call host a self locals [] st = Ret x st1 ->
        call host b self locals [] st1 = Ret y st2 ->
        call host (binary OpSub a b) self locals [] st
        = js_arith JsNumber.sub (if isDefined x then x else VNumber (of_Z 0))
                                (if isDefined y then y else VNumber (of_Z 0)) st2)
  /\ (forall st1 st2 n,
        call host a self locals [] st = Ret VUndefined st1 ->
        call host b self locals [] st1 = Ret (VNumber n) st2 ->
        call host (binary OpSub a b) self locals [] st
        = Ret (VNumber (JsNumber.neg n)) st2)
  /\ (is_nullish self = false ->
      get (heap st) self "a" = Some VUndefined ->
      get (heap st) self "b" = Some (VNumber (of_Z 5)) ->
      hookless (heap st) locals ->
      hasOwnProperty (heap st) locals "hasOwnProperty" = false ->
      hasOwnProperty (heap st) locals "a" = false ->
      hasOwnProperty (heap st) locals "b" = false ->
      evaluate host "a+b" self locals st = Ret (VNumber (of_Z 5)) st
      /\ evaluate host "a-b" self locals st = Ret (VNumber (of_Z (-5))) st).
Proof.
  repeat match goal with |- _ /\ _ => split end.
  - intros st1 st2 y Ha Hb. cbn. unfold bind. cbn. rewrite Ha, Hb.
    destruct y; reflexivity.
  - intros st1 st2 x Ha Hb. cbn. unfold bind. cbn. rewrite Ha, Hb.
    destruct x; reflexivity.
  - intros st1 st2 x y Ha Hb. cbn. unfold bind. cbn. rewrite Ha, Hb. reflexivity.
  - intros st1 st2 n Ha Hb. cbn -[JsNumber.sub]. unfold bind. cbn -[JsNumber.sub].
    rewrite Ha, Hb. cbn -[JsNumber.sub JsNumber.neg of_Z].
    rewrite sub_zero_l. reflexivity.
  - intros Hs Ha Hb Hh Hm Hoa Hob.
    assert (shadows (heap st) locals "a" = Some false) as Hsa
      by (apply shadows_plain; try assumption; intros []; reflexivity).
    assert (shadows (heap st) locals "b" = Some false) as Hsb
      by (apply shadows_plain; try assumption; intros []; reflexivity).
    pose proof (simple_getter1_direct "a" self locals st false Hs Hh Hsa) as Hga.
    pose proof (simple_getter1_direct "b" self locals st false Hs Hh Hsb) as Hgb.
    cbv beta iota zeta in Hga, Hgb.
    rewrite (get_member_some _ _ _ _ Hs Ha) in Hga.
    rewrite (get_member_some _ _ _ _ Hs Hb) in Hgb.
    split.
    + destruct compiled_sum as [cache Hc].
      rewrite (evaluate_compiled _ _ _ _ _ _ Hc).
      cbn. unfold bind. cbn. rewrite Hga, Hgb. reflexivity.
    + destruct compiled_difference as [cache Hc].
      rewrite (evaluate_compiled _ _ _ _ _ _ Hc).
      cbn. unfold bind. cbn. rewrite Hga, Hgb. reflexivity.
Qed.

(** C6. On the scope [{a: {b: {c: 5}}}] the expression [a.b.c]
    evaluates to [5]; on the scope [{a: {}}] it evaluates to
    [undefined] and does not throw. For a path of up to five
    segments read without hooks, a missing intermediate value (a
    property that further segments follow and that reads as
    [undefined] or [null]) makes the whole read return
    [undefined], the state being left as it is; the read starts
    from [locals] when [locals] shadows the first segment and from
    the scope otherwise. But for a path of six segments or more
    the read does not always short-circuit: on the scope [{a: {}}]
    the expression [a.b.c.d.e.f] throws a [TypeError] when it is
    evaluated without locals, and evaluates to [2] with the locals
    [{f: 2}]; it evaluates to [undefined] with the locals [{}]. *)
Theorem C6_path_read_short_circuits (scope locals : value) (st : state) :
  (forall la lb,
      get (heap st) scope "a" = Some (VObject la) ->
      get (heap st) (VObject la) "b" = Some (VObject lb) ->
      get (heap st) (VObject lb) "c" = Some (VNumber (of_Z 5)) ->
      hookless (heap st) locals ->
      shadows (heap st) locals "a" = Some false ->
      evaluate host "a.b.c" scope locals st = Ret (VNumber (of_Z 5)) st)
  /\ (forall la,
        get (heap st) scope "a" = Some (VObject la) ->
        get (heap st) (VObject la) "b" = Some VUndefined ->
        hookless (heap st) locals ->
        shadows (heap st) locals "a" = Some false ->
        evaluate host "a.b.c" scope locals st = Ret VUndefined st)
  /\ (forall path fullExp (shadowed : bool),
        let root := if shadowed then locals else scope in
        length (split_dot path) < 6 ->
        forallb segment_ok (split_dot path) = true ->
        hookless (heap st) locals ->
        shadows (heap st) locals (first_key (split_dot path)) = Some shadowed ->
        is_nullish root = false ->
        gap (heap st) root (split_dot path) = true ->
        exists getter,
          compile_getter path fullExp = inr getter
          /\ call host getter scope locals [] st = Ret VUndefined st)
  /\ (exists message,
        evaluate host "a.b.c.d.e.f" (VObject 4%positive) VUndefined (State sample_heap [])
        = Throw (TypeError message) (State sample_heap []))
  /\ result_of (evaluate host "a.b.c.d.e.f" (VObject 4%positive) (VObject 8%positive)
                  (State sample_heap []))
     = Some (VNumber (of_Z 2))
  /\ result_of (evaluate host "a.b.c.d.e.f" (VObject 4%positive) (VObject 7%positive)
                  (State sample_heap []))
     = Some VUndefined.
Proof.
  split; [|split; [|split; [|split; [|split]]]].
  - intros la lb Ha Hb Hc Hh Ho.
    assert (is_nullish scope = false) as Hs
      by (destruct scope; try discriminate; reflexivity).
    destruct compiled_path as [cache Hp].
    rewrite (evaluate_compiled _ _ _ _ _ _ Hp).
    cbn [closure_of call].
    rewrite (csp_getter_direct (Some "a") (Some "b") (Some "c") None None
               scope locals st false Hh Ho).
    rewrite Hs. unfold bind. cbn [key_name default]. unfold id.
    rewrite (get_member_some _ _ _ _ Hs Ha).
    apply csp_steps_direct.
    cbn [steps_direct key_truthy negb is_nullish key_name default]. unfold id.
    rewrite Hb. cbn [is_nullish]. rewrite Hc. reflexivity.
  - intros la Ha Hb Hh Ho.
    assert (is_nullish scope = false) as Hs
      by (destruct scope; try discriminate; reflexivity).
    destruct compiled_path as [cache Hp].
    rewrite (evaluate_compiled _ _ _ _ _ _ Hp).
    cbn [closure_of call].
    rewrite (csp_getter_direct (Some "a") (Some "b") (Some "c") None None
               scope locals st false Hh Ho).
    rewrite Hs. unfold bind. cbn [key_name default]. unfold id.
    rewrite (get_member_some _ _ _ _ Hs Ha).
    apply csp_steps_direct.
    cbn [steps_direct key_truthy negb is_nullish key_name default]. unfold id.
    rewrite Hb. reflexivity.
  - intros path fullExp shadowed root. apply path_read_gap.
  - eexists. vm_compute. reflexivity.
  - vm_compute. reflexivity.
  - vm_compute. reflexivity.
Qed.

(** C3. When [a.b = 5] is compiled and evaluated on a scope whose
    [a] is an object, with locals that carry runtime hooks with a
    [writeFieldHook] which only records its calls (and no
    [readFieldHook]), the hook is called exactly once, with the
    object [scope.a], the key [b] and the value [5]; the store is
    not written to, so [scope.a.b] keeps its value; the expression
    evaluates to [5]. *)
Theorem C3_assignment_goes_through_write_hook
    (scope locals : value) (st : state) (ll lh lw la : loc)
    (olocals ohooks ow : object) (w : nat) :
  locals = VObject ll ->
  heap st !! ll = Some olocals ->
  own olocals !! hookField = Some (VObject lh) ->
  heap st !! lh = Some ohooks ->
  own ohooks !! "writeFieldHook" = Some (VObject lw) ->
  own ohooks !! "readFieldHook" = None ->
  heap st !! lw = Some ow ->
  callable ow = Some w ->
  (forall this args st0, exists r, host w this args st0 = Ret r st0) ->
  get (heap st) scope "a" = Some (VObject la) ->
  exists st',
    evaluate host "a.b = 5" scope locals st = Ret (VNumber (of_Z 5)) st'
    /\ calls st'
       = (calls st ++ [(lw, VObject lh, [VObject la; VString "b"; VNumber (of_Z 5)])])%list
    /\ heap st' = heap st
    /\ get (heap st') (VObject la) "b" = get (heap st) (VObject la) "b".
Proof.
  intros -> Hll Hhook Hlh Hwrite Hread Hlw Hw Hrec Ha.
  assert (is_nullish scope = false) as Hs by (destruct scope; try discriminate; reflexivity).
  destruct (Hrec (VObject lh) [VObject la; VString "b"; VNumber (of_Z 5)]
              (State (heap st)
                 (calls st ++ [(lw, VObject lh, [VObject la; VString "b"; VNumber (of_Z 5)])])))
    as [r Hr].
  exists (State (heap st)
            (calls st ++ [(lw, VObject lh, [VObject la; VString "b"; VNumber (of_Z 5)])])).
  split; [|split; [reflexivity|split; reflexivity]].
  destruct compiled_assignment as [cache Hp].
  rewrite (evaluate_compiled _ _ _ _ _ _ Hp).
  assert (get (heap st) (VObject lh) "readFieldHook" = Some VUndefined) as Hgr.
  { unfold get. rewrite Hlh, Hread. destruct (kind ohooks); reflexivity. }
  assert (get (heap st) (VObject lh) "writeFieldHook" = Some (VObject lw)) as Hgw
    by (unfold get; rewrite Hlh, Hwrite; reflexivity).
  assert (get (heap st) (VObject ll) hookField = Some (VObject lh)) as Hgh
    by (unfold get; rewrite Hll, Hhook; reflexivity).
  assert (forall name x,
             get (heap st) (VObject lh) name = Some x ->
             has_hook (VObject lh) name st = Ret (truthy x) st) as Hhas.
  { intros name x Hx. unfold has_hook. cbn [truthy]. unfold bind.
    rewrite (get_member_some (VObject lh) name x st eq_refl Hx). reflexivity. }
  cbn [closure_of call assign]. unfold bind at 1. cbn [ret].
  unfold setter. unfold bind at 1.
  unfold getRuntimeHooks. rewrite (get_member_some (VObject ll) _ _ st eq_refl Hgh).
  change (split_dot "a.b") with ["a"; "b"].
  unfold bind at 1. cbn [setter_walk].
  change (ensureSafeMemberName (Some "a") "a.b = 5") with (@None error).
  cbv iota. unfold bind at 1. rewrite (Hhas _ _ Hgr).
  cbn [truthy]. unfold bind at 1. unfold read_field.
  change (key_name (Some "a")) with "a". rewrite (get_member_some _ _ _ _ Hs Ha).
  cbn [truthy]. unfold bind at 1. cbn [ret].
  change (ensureSafeMemberName (Some "b") "a.b = 5") with (@None error). cbv iota.
  unfold bind at 1. rewrite (Hhas _ _ Hgw).
  cbn [truthy]. unfold bind at 1. unfold bind at 1.
  unfold call_method. unfold bind at 1.
  rewrite (get_member_some (VObject lh) _ _ st eq_refl Hgw). unfold call_function. rewrite Hlw.
  destruct ow as [props c arr]. cbn [callable] in Hw. subst c.
  cbn [key_value heap calls]. cbv [of_Z inject_Z] in Hr |- *. rewrite Hr. reflexivity.
Qed.

(** C2. Compiling [x.constructor] raises the reserved-name error
    at compile time, and [x()] compiles and raises the
    function-object error when it is evaluated with [x] bound to a
    value whose [constructor] is the value itself; the two errors
    differ. But the static check does not cover every dotted path:
    [a.b.c.d.e.constructor] compiles, and the reserved-name error
    is raised only when the compiled expression is evaluated. *)
Theorem C2_reserved_name_checked_late_for_long_paths :
  Parser.parse "x.constructor" no_options deep_enough ∅
  = Throw (SyntaxError isecfld_message [VString "x.constructor"]) ∅
  /\ (exists e cache, Parser.parse "x()" no_options deep_enough ∅ = Ret e cache)
  /\ evaluate host "x()" (VObject 1%positive) (VObject 3%positive) (State function_heap [])
     = Throw (SyntaxError isecfn_message [VString "x()"]) (State function_heap [])
  /\ isecfld_message <> isecfn_message
  /\ (exists cache,
        Parser.parse "a.b.c.d.e.constructor" no_options deep_enough ∅
        = Ret (Compiled
                 (Identifier
                    (ChunkedGetter ["a"; "b"; "c"; "d"; "e"; "constructor"]
                       "a.b.c.d.e.constructor")
                    "a.b.c.d.e.constructor" "a.b.c.d.e.constructor")
                 false false) cache)
  /\ error_of (evaluate host "a.b.c.d.e.constructor" (VObject 1%positive)
                 (VObject 8%positive) (State nested_heap []))
     = Some (SyntaxError isecfld_message [VString "a.b.c.d.e.constructor"]).
Proof.
  split; [vm_compute; reflexivity|].
  split; [eexists _, _; vm_compute; reflexivity|].
  split; [vm_compute; reflexivity|].
  split; [discriminate|].
  split; [eexists; vm_compute; reflexivity|].
  vm_compute. reflexivity.
Qed.

(** C1. The getter for six segments or more restores [locals] from
    the snapshot before each chunk of five keys, so the first key
    of every chunk is looked up in [locals] first: on the scope
    [{a: {b: {c: {d: {e: {f: 1}}}}}}] with locals [{f: 2}] the path
    [a.b.c.d.e.f] reads [2], the sixth segment being resolved
    against [locals]. With locals [{}] it reads [1], and so does
    the five-segment path [b.c.d.e.f] on the scope [scope.a] with
    locals [{f: 2}]. *)
Theorem C1_locals_shadow_the_first_key_of_every_chunk :
  (exists cache,
      getterFn (VString "a.b.c.d.e.f") "a.b.c.d.e.f" ∅
      = Ret (ChunkedGetter ["a"; "b"; "c"; "d"; "e"; "f"] "a.b.c.d.e.f") cache)
  /\ hasOwnProperty nested_heap (VObject 7%positive) "f" = true
  /\ result_of (evaluate host "a.b.c.d.e.f" (VObject 1%positive) (VObject 7%positive)
                  (State nested_heap []))
     = Some (VNumber (of_Z 2))
  /\ result_of (evaluate host "a.b.c.d.e.f" (VObject 1%positive) (VObject 8%positive)
                  (State nested_heap []))
     = Some (VNumber (of_Z 1))
  /\ result_of (evaluate host "b.c.d.e.f" (VObject 2%positive) (VObject 7%positive)
                  (State nested_heap []))
     = Some (VNumber (of_Z 1)).
Proof.
  split; [eexists; vm_compute; reflexivity|].
  repeat split; vm_compute; reflexivity.
Qed.

End WithHost.

Lemma C5_additive_identity_defaults_witness :
  call quiet_host
    (binary OpSub (Identifier (SimpleGetter1 "a") "a" "a-7") (NumberLiteral (of_Z 7)))
    (VObject 6%positive) (VObject 7%positive) [] (State sample_heap [])
  = Ret (VNumber (JsNumber.neg (of_Z 7))) (State sample_heap [])
  /\ evaluate quiet_host "a+b" (VObject 6%positive) (VObject 7%positive) (State sample_heap [])
     = Ret (VNumber (of_Z 5)) (State sample_heap [])
  /\ evaluate quiet_host "a-b" (VObject 6%positive) (VObject 7%positive) (State sample_heap [])
     = Ret (VNumber (of_Z (-5))) (State sample_heap []).
Proof.
  destruct (C5_additive_identity_defaults quiet_host
              (Identifier (SimpleGetter1 "a") "a" "a-7") (NumberLiteral (of_Z 7))
              (VObject 6%positive) (VObject 7%positive) (State sample_heap []))
    as (_ & _ & _ & Hneg & Hsample).
  split.
  - apply (Hneg (State sample_heap [])); vm_compute; reflexivity.
  - apply Hsample.
    + reflexivity.
    + vm_compute; reflexivity.
    + vm_compute; reflexivity.
    + right. exists 7%positive, (record []).
      split; [reflexivity|]. split; vm_compute; reflexivity.
    + vm_compute; reflexivity.
    + vm_compute; reflexivity.
    + vm_compute; reflexivity.
Defined.

Lemma C6_path_read_short_circuits_witness :
  evaluate quiet_host "a.b.c" (VObject 1%positive) VUndefined (State sample_heap [])
  = Ret (VNumber (of_Z 5)) (State sample_heap [])
  /\ evaluate quiet_host "a.b.c" (VObject 4%positive) (VObject 7%positive) (State sample_heap [])
     = Ret VUndefined (State sample_heap [])
  /\ exists getter,
       compile_getter "a.b.c.d.e" "a.b.c.d.e" = inr getter
       /\ call quiet_host getter (VObject 4%positive) VUndefined [] (State sample_heap [])
          = Ret VUndefined (State sample_heap []).
Proof.
  assert (hookless sample_heap (VObject 7%positive)) as Hh.
  { right. exists 7%positive, (record []).
    split; [reflexivity|]. split; vm_compute; reflexivity. }
  split; [|split].
  - apply (C6_path_read_short_circuits quiet_host (VObject 1%positive) VUndefined
             (State sample_heap [])) with (la := 2%positive) (lb := 3%positive);
      try (left; reflexivity); vm_compute; reflexivity.
  - apply (C6_path_read_short_circuits quiet_host (VObject 4%positive) (VObject 7%positive)
             (State sample_heap [])) with (la := 5%positive);
      try exact Hh; vm_compute; reflexivity.
  - apply (C6_path_read_short_circuits quiet_host (VObject 4%positive) VUndefined
             (State sample_heap [])) with (shadowed := false).
    + vm_compute; lia.
    + vm_compute; reflexivity.
    + left; reflexivity.
    + vm_compute; reflexivity.
    + reflexivity.
    + vm_compute; reflexivity.
Defined.

Lemma C3_assignment_goes_through_write_hook_witness :
  exists st',
    evaluate quiet_host "a.b = 5" (VObject 1%positive) (VObject 3%positive)
      (State hooked_heap [])
    = Ret (VNumber (of_Z 5)) st'
    /\ calls st'
       = ([] ++ [(5%positive, VObject 4%positive,
                  [VObject 2%positive; VString "b"; VNumber (of_Z 5)])])%list
    /\ heap st' = hooked_heap
    /\ get (heap st') (VObject 2%positive) "b" = get hooked_heap (VObject 2%positive) "b".
Proof.
  apply (C3_assignment_goes_through_write_hook quiet_host
           (VObject 1%positive) (VObject 3%positive) (State hooked_heap [])
           3%positive 4%positive 5%positive 2%positive
           (record [(hookField, VObject 4%positive)])
           (record [("writeFieldHook", VObject 5%positive)])
           (Object ∅ (Some 0) false) 0).
  - reflexivity.
  - vm_compute; reflexivity.
  - vm_compute; reflexivity.
  - vm_compute; reflexivity.
  - vm_compute; reflexivity.
  - vm_compute; reflexivity.
  - vm_compute; reflexivity.
  - reflexivity.
  - intros this args st0. exists VUndefined. reflexivity.
  - vm_compute; reflexivity.
Defined.

End EvalFacts.

(** ** Properties of the proxy of child nodes *)

Module NodeFacts.
Import Js VirtualChildNodes NodeProps.

Lemma relative_nat (i : Z) len :
  (0 <= i)%Z -> relative i len = Nat.min (Z.to_nat i) len.
Proof. intros H. unfold relative. destruct (Z.ltb_spec i 0); [lia | reflexivity]. Qed.

Lemma slice_nat {A} (i c : Z) (l : list A) :
  (0 <= i)%Z -> (0 <= c)%Z ->
  slice i (i + c) l = take (Z.to_nat c) (drop (Z.to_nat i) l).
Proof.
  intros Hi Hc. unfold slice. rewrite !relative_nat by lia.
  destruct (Nat.le_gt_cases (Z.to_nat i) (length l)) as [Hle|Hgt].
  - rewrite (Nat.min_l (Z.to_nat i)) by lia.
    destruct (Nat.le_gt_cases (Z.to_nat (i + c)) (length l)) as [Hle'|Hgt'].
    + rewrite Nat.min_l by lia. f_equal. lia.
    + rewrite Nat.min_r by lia.
      rewrite !take_ge; [reflexivity | rewrite length_drop; lia | rewrite length_drop; lia].
  - rewrite !drop_ge by lia. rewrite !take_nil. reflexivity.
Qed.

Lemma splice_nat {A} (i c : Z) (items l : list A) :
  (0 <= i)%Z -> (0 <= c)%Z ->
  splice i c items l
  = (take (Z.to_nat i) l ++ items ++ drop (Z.to_nat i + Z.to_nat c) l)%list.
Proof.
  intros Hi Hc. unfold splice. rewrite relative_nat by lia.
  rewrite Z.max_l by lia.
  destruct (Nat.le_gt_cases (Z.to_nat i) (length l)) as [Hle|Hgt].
  - rewrite (Nat.min_l (Z.to_nat i)) by lia.
    destruct (Nat.le_gt_cases (Z.to_nat c) (length l - Z.to_nat i)) as [Hle'|Hgt'].
    + rewrite Nat.min_l by lia. reflexivity.
    + rewrite Nat.min_r by lia. rewrite !(drop_ge l) by lia. reflexivity.
  - rewrite (Nat.min_r (Z.to_nat i)) by lia.
    rewrite !(take_ge l) by lia. rewrite !(drop_ge l) by lia. reflexivity.
Qed.

Lemma pushed nodes (l : list entry) :
  nodes <> [] ->
  (if 1 <? length nodes then (l ++ nodes)%list else (l ++ [mjoin (head nodes)])%list)
  = (l ++ nodes)%list.
Proof.
  intros H. destruct nodes as [|x [|y nodes]]; [congruence | reflexivity | reflexivity].
Qed.

Section AnyEnvironment.

Variable world : Type.
Variable perform : request -> world -> reply world.

(** X1. Whatever the environment does: when [insertChilds] has
    inserted nodes at an index within the proxy array and
    returned, [removeChilds] at this index, for as many nodes and
    with the DOM kept, returns exactly these nodes, restores the
    proxy array and asks nothing of the environment. Inserting
    no node at the end of the array is excluded: it does not
    leave the array as it was. *)
Theorem insertChilds_removeChilds_round_trip
    (index : Z) (nodes : list entry) (data : value) (this this' : instance) (w w' : world) :
  (0 <= index <= Z.of_nat (length (childNodes this)))%Z ->
  (nodes <> [] \/ index <> Z.of_nat (length (childNodes this))) ->
  insertChilds world perform index nodes data this w = Done tt this' w' ->
  removeChilds world perform index (Z.of_nat (length nodes)) true this' w'
  = Done nodes this w'.
Proof.
  intros Hi Hne Hins. destruct this as [l icb rcb]. cbn [childNodes] in *.
  unfold insertChilds, appendChilds in Hins. cbn [childNodes has_insertCB has_removeCB] in Hins.
  unfold removeChilds.
  destruct (Z.eqb_spec index (Z.of_nat (length l))) as [He|Hn].
  - destruct Hne as [Hne|Hne]; [|contradiction].
    rewrite (pushed nodes l Hne) in Hins.
    unfold finish in Hins. destruct (requests _ _ _ _) as [w1|w1]; [|discriminate].
    injection Hins as <- <-.
    destruct (Z.eqb_spec (Z.of_nat (length nodes)) 0) as [Hz|_].
    { destruct nodes; [congruence | simpl in Hz; lia]. }
    cbn [childNodes has_insertCB has_removeCB].
    rewrite slice_nat, splice_nat by lia.
    rewrite He, !Nat2Z.id.
    rewrite drop_app_length, take_app_length.
    rewrite take_ge by lia.
    rewrite drop_ge by (rewrite length_app; lia).
    rewrite !app_nil_r. reflexivity.
  - unfold finish in Hins. destruct (requests _ _ _ _) as [w1|w1]; [|discriminate].
    injection Hins as <- <-.
    rewrite splice_nat by lia. change (Z.to_nat 0) with 0. rewrite Nat.add_0_r.
    set (n := Z.to_nat index).
    assert (n < length l) as Hn' by lia.
    destruct (Z.eqb_spec (Z.of_nat (length nodes)) 0) as [Hz|Hz].
    + destruct nodes; [|simpl in Hz; lia].
      cbn [app]. rewrite take_drop. reflexivity.
    + cbn [childNodes has_insertCB has_removeCB].
      rewrite slice_nat, splice_nat by lia. fold n. rewrite Nat2Z.id.
      assert (length (take n l) = n) as Hlen by (rewrite length_take; lia).
      set (l' := (take n l ++ nodes ++ drop n l)%list).
      assert (drop n l' = (nodes ++ drop n l)%list) as E1
        by (unfold l'; apply drop_app_length'; symmetry; exact Hlen).
      assert (take n l' = take n l) as E2
        by (unfold l'; apply take_app_length'; symmetry; exact Hlen).
      assert (drop (n + length nodes) l' = drop n l) as E3.
      { rewrite <- drop_drop, E1. apply drop_app_length. }
      rewrite E1, E2, E3, take_app_length. cbn [app]. rewrite take_drop. reflexivity.
Qed.

End AnyEnvironment.

(** *** With the DOM as the environment *)

Lemma requests_app world perform (a b : list request) (w : world) :
  requests world perform (a ++ b) w
  = match requests world perform a w with
    | Returned w' => requests world perform b w'
    | Threw w' => Threw w'
    end.
Proof.
  revert w. induction a as [|r a IH]; intros w; [reflexivity|].
  cbn [app requests]. destruct (perform r w); [apply IH | reflexivity].
Qed.

Lemma without_fresh n kids : ~ In n kids -> Dom.without n kids = kids.
Proof.
  unfold Dom.without. induction kids as [|m kids IH]; intros H; [reflexivity|].
  cbn [List.filter].
  destruct (Nat.eqb_spec m n) as [->|Hne]; [exfalso; apply H; left; reflexivity|].
  cbn [negb]. f_equal. apply IH. intros Hin. apply H. right. exact Hin.
Qed.

Lemma without_here n pre post :
  ~ In n pre -> ~ In n post -> Dom.without n (pre ++ n :: post) = (pre ++ post)%list.
Proof.
  intros Hpre Hpost. unfold Dom.without. rewrite List.filter_app. cbn [List.filter].
  rewrite Nat.eqb_refl. cbn [negb].
  pose proof (without_fresh n pre Hpre) as H1.
  pose proof (without_fresh n post Hpost) as H2.
  unfold Dom.without, node in *. rewrite H1, H2. reflexivity.
Qed.

Lemma is_child_In n kids : Dom.is_child n kids = true <-> In n kids.
Proof.
  unfold Dom.is_child. rewrite existsb_exists. split.
  - intros (m & Hin & He). apply Nat.eqb_eq in He. subst m. exact Hin.
  - intros Hin. exists n. split; [exact Hin | apply Nat.eqb_refl].
Qed.


Lemma callbacks_return (rs : list request) kids :
  Forall (fun r => match r with insertCB _ _ | removeCB _ => True | _ => False end) rs ->
  requests (list node) Dom.perform rs kids = Returned kids.
Proof.
  induction 1 as [|r rs Hr _ IH]; [reflexivity|].
  cbn [requests]. destruct r; try contradiction; exact IH.
Qed.



Lemma removed (cb : bool) nodes pre post :
  NoDup (pre ++ nodes ++ post)%list ->
  requests (list node) Dom.perform
    (flat_map (fun n => (if cb then [removeCB n] else []) ++ [removeChild n])%list
       (map Some nodes))
    (pre ++ nodes ++ post)%list
  = Returned (pre ++ post)%list.
Proof.
  induction nodes as [|n nodes IH]; intros Hnd; [reflexivity|].
  cbn [map flat_map]. rewrite <- app_assoc. rewrite requests_app.
  rewrite callbacks_return by (destruct cb; repeat constructor).
  cbn [app requests Dom.perform].
  assert (Dom.is_child n (pre ++ n :: nodes ++ post) = true) as ->
    by (apply is_child_In, in_or_app; right; left; reflexivity).
  apply NoDup_app in Hnd as (Hpre & Hdisj & Hrest).
  cbn [app] in Hrest. apply NoDup_cons in Hrest as [Hn Hrest].
  rewrite without_here.
  - apply IH. apply NoDup_app. split; [exact Hpre|]. split; [|exact Hrest].
    intros x Hx Hin. apply (Hdisj x Hx). right. exact Hin.
  - intros Hin. apply (Hdisj n); [apply list_elem_of_In; exact Hin | left].
  - intros Hin. apply Hn. apply list_elem_of_In. exact Hin.
Qed.




(** X3. If the proxy array holds the children of the target in
    order, [removeChilds] with a non-negative index and count, the
    DOM not kept, returns the nodes of the range (clipped to the
    array), and afterwards the children of the target are the old
    ones without the range and the proxy array again holds them in
    order. *)
Theorem removeChilds_keeps_in_sync
    (index count : Z) (this : instance) (kids : list node) :
  in_sync this kids ->
  NoDup kids ->
  (0 <= index)%Z -> (0 <= count)%Z ->
  let removed_nodes := take (Z.to_nat count) (drop (Z.to_nat index) kids) in
  let kids' := (take (Z.to_nat index) kids
                ++ drop (Z.to_nat index + Z.to_nat count) kids)%list in
  exists this',
    removeChilds (list node) Dom.perform index count false this kids
    = Done (map Some removed_nodes) this' kids'
    /\ in_sync this' kids' /\ NoDup kids'
    /\ has_insertCB this' = has_insertCB this /\ has_removeCB this' = has_removeCB this.
Proof.
  intros Hsync Hnd Hi Hc removed_nodes kids'. destruct this as [l icb rcb].
  unfold in_sync in *. cbn [childNodes] in Hsync. subst l.
  set (n := Z.to_nat index) in *. set (c := Z.to_nat count) in *.
  assert (kids = (take n kids ++ removed_nodes ++ drop (n + c) kids)%list) as Esplit.
  { unfold removed_nodes. rewrite <- drop_drop, take_drop, take_drop. reflexivity. }
  unfold removeChilds. cbn [childNodes has_insertCB has_removeCB].
  destruct (Z.eqb_spec count 0) as [Hz|Hz].
  - assert (c = 0) as Ec by lia.
    assert (removed_nodes = []) as -> by (unfold removed_nodes; rewrite Ec; reflexivity).
    assert (kids' = kids) as ->.
    { unfold kids'. rewrite Ec, Nat.add_0_r. apply take_drop. }
    eexists. split; [reflexivity|]. auto.
  - rewrite slice_nat, splice_nat by lia. fold n c.
    rewrite skipn_map, firstn_map. fold removed_nodes.
    pose proof (removed rcb removed_nodes (take n kids) (drop (n + c) kids)) as Hrem.
    rewrite <- Esplit in Hrem. rewrite (Hrem Hnd).
    cbn [finish]. fold kids'. eexists. split; [reflexivity|].
    cbn [childNodes has_insertCB has_removeCB].
    split; [|split; [|auto]].
    + cbn [app]. unfold kids'. rewrite map_app, <- fmap_take, <- fmap_drop. reflexivity.
    + unfold kids'. rewrite Esplit in Hnd.
      apply NoDup_app in Hnd as (Ha & Hab & Hb).
      apply NoDup_app in Hb as (_ & _ & Hb).
      apply NoDup_app. split; [exact Ha|]. split; [|exact Hb].
      intros x Hx Hin. apply (Hab x Hx). apply elem_of_app. right. exact Hin.
Qed.

(** X4. If the proxy array holds the children of the target in
    order, [clear] returns with no child left on the target and
    with an empty proxy array. *)
Theorem clear_empties_both (this : instance) (kids : list node) :
  in_sync this kids ->
  NoDup kids ->
  clear (list node) Dom.perform this kids
  = Done tt (Instance [] (has_insertCB this) (has_removeCB this)) [].
Proof.
  intros Hsync Hnd. unfold clear. rewrite Hsync.
  pose proof (removed (has_removeCB this) kids [] []) as H.
  cbn [app] in H. rewrite app_nil_r in H. rewrite H by exact Hnd. reflexivity.
Qed.

(** X5. Inserting an empty list of nodes at the end of a proxy
    array that holds the children of the target returns without a
    change to the target, but appends an [undefined] entry to the
    proxy array, which then cannot hold the children of any target;
    a [clear] that follows removes every child from the target, then
    throws on the [undefined] entry and leaves the proxy array with
    all its entries. *)
Theorem appending_nothing_breaks_the_proxy
    (data : value) (this : instance) (kids : list node) :
  in_sync this kids ->
  NoDup kids ->
  let this' := Instance (map Some kids ++ [None]) (has_insertCB this) (has_removeCB this) in
  insertChilds (list node) Dom.perform (Z.of_nat (length kids)) [] data this kids
  = Done tt this' kids
  /\ (forall kids2, ~ in_sync this' kids2)
  /\ clear (list node) Dom.perform this' kids = Raised this' [].
Proof.
  intros Hsync Hnd this'. destruct this as [l icb rcb].
  unfold in_sync in Hsync. cbn [childNodes] in Hsync. subst l.
  cbn [has_insertCB has_removeCB] in this'.
  split; [|split].
  - unfold insertChilds. unfold appendChilds. cbn [childNodes has_insertCB has_removeCB].
    rewrite length_map, Z.eqb_refl.
    cbn [length Nat.ltb Nat.leb head map app]. destruct icb; reflexivity.
  - intros kids2 H. unfold in_sync, this' in H. cbn [childNodes] in H.
    assert (In None (map Some kids2)) as Hin
      by (rewrite <- H; apply in_or_app; right; left; reflexivity).
    apply in_map_iff in Hin as (x & Hx & _). discriminate.
  - unfold clear, this'. cbn [childNodes has_insertCB has_removeCB].
    rewrite flat_map_app, requests_app.
    pose proof (removed rcb kids [] []) as H.
    cbn [app] in H. rewrite app_nil_r in H. specialize (H Hnd).
    unfold entry, node in *. rewrite H.
    cbn [flat_map app]. destruct rcb; reflexivity.
Qed.


Lemma insertChilds_removeChilds_round_trip_witness :
  removeChilds unit (fun _ w => Returned w) 1 2 true
    (Instance [Some 1; Some 7; Some 8; Some 2] true false) tt
  = Done [Some 7; Some 8] (Instance [Some 1; Some 2] true false) tt.
Proof.
  apply (insertChilds_removeChilds_round_trip unit (fun _ w => Returned w) 1
           [Some 7; Some 8] VUndefined (Instance [Some 1; Some 2] true false)
           (Instance [Some 1; Some 7; Some 8; Some 2] true false) tt tt).
  - cbn. lia.
  - left. discriminate.
  - reflexivity.
Defined.


Lemma removeChilds_keeps_in_sync_witness :
  exists this',
    removeChilds (list node) Dom.perform 1 2 false
      (Instance [Some 1; Some 2; Some 3; Some 4] false true) [1; 2; 3; 4]
    = Done [Some 2; Some 3] this' [1; 4]
    /\ in_sync this' [1; 4] /\ NoDup [1; 4]
    /\ has_insertCB this' = false /\ has_removeCB this' = true.
Proof.
  apply (removeChilds_keeps_in_sync 1 2
           (Instance [Some 1; Some 2; Some 3; Some 4] false true) [1; 2; 3; 4]).
  - reflexivity.
  - apply (bool_decide_unpack _). vm_compute. reflexivity.
  - lia.
  - lia.
Defined.

Lemma clear_empties_both_witness :
  clear (list node) Dom.perform (Instance [Some 1; Some 2] false true) [1; 2]
  = Done tt (Instance [] false true) [].
Proof.
  apply (clear_empties_both (Instance [Some 1; Some 2] false true) [1; 2]).
  - reflexivity.
  - apply (bool_decide_unpack _). vm_compute. reflexivity.
Defined.

Lemma appending_nothing_breaks_the_proxy_witness :
  insertChilds (list node) Dom.perform 2 [] VUndefined
    (Instance [Some 1; Some 2] false false) [1; 2]
  = Done tt (Instance [Some 1; Some 2; None] false false) [1; 2]
  /\ (forall kids2, ~ in_sync (Instance [Some 1; Some 2; None] false false) kids2)
  /\ clear (list node) Dom.perform (Instance [Some 1; Some 2; None] false false) [1; 2]
     = Raised (Instance [Some 1; Some 2; None] false false) [].
Proof.
  apply (appending_nothing_breaks_the_proxy VUndefined
           (Instance [Some 1; Some 2] false false) [1; 2]).
  - reflexivity.
  - apply (bool_decide_unpack _). vm_compute. reflexivity.
Defined.

End NodeFacts.

(** ** Properties of the path getters and of the operators *)

Module GetterFacts.
Import JsString JsNumber Js Compiler Spec PathProps.


Ltac constructor_cases :=
  repeat match goal with
         | |- context [String.eqb ?k "constructor"] =>
             destruct (String.eqb_spec k "constructor")
         end.

(** X6. For a path of up to five segments, building the getter
    throws the reserved-name error exactly when one of the segments
    is [constructor]; for every other such path a getter is built. *)
Theorem short_paths_are_checked_when_compiled (path fullExp : string) :
  length (split_dot path) < 6 ->
  (In "constructor" (split_dot path) ->
   compile_getter path fullExp = inl (SyntaxError isecfld_message [VString fullExp]))
  /\ (~ In "constructor" (split_dot path) ->
      exists getter, compile_getter path fullExp = inr getter).
Proof.
  intros Hlen. unfold compile_getter.
  destruct (split_dot path) as [|k0 [|k1 [|k2 [|k3 [|k4 [|k5 rest]]]]]];
    cbn [length] in Hlen; try lia;
    cbn -[String.eqb];
    unfold simpleGetterFn1, simpleGetterFn2, cspSafeGetterFn, ensureSafeMemberName, parseMinErr;
    cbn -[String.eqb]; split; intros H; constructor_cases; subst;
    try reflexivity; try (eexists; reflexivity);
    try (exfalso; cbn in H; intuition congruence).
Qed.


Section WithHost.

Variable host : nat -> value -> list value -> M value.




(** Locals that own a [hasOwnProperty] which is not a function
    (here [{hasOwnProperty: 1}]): every getter calls it, and
    throws, before it looks at the scope. *)
Lemma getters_call_hasOwnProperty_of_locals (scope : value) :
  (exists message,
      call host (SimpleGetter1 "a") scope (VObject 9%positive) [] (State sample_heap [])
      = Throw (TypeError message) (State sample_heap []))
  /\ (exists message,
        call host (SimpleGetter2 "a" "b") scope (VObject 9%positive) []
          (State sample_heap [])
        = Throw (TypeError message) (State sample_heap []))
  /\ (exists message,
        call host (CspSafeGetter (Some "a") (Some "b") (Some "c") None None) scope
          (VObject 9%positive) [] (State sample_heap [])
        = Throw (TypeError message) (State sample_heap []))
  /\ shadows sample_heap (VObject 9%positive) "a" = None.
Proof.
  split; [|split; [|split]]; [| | |vm_compute; reflexivity];
    eexists; vm_compute; reflexivity.
Qed.

(** X9. [a && b] returns the value of [a], not evaluating [b],
    when it is falsy, and otherwise what [b] evaluates to; [a || b]
    returns the value of [a], not evaluating [b], when it is
    truthy, and otherwise what [b] evaluates to; [a ? b : c]
    evaluates [b] or [c], never both. The values are returned as
    they are, not turned into booleans. *)
Theorem logical_operators_short_circuit
    (a b c : closure) (self locals : value) (st st1 : state) (x : value) :
  call host a self locals [] st = Ret x st1 ->
  call host (binary OpAnd a b) self locals [] st
  = (if truthy x then call host b self locals [] st1 else Ret x st1)
  /\ call host (binary OpOr a b) self locals [] st
     = (if truthy x then Ret x st1 else call host b self locals [] st1)
  /\ call host (TernaryFn a b c) self locals [] st
     = (if truthy x then call host b self locals [] st1
        else call host c self locals [] st1).
Proof.
  intros Ha. split; [|split].
  - cbn. unfold bind. cbn. rewrite Ha. destruct (truthy x); reflexivity.
  - cbn. unfold bind. cbn. rewrite Ha. destruct (truthy x); reflexivity.
  - cbn [call]. unfold bind. rewrite Ha. destruct (truthy x); reflexivity.
Qed.

End WithHost.

Lemma short_paths_are_checked_when_compiled_witness :
  compile_getter "a.constructor.b" "a.constructor.b + 1"
  = inl (SyntaxError isecfld_message [VString "a.constructor.b + 1"])
  /\ exists getter, compile_getter "a.b" "a.b + 1" = inr getter.
Proof.
  split.
  - apply (short_paths_are_checked_when_compiled "a.constructor.b" "a.constructor.b + 1").
    + cbn. lia.
    + cbn. auto.
  - apply (short_paths_are_checked_when_compiled "a.b" "a.b + 1").
    + cbn. lia.
    + cbn. intros [H|[H|[]]]; discriminate H.
Defined.



Lemma logical_operators_short_circuit_witness :
  call quiet_host (binary OpAnd (NumberLiteral (of_Z 0)) (StringLiteral "b"))
    VUndefined VUndefined [] (State ∅ [])
  = Ret (VNumber (of_Z 0)) (State ∅ [])
  /\ call quiet_host (binary OpOr (NumberLiteral (of_Z 0)) (StringLiteral "b"))
       VUndefined VUndefined [] (State ∅ [])
     = Ret (VString "b") (State ∅ [])
  /\ call quiet_host (TernaryFn (NumberLiteral (of_Z 0)) (StringLiteral "b") (StringLiteral "c"))
       VUndefined VUndefined [] (State ∅ [])
     = Ret (VString "c") (State ∅ []).
Proof.
  apply (logical_operators_short_circuit quiet_host (NumberLiteral (of_Z 0))
           (StringLiteral "b") (StringLiteral "c") VUndefined VUndefined
           (State ∅ []) (State ∅ []) (VNumber (of_Z 0))).
  reflexivity.
Defined.

End GetterFacts.
(** ** Properties of the setter and of the runtime hooks *)

Module SetterFacts.
Import JsString JsNumber Js Compiler Spec PathProps InheritFacts.


Section WithHost.

Variable host : nat -> value -> list value -> M value.





(** X12. [getRuntimeHooks] after [setRuntimeHooks] on a [locals]
    that is an object returns the hooks that were set; every
    other property of every object reads as before. *)
Theorem runtime_hooks_round_trip (locals hooks : value) (st : state) (l : loc) (o : object) :
  locals = VObject l ->
  heap st !! l = Some o ->
  is_array o = false ->
  exists st',
    setRuntimeHooks locals hooks st = Ret tt st'
    /\ getRuntimeHooks locals st' = Ret hooks st'
    /\ calls st' = calls st
    /\ (forall v k, (v, k) <> (locals, hookField) ->
                    get (heap st') v k = get (heap st) v k).
Proof.
  intros -> Hl Ha. unfold setRuntimeHooks, set_member. rewrite Hl, Ha.
  assert (mem_string hookField (undetermined (kind o)) = false) as ->
    by (destruct (kind o); reflexivity).
  change (String.eqb hookField "__proto__") with false. cbn [andb].
  eexists. split; [reflexivity|]. split; [|split; [reflexivity|]].
  - unfold getRuntimeHooks, get_member. cbn [is_nullish heap].
    unfold get. rewrite lookup_insert_eq. cbn [own]. rewrite lookup_insert_eq. reflexivity.
  - intros v k Hvk. cbn [heap]. destruct v as [| | | | |l'|]; try reflexivity.
    unfold get. destruct (decide (l' = l)) as [->|Hne].
    + rewrite lookup_insert_eq, Hl. cbn [own].
      rewrite lookup_insert_ne by congruence.
      unfold kind. cbn [is_array callable]. rewrite Ha. reflexivity.
    + rewrite lookup_insert_ne by congruence. reflexivity.
Qed.

End WithHost.



Lemma runtime_hooks_round_trip_witness :
  exists st',
    setRuntimeHooks (VObject 7%positive) (VObject 5%positive) (State sample_heap [])
    = Ret tt st'
    /\ getRuntimeHooks (VObject 7%positive) st' = Ret (VObject 5%positive) st'
    /\ calls st' = []
    /\ get (heap st') (VObject 6%positive) "b" = Some (VNumber (of_Z 5)).
Proof.
  destruct (runtime_hooks_round_trip (VObject 7%positive) (VObject 5%positive)
              (State sample_heap []) 7%positive (record []))
    as (st' & Hset & Hget & Hcalls & Hframe).
  - reflexivity.
  - vm_compute. reflexivity.
  - reflexivity.
  - exists st'. split; [exact Hset|]. split; [exact Hget|]. split; [exact Hcalls|].
    rewrite Hframe by discriminate. vm_compute. reflexivity.
Defined.

End SetterFacts.

(** ** Properties of the parser *)

Module ParseFacts.
Import JsString JsNumber Js Compiler Spec ParseProps.
Import Parser.

Section OneToken.

Variable text : string.
Variable options : Compiler.options.
Variables (i : nat) (s : string) (f : closure) (is_json : bool) (str : option string).
Variable cache : getter_cache.

Local Abbreviation Hs_type := (Forall (fun e => String.eqb s e = false) leading_texts).
Local Abbreviation st1 := (ParserState [Token i (VString s) (Some f) is_json str] cache).
Local Abbreviation st0 := (ParserState [] cache).
Local Abbreviation e := (Compiled f is_json is_json).

Lemma expect_nothing expected : expect expected st0 = Ret None st0.
Proof. reflexivity. Qed.

Lemma expect_miss expected :
  Hs_type ->
  expected <> [] ->
  Forall (fun e => In e leading_texts) expected ->
  expect expected st1 = Ret None st1.
Proof.
  intros Hs Hne Hin. unfold expect, bind, peek. cbn [tokens Compiler.text].
  assert (existsb (fun e0 => strict_equal (VString s) (VString e0)) expected = false) as ->.
  { apply not_true_is_false. intros Hex. apply existsb_exists in Hex as (x & Hx & Heq).
    rewrite Forall_forall in Hin. apply list_elem_of_In, Hin in Hx.
    apply list_elem_of_In in Hx.
    rewrite Forall_forall in Hs. cbn [strict_equal] in Heq. rewrite (Hs x Hx) in Heq.
    discriminate. }
  destruct expected; [congruence | reflexivity].
Qed.

Ltac miss Hs := rewrite (expect_miss _ Hs)
  by (try discriminate; repeat constructor; unfold leading_texts; cbn; tauto).

Lemma primary_one this :
  Hs_type ->
  primary_loop_ this e None st0 = Ret e st0 ->
  primary text this st1 = Ret e st0.
Proof.
  intros Hs Hloop. unfold primary. unfold bind at 1. miss Hs.
  unfold bind at 1. unfold bind at 1. miss Hs.
  unfold bind at 1. miss Hs. unfold bind at 1.
  cbn. exact Hloop.
Qed.

Lemma unary_one this :
  Hs_type ->
  primary_ this st1 = Ret e st0 -> unary this st1 = Ret e st0.
Proof.
  intros Hs H. unfold unary. unfold bind at 1. miss Hs.
  unfold bind at 1. miss Hs. unfold bind at 1. miss Hs. exact H.
Qed.

Lemma loop_then (sub : P compiled) (loop : compiled -> P compiled) :
  sub st1 = Ret e st0 -> loop e st0 = Ret e st0 ->
  (let* left := sub in loop left) st1 = Ret e st0.
Proof. intros H1 H2. unfold bind. rewrite H1. exact H2. Qed.

Lemma assignment_one this :
  ternary_ this st1 = Ret e st0 -> assignment text this st1 = Ret e st0.
Proof. intros H. unfold assignment. unfold bind at 1. rewrite H. reflexivity. Qed.

Lemma ternary_one this :
  logicalOR_ this st1 = Ret e st0 -> ternary text this st1 = Ret e st0.
Proof. intros H. unfold ternary. unfold bind at 1. rewrite H. reflexivity. Qed.

Lemma logicalAND_one this :
  equality_ this st1 = Ret e st0 -> logicalAND this st1 = Ret e st0.
Proof. intros H. unfold logicalAND. unfold bind at 1. rewrite H. reflexivity. Qed.

Lemma equality_one this :
  relational_ this st1 = Ret e st0 -> equality this st1 = Ret e st0.
Proof. intros H. unfold equality. unfold bind at 1. rewrite H. reflexivity. Qed.

Lemma relational_one this :
  additive_ this st1 = Ret e st0 -> relational this st1 = Ret e st0.
Proof. intros H. unfold relational. unfold bind at 1. rewrite H. reflexivity. Qed.

Lemma statements_one this :
  Hs_type ->
  filterChain_ this st1 = Ret e st0 ->
  statements_loop this [] st1 = Ret e st0.
Proof.
  intros Hs H. unfold statements_loop. unfold bind at 1.
  assert (peek ["}"; ")"; ";"; "]"] st1 = Ret None st1) as ->.
  { assert (expect ["}"; ")"; ";"; "]"] st1 = Ret None st1) as Hm
      by (apply (expect_miss _ Hs);
          [discriminate | repeat constructor; unfold leading_texts; cbn; tauto]).
    unfold expect, bind in Hm.
    destruct (peek ["}"; ")"; ";"; "]"] st1) as [[tk|] st|? ?| |] eqn:E; try discriminate.
    injection Hm as <-. reflexivity. }
  unfold bind at 1. cbn [tokens]. unfold bind at 1. rewrite H. cbn [ret app].
  reflexivity.
Qed.

(** An expression of one token compiles to the function of the token. *)
Lemma one_token n :
  Hs_type ->
  statements text options (one_token_deep + n) st1 = Ret e st0.
Proof.
  intros Hs. unfold statements, one_token_deep.
  apply (statements_one (parser text options (13 + n)) Hs).
  change (filterChain (parser text options (12 + n)) st1 = Ret e st0).
  apply loop_then; [|reflexivity].
  apply (assignment_one (parser text options (10 + n))).
  apply (ternary_one (parser text options (9 + n))).
  change (logicalOR (parser text options (8 + n)) st1 = Ret e st0).
  apply loop_then; [|reflexivity].
  apply (logicalAND_one (parser text options (7 + n))).
  apply (equality_one (parser text options (6 + n))).
  apply (relational_one (parser text options (5 + n))).
  change (additive (parser text options (4 + n)) st1 = Ret e st0).
  apply loop_then; [|reflexivity].
  change (multiplicative (parser text options (3 + n)) st1 = Ret e st0).
  apply loop_then; [|reflexivity].
  apply (unary_one (parser text options (2 + n)) Hs).
  apply (primary_one (parser text options (1 + n)) Hs). reflexivity.
Qed.

End OneToken.

End ParseFacts.

(** ** Properties of the lexer *)

Module LexFacts.
Import JsString JsNumber Js Compiler Spec ParseProps LexProps StringFacts.
Import Lexer.

Lemma char_here pre c suf :
  (if String.length pre <? String.length (String.append pre (String c suf))
   then charAt (String.append pre (String c suf)) (String.length pre) else None) = Some c.
Proof.
  assert ((String.length pre <? String.length (String.append pre (String c suf))) = true) as ->
    by (apply Nat.ltb_lt; rewrite length_append; cbn; lia).
  apply get_append.
Qed.

Lemma char_at_end text :
  (if String.length text <? String.length text
   then charAt text (String.length text) else None) = None.
Proof. rewrite Nat.ltb_irrefl. reflexivity. Qed.

Lemma whitespace_facts c :
  isWhitespace c = true ->
  char_in c "'" = false /\ Ascii.eqb c dquote = false /\ is_digit c = false
  /\ char_in c "." = false /\ isIdent c = false /\ char_in c "(){}[].,;:?" = false.
Proof.
  destruct c as [[] [] [] [] [] [] [] []]; vm_compute; intros H;
    try discriminate H; repeat split.
Qed.

(** White space is skipped. *)
Lemma lex_loop_blank suf :
  forall pre fuel tokens lastCh json cache,
    all_chars isWhitespace suf = true ->
    String.length suf < fuel ->
    lex_loop fuel (String.append pre suf) (String.length pre) tokens lastCh json cache
    = Ret tokens cache.
Proof.
  induction suf as [|c suf IH]; intros pre fuel tokens lastCh json cache Hb Hf.
  - destruct fuel; [cbn in Hf; lia|]. rewrite append_empty. cbn [lex_loop].
    rewrite char_at_end. reflexivity.
  - destruct fuel; [cbn in Hf; lia|]. cbn [all_chars] in Hb.
    apply andb_prop in Hb as [Hc Hb].
    destruct (whitespace_facts c Hc) as (H1 & H2 & H3 & H4 & H5 & H6).
    cbn [lex_loop]. rewrite char_here. cbv zeta.
    rewrite H1, H2, H3, H4, H5, H6, Hc. cbn [orb andb].
    rewrite append_snoc. rewrite <- (length_snoc pre c). apply IH; [exact Hb | cbn in Hf; lia].
Qed.

Lemma lex_blank text cache :
  all_chars isWhitespace text = true -> lex text cache = Ret [] cache.
Proof.
  intros H. unfold lex. apply (lex_loop_blank text EmptyString); [exact H | lia].
Qed.


(** [Parser.parse] from what the lexer and [statements] do. *)
Lemma parse_tokens text options fuel cache toks cache1 v cache2 :
  lex text cache = Ret toks cache1 ->
  Parser.statements text options fuel (Parser.ParserState toks cache1)
  = Ret v (Parser.ParserState [] cache2) ->
  Parser.parse text options fuel cache = Ret v cache2.
Proof.
  intros Hlex Hst. unfold Parser.parse. unfold bind at 1. rewrite Hlex.
  unfold bind at 1. rewrite Hst. reflexivity.
Qed.

Lemma parse_lex_throws text options fuel cache e cache1 :
  lex text cache = Throw e cache1 ->
  Parser.parse text options fuel cache = Throw e cache1.
Proof. intros Hlex. unfold Parser.parse. unfold bind at 1. rewrite Hlex. reflexivity. Qed.

(** X13. An expression that is empty or made of white space only
    compiles, whatever the options, the recursion budget and the
    getter cache (which it leaves as it is), to a function that is
    neither constant nor literal and that evaluates to [undefined]
    on every scope without changing the state. *)
Theorem blank_expression_is_undefined
    (text : string) (options : Compiler.options) (fuel : nat) (cache : getter_cache) :
  all_chars isWhitespace text = true ->
  Parser.parse text options fuel cache = Ret (Compiled (Statements []) false false) cache
  /\ forall host scope locals st,
       call host (Statements []) scope locals [] st = Ret VUndefined st.
Proof.
  intros H. split; [|reflexivity].
  apply (parse_tokens text options fuel cache [] cache); [apply lex_blank; exact H|].
  reflexivity.
Qed.

(** *** String literals *)

Lemma readString_plain q s :
  forall pre rest value raw fuel start cache,
    (code q =? 92) = false ->
    all_chars (unescaped q) s = true ->
    String.length s < fuel ->
    readString_loop fuel (String.append pre (String.append s (String q rest))) q start
      (String.length pre) value raw false cache
    = Ret (String.length pre + String.length s + 1,
           Token start (VString (String.append raw (String.append s (String q EmptyString))))
             (Some (StringLiteral (String.append value s))) true
             (Some (String.append value s)))
          cache.
Proof.
  induction s as [|c s IH]; intros pre rest value raw fuel start cache Hq Hs Hf.
  - destruct fuel; [cbn in Hf; lia|].
    change (String.append EmptyString (String q rest)) with (String q rest).
    cbn [readString_loop]. rewrite char_here. rewrite Hq, Ascii.eqb_refl.
    rewrite append_empty. cbn [String.length]. rewrite Nat.add_0_r. reflexivity.
  - destruct fuel; [cbn in Hf; lia|]. cbn [all_chars] in Hs.
    apply andb_prop in Hs as [Hc Hs]. unfold unescaped in Hc. apply andb_prop in Hc as [Hc1 Hc2].
    apply negb_true_iff in Hc1, Hc2.
    rewrite append_cons. cbn [readString_loop]. rewrite char_here. rewrite Hc2, Hc1.
    rewrite append_snoc. rewrite <- (length_snoc pre c).
    rewrite IH by (try assumption; cbn in Hf; lia).
    rewrite length_snoc. cbn [String.length].
    rewrite <- !append_snoc.
    replace (String.length pre + 1 + String.length s + 1)
      with (String.length pre + S (String.length s) + 1) by lia.
    reflexivity.
Qed.

Lemma readString_unterminated q s :
  forall pre value raw fuel start cache,
    (code q =? 92) = false ->
    all_chars (unescaped q) s = true ->
    String.length s < fuel ->
    readString_loop fuel (String.append pre s) q start (String.length pre)
      value raw false cache
    = Throw (lexer_error (String.append pre s) (String.length (String.append pre s))
               "Unterminated quote" (Some start) None) cache.
Proof.
  induction s as [|c s IH]; intros pre value raw fuel start cache Hq Hs Hf.
  - destruct fuel; [cbn in Hf; lia|]. rewrite append_empty.
    cbn [readString_loop]. rewrite char_at_end. reflexivity.
  - destruct fuel; [cbn in Hf; lia|]. cbn [all_chars] in Hs.
    apply andb_prop in Hs as [Hc Hs]. unfold unescaped in Hc. apply andb_prop in Hc as [Hc1 Hc2].
    apply negb_true_iff in Hc1, Hc2.
    cbn [readString_loop]. rewrite char_here. rewrite Hc2, Hc1.
    rewrite append_snoc. rewrite <- (length_snoc pre c).
    apply IH; [assumption | assumption | cbn in Hf; lia].
Qed.


Lemma quote_cases q :
  is_quote q = true -> q = "'"%char \/ q = dquote.
Proof.
  unfold is_quote. intros H. apply orb_prop in H as [H|H]; apply Ascii.eqb_eq in H; auto.
Qed.

Lemma lex_string_literal q body cache :
  is_quote q = true ->
  all_chars (unescaped q) body = true ->
  lex (in_quotes q body) cache
  = Ret [Token 0 (VString (in_quotes q body)) (Some (StringLiteral body)) true (Some body)]
        cache.
Proof.
  intros Hq Hb. unfold lex, in_quotes.
  set (text := String q (String.append body (String q EmptyString))).
  assert (String.length text = String.length body + 2) as Hlen
    by (unfold text; cbn [String.length]; rewrite length_append; cbn [String.length]; lia).
  assert ((code q =? 92) = false) as Hq92
    by (destruct (quote_cases q Hq) as [-> | ->]; reflexivity).
  cbn [lex_loop]. rewrite Hlen.
  replace (0 <? String.length body + 2) with true by (symmetry; apply Nat.ltb_lt; lia).
  change (charAt text 0) with (Some q). cbv beta iota zeta.
  assert (char_in q "'" || Ascii.eqb q dquote = true) as ->
    by (destruct (quote_cases q Hq) as [-> | ->]; reflexivity).
  unfold bind at 1. unfold readString.
  pose proof (readString_plain q body (String q EmptyString) EmptyString EmptyString
                (String q EmptyString) (S (String.length text)) 0 cache Hq92 Hb
                ltac:(lia)) as Hread.
  change (String.append (String q EmptyString) (String.append body (String q EmptyString)))
    with text in Hread.
  cbn [String.length Nat.add] in Hread. cbn [Nat.add].
  change (String.append EmptyString body) with body in Hread.
  rewrite Hread. cbn [app].
  destruct (String.length body + 2) as [|n] eqn:En; [lia|].
  cbn [lex_loop].
  replace (S (String.length body + 1)) with (String.length text) by lia.
  rewrite char_at_end. reflexivity.
Qed.

Lemma quoted_is_not_leading q r :
  is_quote q = true ->
  Forall (fun e => String.eqb (String q r) e = false) leading_texts.
Proof.
  intros Hq. destruct (quote_cases q Hq) as [-> | ->]; repeat constructor.
Qed.

(** X14. A string literal in single or double quotes whose body
    has no backslash and does not contain its quote compiles to a
    constant literal that evaluates to the body on every scope;
    the getter cache is unchanged. *)
Theorem plain_string_literal_is_its_body
    (q : ascii) (body : string) (options : Compiler.options) (n : nat)
    (cache : getter_cache) :
  is_quote q = true ->
  all_chars (unescaped q) body = true ->
  Parser.parse (in_quotes q body) options (one_token_deep + n) cache
  = Ret (Compiled (StringLiteral body) true true) cache
  /\ forall host scope locals st,
       call host (StringLiteral body) scope locals [] st = Ret (VString body) st.
Proof.
  intros Hq Hb. split; [|reflexivity].
  eapply parse_tokens; [apply lex_string_literal; assumption|].
  apply ParseFacts.one_token. apply quoted_is_not_leading. exact Hq.
Qed.

(** X15. A quote that is never closed (the text that follows has
    no backslash and does not contain the quote) makes compilation
    throw the lexer error [Unterminated quote], reported for the
    columns from 0 to the end of the text. *)
Theorem unterminated_string_is_a_lexer_error
    (q : ascii) (body : string) (options : Compiler.options) (fuel : nat)
    (cache : getter_cache) :
  is_quote q = true ->
  all_chars (unescaped q) body = true ->
  let text := String q body in
  Parser.parse text options fuel cache
  = Throw (lexer_error text (String.length text) "Unterminated quote" (Some 0) None) cache.
Proof.
  intros Hq Hb text. apply parse_lex_throws. unfold lex.
  assert ((code q =? 92) = false) as Hq92
    by (destruct (quote_cases q Hq) as [-> | ->]; reflexivity).
  cbn [lex_loop]. change (0 <? String.length text) with true.
  change (charAt text 0) with (Some q). cbv beta iota zeta.
  assert (char_in q "'" || Ascii.eqb q dquote = true) as ->
    by (destruct (quote_cases q Hq) as [-> | ->]; reflexivity).
  unfold bind at 1. unfold readString.
  pose proof (readString_unterminated q body (String q EmptyString) EmptyString
                (String q EmptyString) (S (String.length text)) 0 cache Hq92 Hb
                ltac:(cbn; lia)) as Hread.
  change (String.append (String q EmptyString) body) with text in Hread.
  cbn [String.length Nat.add] in Hread. cbn [Nat.add]. rewrite Hread. reflexivity.
Qed.


(** *** Paths *)

Lemma readIdent_run_all s :
  forall pre fuel ident lastDot,
    all_chars path_char s = true ->
    String.length s < fuel ->
    exists lastDot',
      readIdent_run fuel (String.append pre s) (String.length pre) ident lastDot
      = (String.length pre + String.length s, String.append ident s, lastDot').
Proof.
  induction s as [|c s IH]; intros pre fuel ident lastDot Hs Hf.
  - destruct fuel; [cbn in Hf; lia|]. rewrite !append_empty.
    cbn [readIdent_run]. rewrite char_at_end. cbn [String.length]. rewrite Nat.add_0_r.
    eexists. reflexivity.
  - destruct fuel; [cbn in Hf; lia|]. cbn [all_chars] in Hs.
    apply andb_prop in Hs as [Hc Hs]. unfold path_char in Hc.
    cbn [readIdent_run]. rewrite char_here. rewrite Hc.
    rewrite (append_snoc pre c s), (append_snoc ident c s). rewrite <- (length_snoc pre c).
    destruct (IH (snoc pre c) fuel (snoc ident c)
                (if Ascii.eqb c "." then Some (String.length pre) else lastDot) Hs)
      as [ld Hld]; [cbn in Hf; lia|].
    exists ld. rewrite Hld. rewrite length_snoc. cbn [String.length].
    replace (String.length pre + S (String.length s))
      with (String.length pre + 1 + String.length s) by lia.
    reflexivity.
Qed.

Lemma readIdent_peek_at_end fuel text : readIdent_peek fuel text (String.length text) = None.
Proof. destruct fuel; [reflexivity|]. cbn [readIdent_peek]. rewrite char_at_end. reflexivity. Qed.

Lemma ident_facts c :
  isIdent c = true ->
  char_in c "'" = false /\ Ascii.eqb c dquote = false /\ is_digit c = false
  /\ char_in c "." = false.
Proof.
  destruct c as [[] [] [] [] [] [] [] []]; vm_compute; intros H;
    try discriminate H; repeat split.
Qed.

Lemma ident_is_not_leading c r :
  isIdent c = true ->
  Forall (fun e => String.eqb (String c r) e = false) leading_texts.
Proof.
  destruct c as [[] [] [] [] [] [] [] []]; vm_compute; intros H;
    try discriminate H; repeat constructor.
Qed.

Lemma readIdent_path c r cache :
  isIdent c = true ->
  all_chars path_char r = true ->
  OPERATORS (String c r) = None ->
  readIdent (String c r) 0 cache
  = match getterFn (VString (String c r)) (String c r) cache with
    | Ret getter cache' =>
        Ret (String.length (String c r),
             [Token 0 (VString (String c r))
                (Some (Identifier getter (String c r) (String c r))) false None]) cache'
    | Throw e cache' => Throw e cache'
    | Unmodelled why => Unmodelled why
    | OutOfFuel => OutOfFuel
    end.
Proof.
  intros Hc Hr Hop. set (text := String c r). unfold readIdent.
  destruct (readIdent_run_all text EmptyString (S (String.length text)) EmptyString None)
    as [ld Hld].
  { unfold text. cbn [all_chars]. rewrite Hr. unfold path_char. rewrite Hc.
    rewrite orb_true_r. reflexivity. }
  { lia. }
  change (String.append EmptyString text) with text in Hld.
  cbn [String.length Nat.add] in Hld. rewrite Hld.
  fold text in Hop.
  destruct (match ld with Some (S d) => Some (S d) | _ => None end) as [dot|] eqn:Ed.
  - rewrite readIdent_peek_at_end. rewrite Hop. unfold bind.
    destruct (getterFn (VString text) text cache); reflexivity.
  - rewrite Hop. unfold bind.
    destruct (getterFn (VString text) text cache); reflexivity.
Qed.

Lemma lex_path c r cache getter cache' :
  isIdent c = true ->
  all_chars path_char r = true ->
  OPERATORS (String c r) = None ->
  getterFn (VString (String c r)) (String c r) cache = Ret getter cache' ->
  lex (String c r) cache
  = Ret [Token 0 (VString (String c r))
           (Some (Identifier getter (String c r) (String c r))) false None] cache'.
Proof.
  intros Hc Hr Hop Hg.
  pose proof (readIdent_path c r cache Hc Hr Hop) as Hrd. rewrite Hg in Hrd.
  unfold lex. set (text := String c r) in *.
  cbn [lex_loop]. change (0 <? String.length text) with true.
  change (charAt text 0) with (Some c). cbv beta iota zeta.
  destruct (ident_facts c Hc) as (H1 & H2 & H3 & H4).
  rewrite H1, H2, H3, H4, Hc. cbn [orb andb].
  unfold bind at 1. rewrite Hrd. cbn [app].
  change (char_in ":" "{,") with false. cbn [andb].
  change (String.length text) with (S (String.length r)) at 1. cbn [lex_loop].
  change (S (String.length r)) with (String.length text).
  rewrite char_at_end. reflexivity.
Qed.

Lemma lex_path_throws c r cache e cache' :
  isIdent c = true ->
  all_chars path_char r = true ->
  OPERATORS (String c r) = None ->
  getterFn (VString (String c r)) (String c r) cache = Throw e cache' ->
  lex (String c r) cache = Throw e cache'.
Proof.
  intros Hc Hr Hop Hg.
  pose proof (readIdent_path c r cache Hc Hr Hop) as Hrd. rewrite Hg in Hrd.
  unfold lex. set (text := String c r) in *.
  cbn [lex_loop]. change (0 <? String.length text) with true.
  change (charAt text 0) with (Some c). cbv beta iota zeta.
  destruct (ident_facts c Hc) as (H1 & H2 & H3 & H4).
  rewrite H1, H2, H3, H4, Hc. cbn [orb andb].
  unfold bind at 1. rewrite Hrd. reflexivity.
Qed.

(** X16. An expression that is a dotted path (identifier
    characters, digits and dots after a first identifier character)
    and not one of the words of the [OPERATORS] table compiles to
    the getter that [getterFn] returns for the whole text as path
    and expression, with the getter cache as [getterFn] leaves it:
    reading the compiled expression reads the getter, assigning to
    it calls [setter] with the path; and when [getterFn] throws,
    compilation throws the same error. *)
Theorem path_expression_is_its_getter
    (c : ascii) (r : string) (options : Compiler.options) (n : nat)
    (cache : getter_cache) :
  let path := String c r in
  isIdent c = true ->
  all_chars path_char r = true ->
  OPERATORS path = None ->
  (forall getter cache',
      getterFn (VString path) path cache = Ret getter cache' ->
      Parser.parse path options (one_token_deep + n) cache
      = Ret (Compiled (Identifier getter path path) false false) cache'
      /\ (forall host scope locals st,
            call host (Identifier getter path path) scope locals [] st
            = call host getter scope locals [] st)
      /\ (forall host scope v locals st,
            assign host (Identifier getter path path) scope v locals st
            = setter host scope (VString path) v path locals st))
  /\ (forall e cache',
        getterFn (VString path) path cache = Throw e cache' ->
        Parser.parse path options (one_token_deep + n) cache = Throw e cache').
Proof.
  intros path Hc Hr Hop. split.
  - intros getter cache' Hg. split; [|split; reflexivity].
    eapply parse_tokens; [apply lex_path; eassumption|].
    apply ParseFacts.one_token. apply ident_is_not_leading. exact Hc.
  - intros e cache' Hg. apply parse_lex_throws. apply lex_path_throws; assumption.
Qed.


Lemma blank_expression_is_undefined_witness :
  Parser.parse "   " no_options 0 ∅ = Ret (Compiled (Statements []) false false) ∅
  /\ forall host scope locals st,
       call host (Statements []) scope locals [] st = Ret VUndefined st.
Proof. apply (blank_expression_is_undefined "   " no_options 0 ∅). reflexivity. Defined.

Lemma plain_string_literal_is_its_body_witness :
  Parser.parse "'it is'" no_options (one_token_deep + 0) ∅
  = Ret (Compiled (StringLiteral "it is") true true) ∅
  /\ forall host scope locals st,
       call host (StringLiteral "it is") scope locals [] st = Ret (VString "it is") st.
Proof.
  apply (plain_string_literal_is_its_body "'"%char "it is" no_options 0 ∅); reflexivity.
Defined.

Lemma unterminated_string_is_a_lexer_error_witness :
  Parser.parse "'it is" no_options 3 ∅
  = Throw (lexer_error "'it is" 6 "Unterminated quote" (Some 0) None) ∅.
Proof.
  apply (unterminated_string_is_a_lexer_error "'"%char "it is" no_options 3 ∅); reflexivity.
Defined.

Lemma path_expression_is_its_getter_witness :
  Parser.parse "a.b" no_options (one_token_deep + 0) ∅
  = Ret (Compiled (Identifier (SimpleGetter2 "a" "b") "a.b" "a.b") false false)
        (GetterCache (<["a.b" := SimpleGetter2 "a" "b"]> ∅) None)
  /\ Parser.parse "a.constructor" no_options (one_token_deep + 0) ∅
     = Throw (SyntaxError isecfld_message [VString "a.constructor"]) ∅.
Proof.
  split.
  - apply (path_expression_is_its_getter "a"%char ".b" no_options 0 ∅); reflexivity.
  - apply (path_expression_is_its_getter "a"%char ".constructor" no_options 0 ∅);
      reflexivity.
Defined.

End LexFacts.

(** ** Further properties of the object-literal tokenizer *)

Module LiteralFacts.
Import JsString ObjectLiteral Spec LiteralProps StringFacts.

(** *** Blank text *)

Lemma trim_blank s : all_chars is_space s = true -> trim s = EmptyString.
Proof.
  intros H. unfold trim.
  assert (trim_left s = EmptyString) as ->; [|reflexivity].
  induction s as [|c s IH]; [reflexivity|]. cbn [all_chars] in H.
  apply andb_prop in H as [Hc Hs]. cbn [trim_left]. rewrite Hc. exact (IH Hs).
Qed.

Lemma bindingToken_at_space c s : is_space c = true -> bindingToken_at (String c s) = None.
Proof.
  intros Hc. unfold bindingToken_at, everyThingElse. rewrite Hc.
  assert (Ascii.eqb c dquote = false /\ Ascii.eqb c "'" = false /\ Ascii.eqb c "/" = false)
    as (-> & -> & ->).
  { revert Hc. destruct c as [[] [] [] [] [] [] [] []]; vm_compute; intros H;
      try discriminate H; repeat split. }
  reflexivity.
Qed.

Lemma match_all_blank s fuel : all_chars is_space s = true -> match_all fuel s = [].
Proof.
  revert fuel. induction s as [|c s IH]; intros fuel H; destruct fuel; try reflexivity.
  cbn [all_chars] in H. apply andb_prop in H as [Hc Hs].
  cbn [match_all]. rewrite (bindingToken_at_space c s Hc). apply IH. exact Hs.
Qed.

Lemma trim_right_aux_closed s c :
  is_space c = false ->
  trim_right_aux (String.append s (String c EmptyString))
  = Some (String.append s (String c EmptyString)).
Proof.
  intros Hc. induction s as [|d s IH].
  - change (String.append EmptyString (String c EmptyString)) with (String c EmptyString).
    cbn [trim_right_aux]. rewrite Hc. reflexivity.
  - rewrite append_cons. cbn [trim_right_aux]. rewrite IH. reflexivity.
Qed.

(** X17. An object literal that is empty or made of white space
    only, bare or between braces, has no pairs: the result is the
    empty list. *)
Theorem blank_object_literal_is_empty (s : string) :
  all_chars is_space s = true ->
  parseObjectLiteral s = Tokens []
  /\ parseObjectLiteral (String "{" (String.append s "}")) = Tokens [].
Proof.
  intros H. split.
  - unfold parseObjectLiteral. rewrite (trim_blank s H). reflexivity.
  - unfold parseObjectLiteral.
    assert (trim (String "{" (String.append s "}")) = String "{" (String.append s "}")) as ->.
    { unfold trim. cbn [trim_left]. change (is_space "{") with false. cbv iota.
      unfold trim_right.
      change (String "{" (String.append s "}")) with (String.append (String "{" s) "}").
      rewrite trim_right_aux_closed by reflexivity. reflexivity. }
    cbn [charCodeAt0]. change (is_code (Some (code "{")) 123) with true. cbv iota.
    assert (slice_1_m1 (String "{" (String.append s "}")) = s) as ->.
    { unfold slice_1_m1, substring. cbn [String.length skip].
      rewrite length_append. cbn [String.length].
      replace (S (String.length s + 1) - 1 - 1) with (String.length s) by lia.
      apply keep_append. }
    unfold str_match. rewrite (match_all_blank s _ H). reflexivity.
Qed.


(** *** Pairs of words *)

Lemma plain_run_stops w rest :
  all_chars plain_char w = true -> stops rest ->
  plain_run (String.append w rest) = (w, rest).
Proof.
  intros Hw Hrest. induction w as [|c w IH].
  - change (String.append EmptyString rest) with rest.
    destruct Hrest as [->|(c & r & -> & Hc)]; [reflexivity|].
    cbn [plain_run]. rewrite Hc. reflexivity.
  - cbn [all_chars] in Hw. apply andb_prop in Hw as [Hc Hw].
    destruct (TokenizerFacts.plain_char_facts c Hc) as (_ & Hsp & _).
    rewrite append_cons. cbn [plain_run]. rewrite Hsp, (IH Hw). reflexivity.
Qed.

Lemma word_inv w :
  word w = true -> exists c w', w = String c w' /\ plain_char c = true
                                /\ all_chars plain_char w' = true.
Proof.
  unfold word. intros H. apply andb_prop in H as [Hne Hp].
  destruct w as [|c w']; [discriminate|]. cbn [all_chars] in Hp.
  apply andb_prop in Hp as [Hc Hw]. eauto.
Qed.

Lemma token_word w rest :
  word w = true -> stops rest ->
  bindingToken_at (String.append w rest) = Some (w, rest).
Proof.
  intros Hw Hrest. destruct (word_inv w Hw) as (c & w' & -> & Hc & Hw').
  destruct (TokenizerFacts.plain_char_facts c Hc) as (Hsp & _ & Hcolon & Hq & Ha & Hsl & _).
  rewrite append_cons. unfold bindingToken_at. rewrite Hq, Ha, Hsl.
  unfold everyThingElse. rewrite Hsp, Hcolon. cbn [orb].
  rewrite (plain_run_stops w' rest Hw' Hrest).
  destruct w' as [|d w'].
  - cbn [trim_right_aux]. reflexivity.
  - rewrite (TokenizerFacts.trim_right_aux_plain d w' Hw'). rewrite skip_append. reflexivity.
Qed.

Lemma match_all_word fuel w rest :
  word w = true -> stops rest ->
  match_all (S fuel) (String.append w rest) = w :: match_all fuel rest.
Proof.
  intros Hw Hrest. destruct (word_inv w Hw) as (c & w' & E & _).
  cbn [match_all]. rewrite (token_word w rest Hw Hrest).
  rewrite E, append_cons. reflexivity.
Qed.

Lemma match_all_colon fuel rest :
  match_all (S fuel) (String ":" rest) = ":" :: match_all fuel rest.
Proof. reflexivity. Qed.

Lemma match_all_comma fuel rest :
  match_all (S fuel) (String "," rest) = "," :: match_all fuel rest.
Proof. reflexivity. Qed.

Lemma match_all_space fuel rest :
  match_all (S fuel) (String " " rest) = match_all fuel rest.
Proof. reflexivity. Qed.

Lemma word_length w : word w = true -> 1 <= String.length w.
Proof. intros H. destruct (word_inv w H) as (c & w' & -> & _). cbn. lia. Qed.

Lemma stops_colon r : stops (String ":" r).
Proof. right. eexists _, _. split; reflexivity. Qed.

Lemma stops_comma r : stops (String "," r).
Proof. right. eexists _, _. split; reflexivity. Qed.

Lemma match_render pairs :
  forall fuel,
    Forall (fun p => words p = true) pairs ->
    pairs <> [] ->
    String.length (render pairs) <= fuel ->
    (match_all fuel (render pairs) ++ [","])%list
    = flat_map (fun p => [fst p; ":"; snd p; ","]) pairs.
Proof.
  induction pairs as [|[k v] rest IH]; intros fuel Hall Hne Hfuel; [congruence|].
  apply Forall_cons in Hall as [Hkv Hall]. unfold words in Hkv. cbn [fst snd] in Hkv.
  apply andb_prop in Hkv as [Hk Hv].
  pose proof (word_length k Hk) as Lk. pose proof (word_length v Hv) as Lv.
  cbn [render flat_map fst snd] in *.
  rewrite !length_append in Hfuel.
  change (String.append ": " ?x) with (String ":" (String " " x)) in *.
  destruct rest as [|p rest].
  - cbn [flat_map app]. cbn [String.length] in Hfuel.
    destruct fuel as [|[|[|[|f]]]]; try lia.
    change (String.append ": " (String.append v EmptyString))
      with (String ":" (String " " (String.append v EmptyString))).
    rewrite match_all_word by (try assumption; apply stops_colon).
    rewrite match_all_colon, match_all_space.
    rewrite match_all_word by (try assumption; left; reflexivity).
    destruct f; reflexivity.
  - change (String.append ": " (String.append v (String.append ", " (render (p :: rest)))))
      with (String ":" (String " " (String.append v
              (String "," (String " " (render (p :: rest))))))).
    change (String.append ", " (render (p :: rest)))
      with (String "," (String " " (render (p :: rest)))) in Hfuel.
    cbn [String.length] in Hfuel.
    destruct fuel as [|[|[|[|[|[|f]]]]]]; try lia.
    change (String.append ", " (render (p :: rest)))
      with (String "," (String " " (render (p :: rest)))).
    rewrite match_all_word by (try assumption; apply stops_colon).
    rewrite match_all_colon, match_all_space.
    rewrite match_all_word by (try assumption; apply stops_comma).
    rewrite match_all_comma, match_all_space.
    cbn [app]. do 4 f_equal.
    apply IH; [exact Hall | discriminate | lia].
Qed.


Lemma plain_first_codes c :
  plain_char c = true ->
  let n := Some (code c) in
  is_code n 44 = false /\ is_code n 58 = false /\ is_code n 47 = false
  /\ is_code n 40 = false /\ is_code n 123 = false /\ is_code n 91 = false
  /\ is_code n 41 = false /\ is_code n 125 = false /\ is_code n 93 = false
  /\ is_code n 34 = false /\ is_code n 39 = false.
Proof.
  destruct c as [[] [] [] [] [] [] [] []]; vm_compute; intros H;
    try discriminate H; repeat split.
Qed.

Lemma loop_body_word_key prev w d r :
  word w = true ->
  loop_body prev w (ScanState None None d r) = Continue (ScanState (Some w) None d r).
Proof.
  intros Hw. destruct (word_inv w Hw) as (c & w' & -> & Hc & _).
  destruct (plain_first_codes c Hc) as (H1 & H2 & H3 & H4 & H5 & H6 & H7 & H8 & H9 & H10 & H11).
  unfold loop_body. cbn [charCodeAt0 key values truthy_key].
  rewrite H1, H2, H3, H4, H5, H6, H7, H8, H9, H10, H11. reflexivity.
Qed.

Lemma loop_body_word_value prev w k d r :
  word w = true -> word k = true ->
  loop_body prev w (ScanState (Some k) None d r)
  = Continue (ScanState (Some k) (Some [w]) d r).
Proof.
  intros Hw Hk. destruct (word_inv w Hw) as (c & w' & -> & Hc & _).
  destruct (word_inv k Hk) as (ck & k' & -> & _).
  destruct (plain_first_codes c Hc) as (H1 & H2 & H3 & H4 & H5 & H6 & H7 & H8 & H9 & H10 & H11).
  unfold loop_body. cbn [charCodeAt0 key values truthy_key].
  rewrite H1, H2, H3, H4, H5, H6, H7, H8, H9. reflexivity.
Qed.

Lemma scan_pair fuel str prev k v more r :
  word k = true -> word v = true ->
  scan fuel str (k :: ":" :: v :: "," :: more) prev (ScanState None None 0 r)
  = scan fuel str more (Some ",") (ScanState None None 0 (r ++ [KeyValue k v])).
Proof.
  intros Hk Hv.
  rewrite TokenizerFacts.scan_cons, loop_body_word_key by exact Hk.
  rewrite TokenizerFacts.scan_cons, TokenizerFacts.loop_body_colon_skip.
  rewrite TokenizerFacts.scan_cons, loop_body_word_value by assumption.
  rewrite TokenizerFacts.scan_cons.
  destruct (word_inv k Hk) as (ck & k' & -> & _).
  unfold loop_body. cbn [charCodeAt0 key values depth result truthy_key join fold_right].
  change (is_code (Some (code ",")) 44) with true. cbv iota.
  change (0 <=? 0)%Z with true. cbv iota.
  rewrite append_empty. reflexivity.
Qed.

Lemma scan_pairs fuel str pairs :
  forall prev r,
    Forall (fun p => words p = true) pairs ->
    scan fuel str (flat_map (fun p => [fst p; ":"; snd p; ","]) pairs) prev
      (ScanState None None 0 r)
    = Tokens (r ++ map pair_token pairs).
Proof.
  induction pairs as [|[k v] rest IH]; intros prev r Hall.
  - cbn [flat_map map]. rewrite TokenizerFacts.scan_nil, app_nil_r. reflexivity.
  - apply Forall_cons in Hall as [Hkv Hall]. unfold words in Hkv. cbn [fst snd] in Hkv.
    apply andb_prop in Hkv as [Hk Hv].
    cbn [flat_map fst snd app map]. rewrite scan_pair by assumption.
    rewrite IH by exact Hall. rewrite <- app_assoc. reflexivity.
Qed.

Lemma word_last w :
  word w = true -> exists x c, w = String.append x (String c EmptyString) /\ is_space c = false.
Proof.
  intros Hw. destruct (word_inv w Hw) as (c & w' & -> & Hc & Hw'). clear Hw.
  revert c Hc. induction w' as [|d w' IH]; intros c Hc.
  - exists EmptyString, c. split; [reflexivity|].
    apply (TokenizerFacts.plain_char_facts c Hc).
  - cbn [all_chars] in Hw'. apply andb_prop in Hw' as [Hd Hw'].
    destruct (IH Hw' d Hd) as (x & e & E & He).
    exists (String c x), e. rewrite append_cons, <- E. auto.
Qed.

Lemma render_last pairs :
  Forall (fun p => words p = true) pairs -> pairs <> [] ->
  exists x c, render pairs = String.append x (String c EmptyString) /\ is_space c = false.
Proof.
  induction pairs as [|[k v] rest IH]; intros Hall Hne; [congruence|].
  apply Forall_cons in Hall as [Hkv Hall]. unfold words in Hkv. cbn [fst snd] in Hkv.
  apply andb_prop in Hkv as [Hk Hv]. cbn [render].
  destruct rest as [|p rest].
  - destruct (word_last v Hv) as (x & c & -> & Hc).
    exists (String.append k (String.append ": " x)), c. split; [|exact Hc].
    rewrite append_empty, !append_assoc. reflexivity.
  - destruct (IH Hall ltac:(discriminate)) as (x & c & -> & Hc).
    exists (String.append k (String.append ": " (String.append v (String.append ", " x)))), c.
    split; [|exact Hc]. rewrite !append_assoc. reflexivity.
Qed.

(** X18. Writing a list of pairs of words (non-empty texts without
    white space and special characters) as [k1: v1, k2: v2, ...] and
    parsing the text gives back the pairs, in order, as key and
    value. *)
Theorem object_literal_of_words_round_trip (pairs : list (string * string)) :
  Forall (fun p => words p = true) pairs ->
  parseObjectLiteral (render pairs) = Tokens (map pair_token pairs).
Proof.
  intros Hall. destruct pairs as [|[k v] rest] eqn:E; [reflexivity|]. rewrite <- E in *.
  assert (pairs <> []) as Hne by (rewrite E; discriminate).
  assert (exists c s, render pairs = String c s /\ plain_char c = true) as (c & s & Er & Hc).
  { rewrite E in *. apply Forall_cons in Hall as [Hkv _]. unfold words in Hkv.
    cbn [fst snd] in Hkv. apply andb_prop in Hkv as [Hk _].
    destruct (word_inv k Hk) as (c & k' & -> & Hc & _). cbn [render].
    rewrite append_cons. eauto. }
  unfold parseObjectLiteral.
  assert (trim (render pairs) = render pairs) as ->.
  { unfold trim.
    assert (trim_left (render pairs) = render pairs) as ->.
    { rewrite Er. cbn [trim_left].
      destruct (TokenizerFacts.plain_char_facts c Hc) as (-> & _). reflexivity. }
    destruct (render_last pairs Hall Hne) as (x & d & -> & Hd).
    unfold trim_right. rewrite trim_right_aux_closed by exact Hd. reflexivity. }
  assert (is_code (charCodeAt0 (render pairs)) 123 = false) as ->.
  { rewrite Er. cbn [charCodeAt0]. apply (plain_first_codes c Hc). }
  pose proof (match_render pairs (String.length (render pairs)) Hall Hne (Nat.le_refl _))
    as Htoks.
  unfold str_match.
  destruct (match_all (String.length (render pairs)) (render pairs)) as [|t toks] eqn:Em.
  { exfalso. rewrite Er in Em. cbn [String.length match_all] in Em.
    destruct (bindingToken_at (String c s)) as [[tok rest']|] eqn:Eb; [discriminate|].
    unfold bindingToken_at in Eb.
    destruct (TokenizerFacts.plain_char_facts c Hc) as (Hsp & _ & _ & Hq & Ha & Hsl & _).
    rewrite Hq, Ha, Hsl, Hsp in Eb.
    destruct (everyThingElse (String c s)) as [[? ?]|]; discriminate. }
  rewrite Htoks. rewrite scan_pairs by exact Hall. reflexivity.
Qed.


Lemma blank_object_literal_is_empty_witness :
  parseObjectLiteral "  " = Tokens [] /\ parseObjectLiteral "{  }" = Tokens [].
Proof. apply (blank_object_literal_is_empty "  "). reflexivity. Defined.

Lemma object_literal_of_words_round_trip_witness :
  parseObjectLiteral "text: name, visible: !hidden"
  = Tokens [KeyValue "text" "name"; KeyValue "visible" "!hidden"].
Proof.
  apply (object_literal_of_words_round_trip [("text", "name"); ("visible", "!hidden")]).
  repeat constructor.
Defined.

End LiteralFacts.

(** ** Properties of the guard on objects *)

Module SafetyFacts.
Import JsString JsNumber Js Compiler Spec SafetyProps.

Lemma all_fields_fields obj keys st :
  is_nullish obj = false ->
  all_fields obj keys st
  = match fields (heap st) obj keys with
    | Some b => Ret b st
    | None => Unmodelled "property that the embedding does not determine"
    end.
Proof.
  intros Hn. induction keys as [|k keys IH]; [reflexivity|].
  cbn [all_fields fields]. unfold bind, get_member. rewrite Hn.
  destruct (get (heap st) obj k) as [x|]; [|reflexivity].
  destruct (truthy x); [exact IH|reflexivity].
Qed.

Lemma ensureSafeObject_returns obj text st v st' :
  ensureSafeObject obj text st = Ret v st' ->
  v = obj /\ st' = st /\ unsafe (heap st) obj = Some false.
Proof.
  unfold ensureSafeObject, unsafe.
  destruct (truthy obj) eqn:Et; [|intros H; injection H as <- <-; auto].
  pose proof (EvalFacts.truthy_not_nullish _ Et) as Hn.
  unfold bind at 1. unfold get_member at 1. rewrite Hn.
  destruct (get (heap st) obj "constructor") as [c|]; [|discriminate].
  destruct (strict_equal c obj); [discriminate|].
  unfold bind at 1. rewrite all_fields_fields by exact Hn.
  destruct (fields (heap st) obj ["document"; "location"; "alert"; "setInterval"])
    as [[]|]; try discriminate.
  unfold bind at 1. rewrite all_fields_fields by exact Hn.
  destruct (fields (heap st) obj ["children"]) as [[]|]; try discriminate.
  - unfold bind at 1. unfold bind at 1. rewrite all_fields_fields by exact Hn.
    destruct (fields (heap st) obj ["nodeName"]) as [[]|]; try discriminate.
    rewrite all_fields_fields by exact Hn.
    destruct (fields (heap st) obj ["prop"; "attr"; "find"]) as [[]|]; try discriminate.
    intros H; injection H as <- <-; auto.
  - unfold bind at 1. cbn [ret]. intros H; injection H as <- <-; auto.
Qed.

Section WithHost.

Variable host : nat -> value -> list value -> M value.

Ltac step H :=
  unfold bind at 1 in H;
  match type of H with
  | match ?m ?s with _ => _ end = _ =>
      let E := fresh "E" in destruct (m s) as [? ?|? ?|?|] eqn:E; try discriminate H
  end.

(** X19. Whatever a compiled function call or a compiled indexed
    read returns passes the guard of [ensureSafeObject] in the
    state it returns in: it is not a function that is its own
    constructor, and it does not look like the window or like a
    DOM node. *)
Theorem calls_and_indexed_reads_return_safe_objects
    (fn obj indexFn : closure) (contextGetter : option closure) (argsFn : list closure)
    (text : string) (self locals : value) (extra : list earg) (st st' : state) (v : value) :
  (call host (FunctionCall fn contextGetter argsFn text) self locals extra st = Ret v st'
   \/ call host (ObjectIndex obj indexFn text) self locals extra st = Ret v st') ->
  unsafe (heap st') v = Some false.
Proof.
  intros [H|H].
  - cbn [call] in H. step H. step H. step H. step H.
    destruct (truthy a1).
    + step H. step H.
      apply ensureSafeObject_returns in H as (-> & -> & Hsafe). exact Hsafe.
    + injection H as <- <-. reflexivity.
  - cbn [call] in H. step H. step H.
    destruct (negb (truthy a)).
    + injection H as <- <-. reflexivity.
    + step H. step H. step H.
      apply ensureSafeObject_returns in H as (-> & -> & Hsafe). exact Hsafe.
Qed.

(** X20. A path of six segments or more compiles to the chunked
    getter without any check, and evaluating this getter with a
    [locals] that is [undefined] or [null] throws a [TypeError],
    whatever the scope. *)
Theorem long_paths_need_locals
    (path fullExp : string) (scope locals : value) (st : state) :
  6 <= length (split_dot path) ->
  is_nullish locals = true ->
  compile_getter path fullExp = inr (ChunkedGetter (split_dot path) fullExp)
  /\ exists message,
       call host (ChunkedGetter (split_dot path) fullExp) scope locals [] st
       = Throw (TypeError message) st.
Proof.
  intros Hlen Hl. split.
  - unfold compile_getter.
    destruct (split_dot path) as [|k0 [|k1 [|k2 rest]]] eqn:E; cbn [length] in Hlen; try lia.
    destruct (Nat.ltb_spec (length (k0 :: k1 :: k2 :: rest)) 6) as [Hlt|_];
      [cbn [length] in Hlt; lia | reflexivity].
  - cbn [call]. unfold chunked_getter, bind, snapshot, bind, own_keys.
    destruct locals; try discriminate; eexists; reflexivity.
Qed.

End WithHost.

Lemma calls_and_indexed_reads_return_safe_objects_witness :
  call quiet_host
    (ObjectIndex (Identifier (SimpleGetter1 "a") "a" "a['b']") (StringLiteral "b") "a['b']")
    (VObject 1%positive) VUndefined [] (State sample_heap [])
  = Ret (VObject 3%positive) (State sample_heap [])
  /\ unsafe sample_heap (VObject 3%positive) = Some false.
Proof.
  assert (call quiet_host
            (ObjectIndex (Identifier (SimpleGetter1 "a") "a" "a['b']") (StringLiteral "b")
               "a['b']")
            (VObject 1%positive) VUndefined [] (State sample_heap [])
          = Ret (VObject 3%positive) (State sample_heap [])) as Hrun
    by (vm_compute; reflexivity).
  split; [exact Hrun|].
  apply (calls_and_indexed_reads_return_safe_objects quiet_host
           (StringLiteral "f") (Identifier (SimpleGetter1 "a") "a" "a['b']") (StringLiteral "b")
           None [] "a['b']" (VObject 1%positive) VUndefined [] (State sample_heap [])
           (State sample_heap []) (VObject 3%positive)).
  right. exact Hrun.
Defined.

Lemma long_paths_need_locals_witness :
  compile_getter "a.b.c.d.e.f" "a.b.c.d.e.f"
  = inr (ChunkedGetter ["a"; "b"; "c"; "d"; "e"; "f"] "a.b.c.d.e.f")
  /\ exists message,
       call quiet_host (ChunkedGetter ["a"; "b"; "c"; "d"; "e"; "f"] "a.b.c.d.e.f")
         (VObject 1%positive) VUndefined [] (State nested_heap [])
       = Throw (TypeError message) (State nested_heap []).
Proof.
  apply (long_paths_need_locals quiet_host "a.b.c.d.e.f" "a.b.c.d.e.f"
           (VObject 1%positive) VUndefined (State nested_heap [])).
  - cbn. lia.
  - reflexivity.
Defined.

End SafetyFacts.

(** ** Further properties of the getter cache *)

Module GetterCacheFacts.
Import JsString JsNumber Js Compiler Spec CacheProps.

Ltac constructor_cases :=
  repeat match goal with
         | |- context [String.eqb ?k "constructor"] =>
             destruct (String.eqb_spec k "constructor")
         | H : context [String.eqb ?k "constructor"] |- _ =>
             destruct (String.eqb_spec k "constructor")
         end.

Lemma compile_getter_short path e1 e2 getter :
  (length (split_dot path) <? 6) = true ->
  compile_getter path e1 = inr getter -> compile_getter path e2 = inr getter.
Proof.
  intros Hlen. apply Nat.ltb_lt in Hlen. unfold compile_getter.
  destruct (split_dot path) as [|k0 [|k1 [|k2 [|k3 [|k4 [|k5 rest]]]]]];
    cbn [length] in Hlen; try lia;
    cbn -[String.eqb];
    unfold simpleGetterFn1, simpleGetterFn2, cspSafeGetterFn, ensureSafeMemberName;
    cbn -[String.eqb]; intros H; constructor_cases; subst;
    try discriminate H; exact H.
Qed.

Lemma compile_getter_long path fullExp :
  (length (split_dot path) <? 6) = false ->
  compile_getter path fullExp = inr (ChunkedGetter (split_dot path) fullExp).
Proof.
  intros Hlen. pose proof Hlen as Hge. apply Nat.ltb_ge in Hge. unfold compile_getter.
  destruct (split_dot path) as [|k0 [|k1 [|k2 rest]]] eqn:E; cbn [length] in Hge; try lia.
  rewrite Hlen. reflexivity.
Qed.

(** X21. Take a getter cache as [getterFn] leaves it as long as the
    path [__proto__] is not compiled: its entries are what
    [getterFn] builds, none is under [hasOwnProperty], and its
    prototype is [Object.prototype]. On such a cache a call of
    [getterFn] for a path other than [__proto__] returns or throws;
    it keeps the cache such; for a path of up to five segments it
    returns exactly the getter compiled for the path, cached or not,
    and for a longer path the chunked getter of the segments of the
    path (with the expression of the call that built it); it
    throws, with the cache unchanged, exactly the error of
    compiling the path, so that the cache never lets a path with
    a reserved segment through. *)
Theorem getter_cache_is_transparent
    (path fullExp : string) (cache : getter_cache) :
  faithful cache ->
  entries cache !! "hasOwnProperty" = None ->
  prototype cache = None ->
  path <> "__proto__" ->
  match getterFn (VString path) fullExp cache with
  | Ret getter cache' =>
      faithful cache'
      /\ entries cache' !! "hasOwnProperty" = None
      /\ prototype cache' = None
      /\ (if length (split_dot path) <? 6
          then compile_getter path fullExp = inr getter
          else exists fullExp', getter = ChunkedGetter (split_dot path) fullExp')
  | Throw e cache' =>
      cache' = cache /\ compile_getter path fullExp = inl e
  | Unmodelled _ | OutOfFuel => False
  end.
Proof.
  intros Hf Hinv Hproto Hpath. unfold getterFn. cbn [to_string]. rewrite Hinv.
  destruct (entries cache !! path) as [g|] eqn:Ec.
  - split; [exact Hf|]. split; [exact Hinv|]. split; [exact Hproto|].
    specialize (Hf path g Ec).
    destruct (length (split_dot path) <? 6); [apply Hf | exact Hf].
  - destruct (compile_getter path fullExp) as [e|g] eqn:Eg; [auto|].
    assert (if length (split_dot path) <? 6
            then forall fullExp0, compile_getter path fullExp0 = inr g
            else exists fullExp', g = ChunkedGetter (split_dot path) fullExp') as Hg.
    { destruct (length (split_dot path) <? 6) eqn:El.
      - intros e2. exact (compile_getter_short path fullExp e2 g El Eg).
      - rewrite (compile_getter_long path fullExp El) in Eg. injection Eg as <-. eauto. }
    destruct (String.eqb_spec path "hasOwnProperty") as [->|Hne].
    + split; [exact Hf|]. split; [exact Hinv|]. split; [exact Hproto|].
      destruct (length (split_dot "hasOwnProperty") <? 6); [reflexivity | exact Hg].
    + unfold bind, store_getter.
      destruct (String.eqb_spec path "__proto__"); [contradiction|].
      rewrite Hproto. cbn [ret entries prototype].
      split; [|split; [|split]].
      * intros p g' Hp. cbn [entries] in Hp. destruct (decide (p = path)) as [->|Hnp].
        -- rewrite lookup_insert_eq in Hp. injection Hp as <-. exact Hg.
        -- rewrite lookup_insert_ne in Hp by congruence. exact (Hf p g' Hp).
      * rewrite lookup_insert_ne by congruence. exact Hinv.
      * reflexivity.
      * destruct (length (split_dot path) <? 6); [reflexivity | exact Hg].
Qed.

Lemma getter_cache_is_transparent_witness :
  faithful (GetterCache (<["a.b" := SimpleGetter2 "a" "b"]> ∅) None)
  /\ entries (GetterCache (<["a.b" := SimpleGetter2 "a" "b"]> ∅) None) !! "hasOwnProperty"
     = None
  /\ prototype (GetterCache (<["a.b" := SimpleGetter2 "a" "b"]> ∅) None) = None
  /\ compile_getter "a.b" "a.b + 1" = inr (SimpleGetter2 "a" "b").
Proof.
  assert (faithful ∅) as Hempty
    by (intros path getter H; cbn in H; rewrite lookup_empty in H; discriminate).
  pose proof (getter_cache_is_transparent "a.b" "a.b + 1" ∅ Hempty
                (lookup_empty _) eq_refl ltac:(discriminate)) as H.
  assert (getterFn (VString "a.b") "a.b + 1" ∅
          = Ret (SimpleGetter2 "a" "b")
              (GetterCache (<["a.b" := SimpleGetter2 "a" "b"]> ∅) None)) as Hrun
    by reflexivity.
  rewrite Hrun in H. exact H.
Defined.

End GetterCacheFacts.

(** ** Function calls that are not allowed *)

Module CallFacts.
Import JsString JsNumber Js Compiler Spec CallProps.
Import Parser.

Lemma keeps_ret {S A} (Inv : S -> Prop) (Q : A -> Prop) a : Q a -> keeps Inv Q (ret a).
Proof. intros H st Hst. cbn. auto. Qed.

Lemma keeps_throw {S A} (Inv : S -> Prop) (Q : A -> Prop) e : keeps Inv Q (throw e).
Proof. intros st Hst. exact I. Qed.

Lemma keeps_unmodelled {S A} (Inv : S -> Prop) (Q : A -> Prop) why :
  keeps Inv Q (unmodelled why).
Proof. intros st Hst. exact I. Qed.

Lemma keeps_bind {S A B} (Inv : S -> Prop) (Q : A -> Prop) (R : B -> Prop)
    (m : ST S A) (k : A -> ST S B) :
  keeps Inv Q m -> (forall a, Q a -> keeps Inv R (k a)) -> keeps Inv R (bind m k).
Proof.
  intros Hm Hk st Hst. unfold bind. specialize (Hm st Hst).
  destruct (m st) as [a st'| | |]; try exact I.
  destruct Hm as [Ha Hst']. exact (Hk a Ha st' Hst').
Qed.

Lemma keeps_weaken {S A} (Inv : S -> Prop) (Q Q' : A -> Prop) (m : ST S A) :
  keeps Inv Q m -> (forall a, Q a -> Q' a) -> keeps Inv Q' m.
Proof.
  intros Hm Hq st Hst. specialize (Hm st Hst).
  destruct (m st); try exact I. destruct Hm. auto.
Qed.

Lemma keeps_out_of_fuel {A} (Q : A -> Prop) : keeps state_free Q out_of_fuel.
Proof. intros st Hst. exact I. Qed.

(** *** The getters *)

Lemma compile_getter_free path fullExp getter :
  compile_getter path fullExp = inr getter -> call_free getter = true.
Proof.
  unfold compile_getter, simpleGetterFn1, simpleGetterFn2, cspSafeGetterFn.
  destruct (split_dot path) as [|k0 [|k1 [|k2 rest]]];
    repeat (destruct (ensureSafeMemberName _ _); [discriminate|]);
    try (intros H; injection H as <-; reflexivity).
  destruct (_ <? _); [|intros H; injection H as <-; reflexivity].
  repeat (destruct (ensureSafeMemberName _ _); [discriminate|]).
  intros H; injection H as <-; reflexivity.
Qed.

Lemma cache_free_insert cache proto path g :
  cache_free cache -> call_free g = true ->
  cache_free (GetterCache (<[path := g]> (entries cache)) proto).
Proof.
  intros Hc Hg p g' Hp. cbn [entries] in Hp. destruct (decide (p = path)) as [->|Hne].
  - rewrite lookup_insert_eq in Hp. injection Hp as <-. exact Hg.
  - rewrite lookup_insert_ne in Hp by congruence. exact (Hc p g' Hp).
Qed.

Lemma keeps_getterFn path fullExp :
  keeps cache_free (fun g => call_free g = true) (getterFn path fullExp).
Proof.
  intros cache Hc. unfold getterFn.
  destruct (to_string path) as [key|]; [|exact I].
  destruct (entries cache !! "hasOwnProperty"); [exact I|].
  destruct (entries cache !! key) as [g|] eqn:E; [split; [exact (Hc key g E) | exact Hc]|].
  destruct path; try exact I.
  destruct (compile_getter s fullExp) as [e|g] eqn:Eg; [exact I|].
  pose proof (compile_getter_free s fullExp g Eg) as Hg.
  destruct (String.eqb s "hasOwnProperty"); [split; [exact Hg | exact Hc]|].
  unfold bind, store_getter.
  destruct (String.eqb s "__proto__"); [split; [exact Hg | exact Hc]|].
  destruct (prototype cache).
  - destruct (String.eqb s "length"); [exact I|].
    destruct (mem_string s (undetermined OfFunction)); [exact I|].
    split; [exact Hg | apply cache_free_insert; assumption].
  - split; [exact Hg | apply cache_free_insert; assumption].
Qed.

(** *** The steps of the parser *)

Lemma keeps_peek expected : keeps state_free maybe_free (peek expected).
Proof.
  intros st [Ht Hc]. unfold peek. destruct (tokens st) as [|t rest] eqn:E.
  - split; [exact I | split; [rewrite E; reflexivity | exact Hc]].
  - cbn [forallb] in Ht. apply andb_prop in Ht as [Ht1 Ht2].
    destruct (_ || _); (split; [|split; [rewrite E; cbn [forallb]; rewrite Ht1, Ht2; reflexivity | exact Hc]]).
    + exact Ht1.
    + exact I.
Qed.

Lemma keeps_expect expected : keeps state_free maybe_free (expect expected).
Proof.
  unfold expect. eapply keeps_bind; [apply keeps_peek|].
  intros [t|] Ht; [|apply keeps_ret; exact I].
  intros st [Hts Hc]. split; [exact Ht|]. split; [|exact Hc]. cbn [tokens].
  destruct (tokens st) as [|x rest]; [reflexivity|].
  cbn [forallb tail] in *. apply andb_prop in Hts as [_ H]. exact H.
Qed.

Lemma keeps_consume text e1 : keeps state_free (fun _ => True) (consume text e1).
Proof.
  unfold consume. eapply keeps_bind; [apply keeps_expect|].
  intros [t|] Ht; [apply keeps_ret; exact I|].
  eapply keeps_bind; [apply keeps_peek|]. intros next _. apply keeps_throw.
Qed.

Lemma keeps_peekToken text :
  keeps state_free (fun t => token_free t = true) (peekToken text).
Proof.
  intros st [Ht Hc]. unfold peekToken. destruct (tokens st) as [|t rest] eqn:E; [exact I|].
  cbn [forallb] in Ht. apply andb_prop in Ht as [Ht1 Ht2].
  split; [exact Ht1|]. split; [rewrite E; cbn [forallb]; rewrite Ht1, Ht2; reflexivity | exact Hc].
Qed.

Lemma keeps_lift {A} (Q : A -> Prop) (m : L A) :
  keeps cache_free Q m -> keeps state_free Q (lift m).
Proof.
  intros Hm st [Ht Hc]. unfold lift. specialize (Hm (getterFnCache st) Hc).
  destruct (m (getterFnCache st)); try exact I. destruct Hm as [Ha Hc'].
  split; [exact Ha|]. split; [exact Ht | exact Hc'].
Qed.

Lemma keeps_lookup_filter options key :
  keeps state_free (fun _ => True) (lookup_filter options key).
Proof.
  unfold lookup_filter. destruct (to_string key) as [k|]; [|apply keeps_unmodelled].
  destruct (filters options !! k); [apply keeps_ret; exact I|].
  destruct (inherited OfObject k); [apply keeps_ret; exact I | apply keeps_unmodelled].
Qed.

Ltac free :=
  unfold compiled_free, closures_free, pairs_free, maybe_free, token_free,
    binaryFn, unaryFn, ternaryFn, plain in *;
  cbn [closure_of call_free fst snd forallb Compiler.fn] in *;
  rewrite ?forallb_app; cbn [forallb fst snd];
  repeat match goal with
         | H : _ = true |- _ => rewrite H; clear H
         end;
  try reflexivity.

Section Productions.

Variable text : string.
Variable options : Compiler.options.
Variable this : methods.

Lemma keeps_fieldAccess object :
  call_free object = true -> keeps state_free compiled_free (fieldAccess text object).
Proof.
  intros Ho. unfold fieldAccess. eapply keeps_bind; [apply keeps_expect|].
  intros token Ht. eapply keeps_bind; [apply keeps_lift, keeps_getterFn|].
  intros getter Hg. apply keeps_ret. free.
Qed.

Lemma productions_call_free :
  disallowFunctionCalls options = true ->
  call_free_parser this -> call_free_parser (productions text options this).
Proof.
  intros Hflag [].
  constructor; cbn [productions filterChain_ filterChain_loop_ filter_ filter_loop_
    expression_ assignment_ ternary_ logicalOR_ logicalOR_loop_ logicalAND_ equality_
    relational_ additive_ additive_loop_ multiplicative_ multiplicative_loop_ unary_
    primary_ primary_loop_ objectIndex_ functionCall_ functionCall_loop_
    arrayDeclaration_ arrayDeclaration_loop_ object_ object_loop_ statements_loop_].
  - (* filterChain *)
    unfold filterChain. eapply keeps_bind; [eassumption|]. intros left Hl. auto.
  - (* filterChain_loop *)
    intros left Hl. unfold filterChain_loop. eapply keeps_bind; [apply keeps_expect|].
    intros [t|] Ht; [|apply keeps_ret; exact Hl].
    eapply keeps_bind; [eassumption|]. intros f Hf.
    apply cf_filterChain_loop0. free.
  - (* filter *)
    unfold filter. eapply keeps_bind; [apply keeps_expect|]. intros token Ht.
    eapply keeps_bind; [apply keeps_lookup_filter|]. intros fn _.
    apply cf_filter_loop0. reflexivity.
  - (* filter_loop *)
    intros fn argsFn Ha. unfold filter_loop. eapply keeps_bind; [apply keeps_expect|].
    intros [t|] Ht; [|apply keeps_ret; free].
    eapply keeps_bind; [eassumption|]. intros e He. apply cf_filter_loop0. free.
  - (* expression *) exact cf_assignment0.
  - (* assignment *)
    unfold assignment. eapply keeps_bind; [eassumption|]. intros left Hl.
    eapply keeps_bind; [apply keeps_expect|].
    intros [t|] Ht; [|apply keeps_ret; exact Hl].
    destruct (has_assign (closure_of left)); [|apply keeps_throw].
    eapply keeps_bind; [eassumption|]. intros right Hr. apply keeps_ret. free.
  - (* ternary *)
    unfold ternary. eapply keeps_bind; [eassumption|]. intros left Hl.
    eapply keeps_bind; [apply keeps_expect|].
    intros [t|] Ht; [|apply keeps_ret; exact Hl].
    eapply keeps_bind; [eassumption|]. intros middle Hm.
    eapply keeps_bind; [apply keeps_expect|].
    intros [t'|] Ht'; [|apply keeps_throw].
    eapply keeps_bind; [eassumption|]. intros right Hr. apply keeps_ret. free.
  - (* logicalOR *)
    unfold logicalOR. eapply keeps_bind; [eassumption|]. intros left Hl. auto.
  - (* logicalOR_loop *)
    intros left Hl. unfold logicalOR_loop. eapply keeps_bind; [apply keeps_expect|].
    intros [t|] Ht; [|apply keeps_ret; exact Hl].
    eapply keeps_bind; [eassumption|]. intros right Hr. apply cf_logicalOR_loop0. free.
  - (* logicalAND *)
    unfold logicalAND. eapply keeps_bind; [eassumption|]. intros left Hl.
    eapply keeps_bind; [apply keeps_expect|].
    intros [t|] Ht; [|apply keeps_ret; exact Hl].
    eapply keeps_bind; [eassumption|]. intros right Hr. apply keeps_ret. free.
  - (* equality *)
    unfold equality. eapply keeps_bind; [eassumption|]. intros left Hl.
    eapply keeps_bind; [apply keeps_expect|].
    intros [t|] Ht; [|apply keeps_ret; exact Hl].
    eapply keeps_bind; [eassumption|]. intros right Hr. apply keeps_ret. free.
  - (* relational *)
    unfold relational. eapply keeps_bind; [eassumption|]. intros left Hl.
    eapply keeps_bind; [apply keeps_expect|].
    intros [t|] Ht; [|apply keeps_ret; exact Hl].
    eapply keeps_bind; [eassumption|]. intros right Hr. apply keeps_ret. free.
  - (* additive *)
    unfold additive. eapply keeps_bind; [eassumption|]. intros left Hl. auto.
  - (* additive_loop *)
    intros left Hl. unfold additive_loop. eapply keeps_bind; [apply keeps_expect|].
    intros [t|] Ht; [|apply keeps_ret; exact Hl].
    eapply keeps_bind; [eassumption|]. intros right Hr. apply cf_additive_loop0. free.
  - (* multiplicative *)
    unfold multiplicative. eapply keeps_bind; [eassumption|]. intros left Hl. auto.
  - (* multiplicative_loop *)
    intros left Hl. unfold multiplicative_loop. eapply keeps_bind; [apply keeps_expect|].
    intros [t|] Ht; [|apply keeps_ret; exact Hl].
    eapply keeps_bind; [eassumption|]. intros right Hr.
    apply cf_multiplicative_loop0. free.
  - (* unary *)
    unfold unary. eapply keeps_bind; [apply keeps_expect|].
    intros [t|] Ht; [assumption|].
    eapply keeps_bind; [apply keeps_expect|].
    intros [t|] Ht'.
    { eapply keeps_bind; [eassumption|]. intros right Hr. apply keeps_ret. free. }
    eapply keeps_bind; [apply keeps_expect|].
    intros [t|] Ht''; [|assumption].
    eapply keeps_bind; [eassumption|]. intros right Hr. apply keeps_ret. free.
  - (* primary *)
    unfold primary. eapply keeps_bind; [apply keeps_expect|]. intros paren _.
    eapply keeps_bind with (Q := compiled_free).
    + destruct paren as [t|].
      { eapply keeps_bind; [eassumption|]. intros e He.
        eapply keeps_bind; [apply keeps_consume|]. intros _ _. apply keeps_ret. exact He. }
      eapply keeps_bind; [apply keeps_expect|].
      intros [t|] Ht'; [assumption|].
      eapply keeps_bind; [apply keeps_expect|].
      intros [t|] Ht''; [assumption|].
      eapply keeps_bind; [apply keeps_expect|].
      intros [[i tx [f|] j s]|] Htok; try apply keeps_throw.
      apply keeps_ret. free.
    + intros p Hp. auto.
  - (* primary_loop *)
    intros primary context Hp. unfold primary_loop.
    eapply keeps_bind; [apply keeps_expect|].
    intros [t|] Ht; [|apply keeps_ret; exact Hp].
    destruct (strict_equal _ _).
    { eapply keeps_bind; [apply cf_functionCall0|]. intros p Hq. auto. }
    destruct (strict_equal _ _).
    { eapply keeps_bind; [apply cf_objectIndex0; exact Hp|]. intros p Hq. auto. }
    eapply keeps_bind; [apply keeps_fieldAccess; exact Hp|]. intros p Hq. auto.
  - (* objectIndex *)
    intros obj Ho. unfold objectIndex. eapply keeps_bind; [eassumption|].
    intros indexFn Hi. eapply keeps_bind; [apply keeps_consume|]. intros _ _.
    apply keeps_ret. free.
  - (* functionCall *)
    intros fn contextGetter. unfold functionCall. rewrite Hflag. apply keeps_throw.
  - (* functionCall_loop *)
    intros argsFn Ha. unfold functionCall_loop. eapply keeps_bind; [eassumption|].
    intros e He. eapply keeps_bind; [apply keeps_expect|].
    intros [t|] Ht; [apply cf_functionCall_loop0; free | apply keeps_ret; free].
  - (* arrayDeclaration *)
    unfold arrayDeclaration. eapply keeps_bind; [apply keeps_peekToken|].
    intros next Hn.
    eapply keeps_bind with (Q := fun r : list closure * bool => closures_free (fst r)).
    + destruct (strict_equal _ _); [apply keeps_ret; reflexivity|].
      apply cf_arrayDeclaration_loop0. reflexivity.
    + intros [elementFns allConstant] He.
      eapply keeps_bind; [apply keeps_consume|]. intros _ _. apply keeps_ret. free.
  - (* arrayDeclaration_loop *)
    intros elementFns allConstant He. unfold arrayDeclaration_loop.
    eapply keeps_bind; [apply keeps_peek|].
    intros [t|] Ht; [apply keeps_ret; exact He|].
    eapply keeps_bind; [eassumption|]. intros elementFn Hf.
    eapply keeps_bind; [apply keeps_expect|].
    intros [t|] Ht'; [apply cf_arrayDeclaration_loop0; free | apply keeps_ret; free].
  - (* object *)
    unfold object. eapply keeps_bind; [apply keeps_peekToken|].
    intros next Hn.
    eapply keeps_bind
      with (Q := fun r : list (value * closure) * bool => pairs_free (fst r)).
    + destruct (strict_equal _ _); [apply keeps_ret; reflexivity|].
      apply cf_object_loop0. reflexivity.
    + intros [keyValues allConstant] He.
      eapply keeps_bind; [apply keeps_consume|]. intros _ _. apply keeps_ret. free.
  - (* object_loop *)
    intros keyValues allConstant He. unfold object_loop.
    eapply keeps_bind; [apply keeps_peek|].
    intros [t|] Ht; [apply keeps_ret; exact He|].
    eapply keeps_bind; [apply keeps_expect|]. intros token Htok.
    eapply keeps_bind; [apply keeps_consume|]. intros _ _.
    eapply keeps_bind; [eassumption|]. intros value Hv.
    eapply keeps_bind; [apply keeps_expect|].
    intros [t|] Ht'; [apply cf_object_loop0; free | apply keeps_ret; free].
  - (* statements_loop *)
    intros statements Hs. unfold statements_loop.
    eapply keeps_bind; [apply keeps_peek|]. intros stop Hstop.
    eapply keeps_bind with (Q := Forall compiled_free).
    + intros st Hst. destruct (tokens st) as [|t rest] eqn:E; [split; assumption|].
      destruct stop; [split; assumption|].
      assert (keeps state_free (Forall compiled_free)
                (let* e := filterChain_ this in ret (statements ++ [e])%list)) as Hk.
      { eapply keeps_bind; [eassumption|]. intros e He. apply keeps_ret.
        apply Forall_app. split; [exact Hs | repeat constructor; exact He]. }
      exact (Hk st Hst).
    + intros statements' Hs'. eapply keeps_bind; [apply keeps_expect|].
      intros [t|] Ht; [apply cf_statements_loop0; exact Hs'|].
      apply keeps_ret. destruct statements' as [|e [|e' rest]].
      * reflexivity.
      * apply Forall_cons in Hs' as [He _]. exact He.
      * unfold compiled_free, plain. cbn [closure_of call_free].
        rewrite forallb_forall. intros c Hc. apply in_map_iff in Hc as (x & <- & Hx).
        rewrite Forall_forall in Hs'. apply Hs'. apply list_elem_of_In. exact Hx.
Qed.

End Productions.

Lemma exhausted_call_free : call_free_parser exhausted.
Proof. constructor; intros; apply keeps_out_of_fuel. Qed.

Lemma parser_call_free text options fuel :
  disallowFunctionCalls options = true ->
  call_free_parser (parser text options fuel).
Proof.
  intros Hflag. induction fuel as [|fuel IH]; [apply exhausted_call_free|].
  apply productions_call_free; assumption.
Qed.

(** *** The lexer *)

Lemma keeps_readString_loop fuel :
  forall text quote start index value rawString escape,
    keeps cache_free (fun r : nat * token => token_free (snd r) = true)
      (Lexer.readString_loop fuel text quote start index value rawString escape).
Proof.
  induction fuel as [|fuel IH]; intros; [intros st Hst; exact I|].
  cbn [Lexer.readString_loop].
  destruct (if _ <? _ then _ else _) as [ch|]; [|apply keeps_throw].
  destruct escape.
  - destruct (Ascii.eqb ch "u"); [|apply IH].
    destruct (Lexer.parse_hex4 _); [|apply keeps_throw].
    destruct (_ <? _); [apply IH | apply keeps_unmodelled].
  - destruct (_ =? _); [apply IH|].
    destruct (Ascii.eqb ch quote); [apply keeps_ret; reflexivity | apply IH].
Qed.

Lemma keeps_readNumber_loop fuel :
  forall text index n,
    keeps cache_free (fun _ : nat * string => True) (Lexer.readNumber_loop fuel text index n).
Proof.
  induction fuel as [|fuel IH]; intros; [intros st Hst; exact I|].
  cbn [Lexer.readNumber_loop].
  destruct (if _ <? _ then _ else _) as [c|]; [|apply keeps_ret; exact I].
  cbv zeta. destruct (_ || _); [apply IH|].
  destruct (_ && _); [apply IH|].
  destruct (_ && _ && _); [apply IH|].
  destruct (_ && _ && _); [apply keeps_throw | apply keeps_ret; exact I].
Qed.

Lemma keeps_readNumber text index :
  keeps cache_free (fun r : nat * token => token_free (snd r) = true)
    (Lexer.readNumber text index).
Proof.
  unfold Lexer.readNumber. eapply keeps_bind; [apply keeps_readNumber_loop|].
  intros [index' n] _. destruct (JsNumber.of_string n); [|apply keeps_unmodelled].
  apply keeps_ret. reflexivity.
Qed.

Lemma keeps_readIdent text index :
  keeps cache_free (fun r : nat * list token => tokens_free (snd r))
    (Lexer.readIdent text index).
Proof.
  unfold Lexer.readIdent.
  destruct (Lexer.readIdent_run _ _ _ _ _) as [[index1 ident1] lastDot1].
  destruct (match match lastDot1 with Some (S d) => Some (S d) | _ => None end with
            | Some dot => _ | None => _ end) as [[index2 ident2] methodName].
  eapply keeps_bind with (Q := fun t : token => token_free t = true).
  - destruct (OPERATORS ident2); [apply keeps_ret; reflexivity|].
    eapply keeps_bind; [apply keeps_getterFn|]. intros getter Hg.
    apply keeps_ret. exact Hg.
  - intros t Ht. apply keeps_ret. unfold tokens_free. cbn [snd forallb]. rewrite Ht.
    destruct methodName as [[|c m]|]; try reflexivity.
    destruct (match lastDot1 with Some (S d) => Some (S d) | _ => None end); reflexivity.
Qed.

Lemma mark_last_json_free toks :
  tokens_free toks -> tokens_free (Lexer.mark_last_json toks).
Proof.
  unfold tokens_free. induction toks as [|t [|t' rest] IH]; intros H; [reflexivity| |].
  - cbn [Lexer.mark_last_json forallb] in *. exact H.
  - change (Lexer.mark_last_json (t :: t' :: rest))
      with (t :: Lexer.mark_last_json (t' :: rest)).
    cbn [forallb] in H |- *. apply andb_prop in H as [Ht H].
    rewrite Ht. exact (IH H).
Qed.

Lemma keeps_lex_loop fuel :
  forall text index tokens lastCh json,
    tokens_free tokens ->
    keeps cache_free tokens_free (Lexer.lex_loop fuel text index tokens lastCh json).
Proof.
  induction fuel as [|fuel IH]; intros text index tokens lastCh json Ht;
    [intros st Hst; exact I|].
  assert (forall t, token_free t = true -> tokens_free (tokens ++ [t])) as Hsnoc.
  { intros t H. unfold tokens_free in *. rewrite forallb_app, Ht. cbn [forallb].
    rewrite H. reflexivity. }
  cbn [Lexer.lex_loop].
  destruct (if _ <? _ then _ else _) as [ch|]; [|apply keeps_ret; exact Ht].
  cbv zeta.
  destruct (_ || _).
  { eapply keeps_bind; [apply keeps_readString_loop|]. intros [i t] H. apply IH, Hsnoc, H. }
  destruct (_ || _).
  { eapply keeps_bind; [apply keeps_readNumber|]. intros [i t] H. apply IH, Hsnoc, H. }
  destruct (Lexer.isIdent ch).
  { eapply keeps_bind; [apply keeps_readIdent|]. intros [i read] H. apply IH.
    assert (tokens_free (tokens ++ read)) as Happ
      by (unfold tokens_free in *; rewrite forallb_app, Ht; exact H).
    destruct (_ && _); [apply mark_last_json_free|]; exact Happ. }
  destruct (char_in ch "(){}[].,;:?"); [apply IH, Hsnoc; reflexivity|].
  destruct (Lexer.isWhitespace ch); [apply IH; exact Ht|].
  destruct (OPERATORS _); [apply IH, Hsnoc; reflexivity|].
  destruct (OPERATORS _); [apply IH, Hsnoc; reflexivity|].
  destruct (OPERATORS _); [apply IH, Hsnoc; reflexivity | apply keeps_throw].
Qed.

Lemma keeps_lex text : keeps cache_free tokens_free (Lexer.lex text).
Proof. apply keeps_lex_loop. reflexivity. Qed.

(** X22. With the option [disallowFunctionCalls] set, and a getter
    cache that holds no function call, every expression that
    compiles, whatever its text and the recursion budget, compiles
    to a function that contains no function call anywhere, and
    the getter cache still holds none. *)
Theorem disallowed_function_calls_are_never_compiled
    (text : string) (options : Compiler.options) (fuel : nat)
    (cache cache' : getter_cache) (e : compiled) :
  disallowFunctionCalls options = true ->
  cache_free cache ->
  Parser.parse text options fuel cache = Ret e cache' ->
  call_free (closure_of e) = true /\ cache_free cache'.
Proof.
  intros Hflag Hc Hparse. unfold Parser.parse in Hparse.
  unfold bind at 1 in Hparse.
  pose proof (keeps_lex text cache Hc) as Hlex.
  destruct (Lexer.lex text cache) as [toks cache1| | |]; try discriminate.
  destruct Hlex as [Htoks Hc1].
  assert (keeps state_free compiled_free (statements text options fuel)) as Hst.
  { unfold statements.
    pose proof (parser_call_free text options (S fuel) Hflag) as Hp.
    destruct Hp. apply cf_statements_loop0. constructor. }
  specialize (Hst (ParserState toks cache1) (conj Htoks Hc1)).
  unfold bind at 1 in Hparse.
  destruct (statements text options fuel (ParserState toks cache1)) as [v st| | |];
    try discriminate.
  destruct Hst as [Hv [_ Hcache]].
  destruct (tokens st); [|discriminate].
  injection Hparse as <- <-. split; assumption.
Qed.


Lemma disallowed_function_calls_are_never_compiled_witness :
  call_free
    (BinaryFn (Identifier (SimpleGetter2 "a" "b") "a.b" "a.b + 1") (Some (Operator OpAdd))
              (NumberLiteral (of_Z 1))) = true
  /\ cache_free (GetterCache (<["a.b" := SimpleGetter2 "a" "b"]> ∅) None).
Proof.
  apply (disallowed_function_calls_are_never_compiled "a.b + 1" (Options ∅ true) deep_enough
           ∅ (GetterCache (<["a.b" := SimpleGetter2 "a" "b"]> ∅) None)
           (Compiled (BinaryFn (Identifier (SimpleGetter2 "a" "b") "a.b" "a.b + 1")
                        (Some (Operator OpAdd)) (NumberLiteral (of_Z 1))) false false)).
  - reflexivity.
  - intros path getter H. cbn in H. rewrite lookup_empty in H. discriminate.
  - vm_compute. reflexivity.
Defined.

End CallFacts.
